(** * Poker ledger backend: ledger reconciliation, till analysis and
      the routes that write the ledger

    A shallow embedding of the summary endpoint (GET /api/game/:id/summary),
    the till analyzer (POST /api/ai/analyze-till) and the tip claim
    (POST /api/dealers/claim-tips-by-dealer), with the properties the
    specification states about them; and of the tables and the routes
    that write them (game, players, dealers, expenses and share routers
    behind the authentication middleware), with properties of the
    application as a whole.

    Numbers.  A JavaScript number is a double.  The figures are embedded
    twice.  Modules [Summary] and [Analyzer] compute them over the exact
    rationals [Q], compared with [==]: they say which rows and which
    amounts a figure reads, and rounding, NaN and the infinities are
    outside them.  Modules [Summary64] and [Analyzer64] compute them in
    IEEE 754 binary64 (module [Binary64]): they are used where figures
    that the routes compute separately are related, which rounding
    decides.

    Strings.  A string is the list of its characters; the patterns of the
    routes are made of ASCII characters only. *)

From Stdlib Require Import String Ascii List Bool Arith ZArith QArith Qabs Qminmax.
From Stdlib Require Import Qround DecimalString Lia Lqa Permutation SpecFloat.

#[local] Set Warnings "-register-all".
Import ListNotations.

Local Open Scope Q_scope.

(* ================================================================== *)
(** * Part I: the embedding *)
(* ================================================================== *)

(** ** JavaScript built-ins used by the routes *)

Module Js.

(** [Array.prototype.reduce(f, init)]. *)
Definition reduce {A B : Type} (f : B -> A -> B) (init : B) (l : list A) : B :=
  fold_left f l init.

(** [Math.max(a, b)] and [Math.abs(a)]. *)
Definition Math_max (a b : Q) : Q := Qmax a b.
Definition Math_abs (a : Q) : Q := Qabs a.

(** [a > b] on numbers. *)
Definition gt (a b : Q) : bool :=
  match a ?= b with Gt => true | _ => false end.

(** [a < b] on numbers. *)
Definition lt (a b : Q) : bool :=
  match a ?= b with Lt => true | _ => false end.

Definition chars (s : string) : list ascii := list_ascii_of_string s.

(** [l] is a prefix of [s]: the rest of [s] after it. *)
Fixpoint strip_prefix (l s : list ascii) : option (list ascii) :=
  match l, s with
  | [], _ => Some s
  | _ :: _, [] => None
  | a :: l', b :: s' => if Ascii.eqb a b then strip_prefix l' s' else None
  end.

(** [String.prototype.includes(sub)]. *)
Fixpoint includes (s sub : list ascii) : bool :=
  match strip_prefix sub s with
  | Some _ => true
  | None => match s with
            | [] => false
            | _ :: s' => includes s' sub
            end
  end.

(** The class [\d]: the ten ASCII digits. *)
Definition is_digit (c : ascii) : bool :=
  let n := nat_of_ascii c in ((48 <=? n) && (n <=? 57))%nat.

Definition digit_value (c : ascii) : Z := Z.of_nat (nat_of_ascii c - 48).

Fixpoint digits_to_Z (acc : Z) (l : list ascii) : Z :=
  match l with
  | [] => acc
  | c :: l' => digits_to_Z (10 * acc + digit_value c) l'
  end.

(** The longest prefix of digits, and what follows it. *)
Fixpoint span_digits (s : list ascii) : list ascii * list ascii :=
  match s with
  | c :: s' =>
      if is_digit c
      then let (ds, rest) := span_digits s' in (c :: ds, rest)
      else ([], s)
  | [] => ([], [])
  end.

(** [parseFloat] on an unsigned decimal without exponent, the only
    strings the routes pass to it: the integer digits, then optionally a
    point and fraction digits; what follows is ignored. *)
Definition parseFloat (s : list ascii) : Q :=
  let (ip, rest) := span_digits s in
  match rest with
  | c :: fr =>
      if Ascii.eqb c "."
      then let (fp, _) := span_digits fr in
           inject_Z (digits_to_Z 0 ip)
           + inject_Z (digits_to_Z 0 fp) / inject_Z (10 ^ Z.of_nat (length fp))
      else inject_Z (digits_to_Z 0 ip)
  | [] => inject_Z (digits_to_Z 0 ip)
  end.

End Js.

(** ** Regular expressions of the settlement notes

    The four patterns of the routes use literals, [\d], [\d+], sequence,
    the greedy optional group [(?:...)?] and one capture group.  The
    matcher is the backtracking one of the language: continuations stand
    for "the rest of the pattern", and a greedy construct retries with
    less when the rest fails. *)

Module Regex.
Import Js.

Inductive regex : Type :=
| Lit (l : list ascii)        (* a literal run of characters *)
| Digit                       (* \d *)
| Digits1                     (* \d+ *)
| Cat (r1 r2 : regex)         (* r1 r2 *)
| Opt (r : regex)             (* (?:r)? *)
| Group (r : regex).          (* (r), capture group 1 *)

(** The result of a successful match: the matched text and group 1. *)
Record MatchResult : Type := mkMatch {
  matched : list ascii;
  group1 : option (list ascii)
}.

Section Matcher.
Context {R : Type}.

(** [\d*], greedy: one more digit first, the continuation here if
    that fails. *)
Fixpoint digits_star (s : list ascii) (k : list ascii -> option R)
  : option R :=
  match s with
  | c :: s' =>
      if is_digit c
      then match digits_star s' k with
           | Some r => Some r
           | None => k s
           end
      else k s
  | [] => k []
  end.

Fixpoint run (r : regex) (s : list ascii) (cap : option (list ascii))
  (k : list ascii -> option (list ascii) -> option R) : option R :=
  match r with
  | Lit l =>
      match strip_prefix l s with
      | Some s' => k s' cap
      | None => None
      end
  | Digit =>
      match s with
      | c :: s' => if is_digit c then k s' cap else None
      | [] => None
      end
  | Digits1 =>
      match s with
      | c :: s' =>
          if is_digit c then digits_star s' (fun s'' => k s'' cap) else None
      | [] => None
      end
  | Cat r1 r2 => run r1 s cap (fun s' cap' => run r2 s' cap' k)
  | Opt r1 =>
      match run r1 s cap k with
      | Some x => Some x
      | None => k s cap
      end
  | Group r1 =>
      run r1 s cap
        (fun s' _ => k s' (Some (firstn (length s - length s') s)))
  end.
End Matcher.

(** A match that starts at the first character of [s]. *)
Definition match_at (r : regex) (s : list ascii) : option MatchResult :=
  run r s None
    (fun rest cap =>
       Some (mkMatch (firstn (length s - length rest) s) cap)).

(** The leftmost match: start positions are tried from left to right. *)
Fixpoint search (r : regex) (s : list ascii) : option MatchResult :=
  match match_at r s with
  | Some m => Some m
  | None => match s with
            | [] => None
            | _ :: s' => search r s'
            end
  end.

(** [str.match(re)] for a pattern without the global flag. *)
Definition String_match (str : string) (re : regex) : option MatchResult :=
  search re (chars str).

(** [(\d+(?:\.\d{2})?)] *)
Definition amount_group : regex :=
  Group (Cat Digits1 (Opt (Cat (Lit (chars ".")) (Cat Digit Digit)))).

(** The shape of the three patterns that end in a literal:
    [before], the amount group, [after]. *)
Definition between (before after : list ascii) : regex :=
  Cat (Lit before) (Cat amount_group (Lit after)).

(** The shape of the pattern that ends with the amount. *)
Definition after_amount (before : list ascii) : regex :=
  Cat (Lit before) amount_group.

(** [/received \$(\d+(?:\.\d{2})?) cash/] *)
Definition re_received_cash : regex :=
  Cat (Lit (chars "received $")) (Cat amount_group (Lit (chars " cash"))).

(** [/cash paid: \$(\d+(?:\.\d{2})?)\)/] *)
Definition re_cash_paid : regex :=
  Cat (Lit (chars "cash paid: $")) (Cat amount_group (Lit (chars ")"))).

(** [/credit settled: \$(\d+(?:\.\d{2})?)/] *)
Definition re_credit_settled : regex :=
  Cat (Lit (chars "credit settled: $")) amount_group.

(** [/paid \$(\d+(?:\.\d{2})?) credit/] *)
Definition re_paid_credit : regex :=
  Cat (Lit (chars "paid $")) (Cat amount_group (Lit (chars " credit"))).

(** [m[1]] of a match array, for [parseFloat]; the group of these
    patterns is never unset in a match (lemma [amount_group_is_set]). *)
Definition group1_text (m : MatchResult) : list ascii :=
  match group1 m with
  | Some g => g
  | None => []
  end.

(** Truthiness of [m?.[1]]: the group is set and not the empty string. *)
Definition group1_truthy (m : option MatchResult) : bool :=
  match m with
  | Some {| group1 := Some (_ :: _) |} => true
  | _ => false
  end.

End Regex.

(** ** Data model (the rows the routes read; time stamps and creator
    attribution play no part in the figures and are left out) *)

Inductive TransactionType : Type := BuyIn | Cashout.
Inductive PaymentMethod : Type := Cash | Electronic | Credit.

Definition TransactionType_eqb (a b : TransactionType) : bool :=
  match a, b with
  | BuyIn, BuyIn | Cashout, Cashout => true
  | _, _ => false
  end.

Definition PaymentMethod_eqb (a b : PaymentMethod) : bool :=
  match a, b with
  | Cash, Cash | Electronic, Electronic | Credit, Credit => true
  | _, _ => false
  end.

Module PlayerTransaction.
Record t : Type := mk {
  id : string;
  playerName : string;
  type : TransactionType;
  amount : Q;
  paymentMethod : PaymentMethod;
  notes : option string;
  isPaid : bool
}.
End PlayerTransaction.

Module DealerDown.
Record t : Type := mk {
  id : string;
  dealerName : string;
  tips : Q;
  rake : Q;
  tipsPaid : bool;
  rakeClaimed : bool;
  gameSessionId : string
}.
End DealerDown.

Inductive ExpenseCategory : Type := Food | Drinks | Other.
Inductive ExpensePaymentMethod : Type := PaidCash | PaidElectronic.

Module Expense.
Record t : Type := mk {
  id : string;
  description : string;
  amount : Q;
  category : ExpenseCategory;
  paymentMethod : ExpensePaymentMethod;
  paidOut : bool;
  notes : option string
}.
End Expense.

(** A session as [findFirst] returns it with its three relations
    included. *)
Module GameSession.
Record t : Type := mk {
  id : string;
  userId : string;
  totalRake : Q;
  playerTransactions : list PlayerTransaction.t;
  dealerDowns : list DealerDown.t;
  expenses : list Expense.t
}.
End GameSession.

(** ** GET /api/game/:sessionId/summary *)

Module Summary.
Import Js Regex.

Definition is_buy_in (t : PlayerTransaction.t) : bool :=
  TransactionType_eqb (PlayerTransaction.type t) BuyIn.
Definition is_cashout (t : PlayerTransaction.t) : bool :=
  TransactionType_eqb (PlayerTransaction.type t) Cashout.
Definition pays_with (m : PaymentMethod) (t : PlayerTransaction.t) : bool :=
  PaymentMethod_eqb (PlayerTransaction.paymentMethod t) m.

(** Truthiness of [t.notes]: neither null nor the empty string. *)
Definition truthy_notes (n : option string) : bool :=
  match n with
  | Some (String _ _) => true
  | _ => false
  end.

(** [t.notes?.includes(sub)], read as a condition. *)
Definition notes_include (n : option string) (sub : string) : bool :=
  match n with
  | Some s => includes (chars s) (chars sub)
  | None => false
  end.

(** [t.notes?.match(re)]. *)
Definition notes_match (n : option string) (re : regex) : option MatchResult :=
  match n with
  | Some s => String_match s re
  | None => None
  end.

Definition totalBuyIns (session : GameSession.t) : Q :=
  reduce (fun sum t => sum + PlayerTransaction.amount t) 0
    (filter is_buy_in (GameSession.playerTransactions session)).

Definition totalCashouts (session : GameSession.t) : Q :=
  reduce (fun sum t => sum + PlayerTransaction.amount t) 0
    (filter is_cashout (GameSession.playerTransactions session)).

Definition totalTips (session : GameSession.t) : Q :=
  reduce (fun sum d => sum + DealerDown.tips d) 0
    (GameSession.dealerDowns session).

Definition totalRake (session : GameSession.t) : Q :=
  if gt (GameSession.totalRake session) 0
  then GameSession.totalRake session
  else reduce (fun sum d => sum + DealerDown.rake d) 0
         (GameSession.dealerDowns session).

Definition totalExpenses (session : GameSession.t) : Q :=
  reduce (fun sum e => sum + Expense.amount e) 0
    (GameSession.expenses session).

Definition totalPaidTips (session : GameSession.t) : Q :=
  reduce (fun sum d => sum + DealerDown.tips d) 0
    (filter DealerDown.tipsPaid (GameSession.dealerDowns session)).

Definition netProfit (session : GameSession.t) : Q :=
  totalRake session - totalExpenses session.

Definition cashBuyIns (session : GameSession.t) : Q :=
  reduce (fun sum t => sum + PlayerTransaction.amount t) 0
    (filter (fun t => is_buy_in t && pays_with Cash t)
       (GameSession.playerTransactions session)).

(** The callback of the [cashCashouts] reduction. *)
Definition cashCashoutsStep (sum : Q) (t : PlayerTransaction.t) : Q :=
  if truthy_notes (PlayerTransaction.notes t)
  then
    match notes_match (PlayerTransaction.notes t) re_received_cash with
    | Some newMatch => sum + parseFloat (group1_text newMatch)
    | None =>
        match notes_match (PlayerTransaction.notes t) re_cash_paid with
        | Some oldMatch => sum + parseFloat (group1_text oldMatch)
        | None => sum + PlayerTransaction.amount t
        end
    end
  else sum + PlayerTransaction.amount t.

Definition cashCashouts (session : GameSession.t) : Q :=
  reduce cashCashoutsStep 0
    (filter (fun t => is_cashout t && pays_with Cash t)
       (GameSession.playerTransactions session)).

Definition mentions_credit_settlement (t : PlayerTransaction.t) : bool :=
  is_cashout t
  && (notes_include (PlayerTransaction.notes t) "credit settled:"
      || notes_include (PlayerTransaction.notes t) "paid $").

(** The callback of the [autoSettledCredit] reduction. *)
Definition autoSettledCreditStep (sum : Q) (t : PlayerTransaction.t) : Q :=
  match notes_match (PlayerTransaction.notes t) re_credit_settled with
  | Some oldMatch => sum + parseFloat (group1_text oldMatch)
  | None =>
      sum + match notes_match (PlayerTransaction.notes t) re_paid_credit with
            | Some newMatch => parseFloat (group1_text newMatch)
            | None => 0
            end
  end.

Definition autoSettledCredit (session : GameSession.t) : Q :=
  reduce autoSettledCreditStep 0
    (filter mentions_credit_settlement
       (GameSession.playerTransactions session)).

Definition paidCreditBuyIns (session : GameSession.t) : Q :=
  reduce (fun sum t => sum + PlayerTransaction.amount t) 0
    (filter (fun t => is_buy_in t && pays_with Credit t
                      && Bool.eqb (PlayerTransaction.isPaid t) true)
       (GameSession.playerTransactions session)).

Definition manuallyPaidCredit (session : GameSession.t) : Q :=
  Math_max 0 (paidCreditBuyIns session - autoSettledCredit session).

Definition tillBalance (session : GameSession.t) : Q :=
  cashBuyIns session + manuallyPaidCredit session - cashCashouts session
  - totalPaidTips session - totalExpenses session.

(** [playerCreditMap]: a [Map] from player name to the two running
    totals, kept in insertion order as [Map.prototype.forEach] visits
    it. *)
Record CreditEntry : Type := mkEntry { buyIns : Q; cashouts : Q }.

Definition CreditMap : Type := list (string * CreditEntry).

Fixpoint Map_get (m : CreditMap) (key : string) : option CreditEntry :=
  match m with
  | [] => None
  | (k, v) :: m' => if String.eqb k key then Some v else Map_get m' key
  end.

(** [Map.prototype.set]: an existing key keeps its place. *)
Fixpoint Map_set (m : CreditMap) (key : string) (v : CreditEntry) : CreditMap :=
  match m with
  | [] => [(key, v)]
  | (k, v0) :: m' =>
      if String.eqb k key then (k, v) :: m' else (k, v0) :: Map_set m' key v
  end.

(** The body of [session.playerTransactions.forEach]. *)
Definition creditMapStep (m : CreditMap) (t : PlayerTransaction.t) : CreditMap :=
  if pays_with Credit t
  then
    let existing :=
      match Map_get m (PlayerTransaction.playerName t) with
      | Some e => e
      | None => mkEntry 0 0
      end in
    let existing' :=
      if is_buy_in t && negb (PlayerTransaction.isPaid t)
      then mkEntry (buyIns existing + PlayerTransaction.amount t)
                   (cashouts existing)
      else if is_cashout t
      then mkEntry (buyIns existing)
                   (cashouts existing + PlayerTransaction.amount t)
      else existing in
    Map_set m (PlayerTransaction.playerName t) existing'
  else m.

Definition playerCreditMap (session : GameSession.t) : CreditMap :=
  fold_left creditMapStep (GameSession.playerTransactions session) [].

Definition creditBalance (session : GameSession.t) : Q :=
  fold_left
    (fun creditBalance entry =>
       let netOwed := Math_max 0 (buyIns (snd entry) - cashouts (snd entry)) in
       creditBalance + netOwed)
    (playerCreditMap session) 0.

(** [new Set(names)]: the distinct names, in order of first
    appearance. *)
Definition Set_add (s : list string) (x : string) : list string :=
  if existsb (String.eqb x) s then s else s ++ [x].

Definition uniquePlayers (session : GameSession.t) : list string :=
  fold_left Set_add
    (map PlayerTransaction.playerName (GameSession.playerTransactions session))
    [].

Definition playerCount (session : GameSession.t) : nat :=
  length (uniquePlayers session).

(** The figures of the answer (its [session] part repeats the
    session). *)
Record GameSummary : Type := mkSummary {
  s_totalBuyIns : Q;
  s_totalCashouts : Q;
  s_totalTips : Q;
  s_totalRake : Q;
  s_totalExpenses : Q;
  s_netProfit : Q;
  s_tillBalance : Q;
  s_playerCount : nat;
  s_creditBalance : Q
}.

(** The body of the route once the session is found. *)
Definition summary (session : GameSession.t) : GameSummary :=
  {| s_totalBuyIns := totalBuyIns session;
     s_totalCashouts := totalCashouts session;
     s_totalTips := totalTips session;
     s_totalRake := totalRake session;
     s_totalExpenses := totalExpenses session;
     s_netProfit := netProfit session;
     s_tillBalance := tillBalance session;
     s_playerCount := playerCount session;
     s_creditBalance := creditBalance session |}.

End Summary.

(** ** Values of the language that reach the analyzer *)

Module JsValue.
Import Js.
Local Open Scope string_scope.

(** A value [JSON.parse] returns.  An object is the list of its own
    properties (each key once). *)
Inductive json : Type :=
| JNull
| JBool (b : bool)
| JNumber (q : Q)
| JString (s : string)
| JArray (l : list json)
| JObject (fields : list (string * json)).

(** A computation that may throw (a [TypeError] here). *)
Inductive Result (A : Type) : Type :=
| Ok (a : A)
| Throw.
Arguments Ok {A} a.
Arguments Throw {A}.

Definition bind {A B : Type} (r : Result A) (f : A -> Result B) : Result B :=
  match r with
  | Ok a => f a
  | Throw => Throw
  end.

Notation "x <- r ;; k" := (bind r (fun x => k))
  (at level 61, r at next level, right associativity).

(** [arr.map(f)] when [f] may throw: left to right, the first throw
    ends it. *)
Fixpoint mapM {A B : Type} (f : A -> Result B) (l : list A) : Result (list B) :=
  match l with
  | [] => Ok []
  | x :: l' => y <- f x ;; ys <- mapM f l' ;; Ok (y :: ys)
  end.

Fixpoint lookup (key : string) (fields : list (string * json)) : option json :=
  match fields with
  | [] => None
  | (k, v) :: fields' => if String.eqb k key then Some v else lookup key fields'
  end.

(** [v.key] for the property names the analyzer reads (none of them
    is a property of a string, a number, a boolean, an array or of
    [Object.prototype]): [None] is [undefined]; reading a property of
    [null] throws. *)
Definition prop (v : json) (key : string) : Result (option json) :=
  match v with
  | JNull => Throw
  | JObject fields => Ok (lookup key fields)
  | _ => Ok None
  end.

(** Truthiness; [None] is [undefined]. *)
Definition truthy (v : option json) : bool :=
  match v with
  | None | Some JNull | Some (JBool false) | Some (JString "") => false
  | Some (JNumber q) => negb (Qeq_bool q 0)
  | Some _ => true
  end.

(** [v || d]. *)
Definition or_else (v : option json) (d : json) : json :=
  match v with
  | Some x => if truthy v then x else d
  | None => d
  end.

(** *** Numbers as text *)

Definition digits_of_pos (p : positive) : string :=
  DecimalString.NilEmpty.string_of_uint (Pos.to_uint p).

Definition digits_of_nat (n : nat) : string :=
  DecimalString.NilZero.string_of_uint (Nat.to_uint n).

Fixpoint zeros (n : nat) : string :=
  match n with
  | O => ""
  | S n' => String "0" (zeros n')
  end.

(** How often [d] divides [p], and the quotient that is left. *)
Fixpoint strip_factor (fuel : nat) (d : Z) (p : Z) (count : nat) : nat * Z :=
  match fuel with
  | O => (count, p)
  | S fuel' =>
      if (p mod d =? 0)%Z
      then strip_factor fuel' d (p / d)%Z (S count)
      else (count, p)
  end.

(** A positive rational as [s * 10^(n - k)] with [s] a positive integer
    of [k] digits that does not end in zero: the pair of the digits of
    [s] and [n].  [None] when the rational is no finite decimal (such
    a rational is the value of no number of the language). *)
Definition decimal_digits (x : Q) : option (string * Z) :=
  let r := Qred x in
  let den := Zpos (Qden r) in
  let fuel := S (Pos.size_nat (Qden r)) in
  let (a, d2) := strip_factor fuel 2 den O in
  let (b, d5) := strip_factor fuel 5 d2 O in
  if (d5 =? 1)%Z
  then
    let e := Nat.max a b in
    let scaled := (Qnum r * 10 ^ Z.of_nat e / den)%Z in
    let (z, s) := strip_factor (S (Z.to_nat (Z.log2 scaled))) 10 scaled O in
    match s with
    | Zpos p =>
        let ds := digits_of_pos p in
        Some (ds, (Z.of_nat (String.length ds) - Z.of_nat e + Z.of_nat z)%Z)
    | _ => None
    end
  else None.

(** [Number::toString] in radix 10, on the exact value. *)
Definition Number_toString (q : Q) : string :=
  if Qeq_bool q 0 then "0"
  else
    let sign := if lt q 0 then "-" else "" in
    match decimal_digits (Qabs q) with
    | None => "NaN"
    | Some (ds, n) =>
        let k := Z.of_nat (String.length ds) in
        sign ++
        (if ((k <=? n) && (n <=? 21))%Z
         then ds ++ zeros (Z.to_nat (n - k))
         else if ((0 <? n) && (n <=? 21))%Z
         then substring 0 (Z.to_nat n) ds ++ "."
              ++ substring (Z.to_nat n) (Z.to_nat (k - n)) ds
         else if ((-6 <? n) && (n <=? 0))%Z
         then "0." ++ zeros (Z.to_nat (- n)) ++ ds
         else
           let e := (n - 1)%Z in
           let mantissa :=
             if (k =? 1)%Z then ds
             else substring 0 1 ds ++ "."
                  ++ substring 1 (Z.to_nat (k - 1)) ds in
           mantissa ++ "e" ++ (if (0 <=? e)%Z then "+" else "-")
           ++ digits_of_nat (Z.to_nat (Z.abs e)))
    end.

(** [x.toFixed(2)]: the integer [n] with [n / 100] nearest to [x], the
    larger one on a tie, written with two fraction digits. *)
Definition toFixed2 (x : Q) : string :=
  let sign := if lt x 0 then "-" else "" in
  let a := Qabs x in
  if Qle_bool (inject_Z (10 ^ 21)) a then Number_toString x
  else
    let n := Qfloor (a * 100 + (1 # 2)) in
    let m := digits_of_nat (Z.to_nat n) in
    let m := zeros (3 - String.length m) ++ m in
    let k := String.length m in
    sign ++ substring 0 (k - 2) m ++ "." ++ substring (k - 2) 2 m.

(** *** [String(v)] *)

Definition has_own (key : string) (fields : list (string * json)) : bool :=
  existsb (fun kv => String.eqb (fst kv) key) fields.

(** [String(v)]: an array is its elements joined with commas, [null]
    elements as the empty string; a plain object is ["[object Object]"]
    unless an own [toString] property (no function, coming from JSON)
    hides the inherited method, in which case the conversion throws. *)
Fixpoint ToString (v : json) : Result string :=
  match v with
  | JNull => Ok "null"
  | JBool true => Ok "true"
  | JBool false => Ok "false"
  | JNumber q => Ok (Number_toString q)
  | JString s => Ok s
  | JArray l =>
      (fix join (l : list json) : Result string :=
         match l with
         | [] => Ok ""
         | x :: rest =>
             sx <- match x with JNull => Ok "" | _ => ToString x end ;;
             match rest with
             | [] => Ok sx
             | _ :: _ => sr <- join rest ;; Ok (sx ++ "," ++ sr)
             end
         end) l
  | JObject fields =>
      if has_own "toString" fields then Throw else Ok "[object Object]"
  end.

End JsValue.

(** ** POST /api/ai/analyze-till *)

Module Analyzer.
Import Js Regex JsValue.
Local Open Scope string_scope.

Definition is_buy_in := Summary.is_buy_in.
Definition is_cashout := Summary.is_cashout.
Definition pays_with := Summary.pays_with.
Definition truthy_notes := Summary.truthy_notes.
Definition notes_include := Summary.notes_include.
Definition notes_match := Summary.notes_match.

(** [m[1]] where [m] may be null. *)
Definition match_group1 (m : option MatchResult) : list ascii :=
  match m with
  | Some r => group1_text r
  | None => []
  end.

(** *** The expected till, computed by the route itself *)

Definition cashBuyIns (session : GameSession.t) : Q :=
  reduce (fun sum t => sum + PlayerTransaction.amount t) 0
    (filter (fun t => is_buy_in t && pays_with Cash t)
       (GameSession.playerTransactions session)).

Definition cashCashoutsStep (sum : Q) (t : PlayerTransaction.t) : Q :=
  if truthy_notes (PlayerTransaction.notes t)
  then
    let newMatch := notes_match (PlayerTransaction.notes t) re_received_cash in
    if group1_truthy newMatch then sum + parseFloat (match_group1 newMatch)
    else
      let oldMatch := notes_match (PlayerTransaction.notes t) re_cash_paid in
      if group1_truthy oldMatch then sum + parseFloat (match_group1 oldMatch)
      else sum + PlayerTransaction.amount t
  else sum + PlayerTransaction.amount t.

Definition cashCashouts (session : GameSession.t) : Q :=
  reduce cashCashoutsStep 0
    (filter (fun t => is_cashout t && pays_with Cash t)
       (GameSession.playerTransactions session)).

Definition mentions_credit_settlement (t : PlayerTransaction.t) : bool :=
  is_cashout t
  && (notes_include (PlayerTransaction.notes t) "credit settled:"
      || notes_include (PlayerTransaction.notes t) "paid $").

Definition autoSettledCreditStep (sum : Q) (t : PlayerTransaction.t) : Q :=
  let oldMatch := notes_match (PlayerTransaction.notes t) re_credit_settled in
  if group1_truthy oldMatch then sum + parseFloat (match_group1 oldMatch)
  else
    let newMatch := notes_match (PlayerTransaction.notes t) re_paid_credit in
    sum + (if group1_truthy newMatch then parseFloat (match_group1 newMatch)
           else 0).

Definition autoSettledCredit (session : GameSession.t) : Q :=
  reduce autoSettledCreditStep 0
    (filter mentions_credit_settlement
       (GameSession.playerTransactions session)).

Definition paidCreditBuyIns (session : GameSession.t) : Q :=
  reduce (fun sum t => sum + PlayerTransaction.amount t) 0
    (filter (fun t => is_buy_in t && pays_with Credit t
                      && Bool.eqb (PlayerTransaction.isPaid t) true)
       (GameSession.playerTransactions session)).

Definition manuallyPaidCredit (session : GameSession.t) : Q :=
  Math_max 0 (paidCreditBuyIns session - autoSettledCredit session).

Definition totalPaidTips (session : GameSession.t) : Q :=
  reduce (fun sum d => sum + DealerDown.tips d) 0
    (filter DealerDown.tipsPaid (GameSession.dealerDowns session)).

Definition totalClaimedRake (session : GameSession.t) : Q :=
  reduce (fun sum d => sum + DealerDown.rake d) 0
    (filter DealerDown.rakeClaimed (GameSession.dealerDowns session)).

Definition totalExpenses (session : GameSession.t) : Q :=
  reduce (fun sum e => sum + Expense.amount e) 0
    (GameSession.expenses session).

Definition expectedTill (session : GameSession.t) : Q :=
  cashBuyIns session + manuallyPaidCredit session - cashCashouts session
  - totalPaidTips session - totalClaimedRake session - totalExpenses session.

(** *** The response contract *)

Inductive Likelihood : Type := High | Medium | Low.

Record TillAnalysisCause : Type := mkCause {
  description : string;
  likelihood : Likelihood;
  amount : option Q;                       (* absent when [None] *)
  transactionIds : option (list json)      (* absent when [None] *)
}.

Record TransactionToReview : Type := mkReview {
  r_id : string;
  r_playerName : string;
  r_type : string;
  r_amount : Q;
  r_paymentMethod : string;
  r_notes : json;
  r_reason : string
}.

Record AnalyzeTillResponse : Type := mkResponse {
  discrepancyAmount : Q;
  expectedTill_ : Q;
  actualTill : Q;
  summary : string;
  possibleCauses : list TillAnalysisCause;
  transactionsToReview : list TransactionToReview;
  recommendations : list string
}.

(** What the route answers: the body with status 200, or an error
    body [{error}] with its status (the [details] text of an error is
    left out). *)
Inductive HttpResponse : Type :=
| Json200 (body : AnalyzeTillResponse)
| JsonError (status : nat) (error : string).

(** *** Normalization of the collaborator's parsed answer *)

(** [String(v || fallback)]. *)
Definition string_or (v : option json) (fallback : string) : Result string :=
  ToString (or_else v (JString fallback)).

(** [["high", "medium", "low"].includes(v) ? v : "medium"]. *)
Definition normalizeLikelihood (v : option json) : Likelihood :=
  match v with
  | Some (JString s) =>
      if String.eqb s "high" then High
      else if String.eqb s "low" then Low
      else Medium
  | _ => Medium
  end.

(** [typeof v === "number" ? v : undefined]. *)
Definition number_or_absent (v : option json) : option Q :=
  match v with
  | Some (JNumber q) => Some q
  | _ => None
  end.

(** [Array.isArray(v) ? v : undefined]. *)
Definition array_or_absent (v : option json) : option (list json) :=
  match v with
  | Some (JArray l) => Some l
  | _ => None
  end.

(** The callback of [possibleCauses.map]. *)
Definition normalizeCause (cause : json) : Result TillAnalysisCause :=
  d <- prop cause "description" ;;
  description <- string_or d "" ;;
  l <- prop cause "likelihood" ;;
  a <- prop cause "amount" ;;
  ids <- prop cause "transactionIds" ;;
  Ok (mkCause description (normalizeLikelihood l) (number_or_absent a)
        (array_or_absent ids)).

(** The callback of [transactionsToReview.map]. *)
Definition normalizeReview (t : json) : Result TransactionToReview :=
  i <- prop t "id" ;;
  id <- string_or i "" ;;
  p <- prop t "playerName" ;;
  playerName <- string_or p "Unknown" ;;
  ty <- prop t "type" ;;
  type <- string_or ty "" ;;
  a <- prop t "amount" ;;
  pm <- prop t "paymentMethod" ;;
  paymentMethod <- string_or pm "" ;;
  n <- prop t "notes" ;;
  r <- prop t "reason" ;;
  reason <- string_or r "" ;;
  Ok (mkReview id playerName type
        (match number_or_absent a with Some q => q | None => 0%Q end)
        paymentMethod (or_else n JNull) reason).

(** [(v || []).map(f)]: a truthy value that is no array has no [map]
    method, and calling it throws. *)
Definition map_or_empty {A : Type} (v : option json) (f : json -> Result A)
  : Result (list A) :=
  match or_else v (JArray []) with
  | JArray l => mapM f l
  | _ => Throw
  end.

Definition default_recommendations : list string :=
  ["Review all transactions for accuracy"; "Double-check cash counts"].

Definition normalizeRecommendations (v : option json) : Result (list string) :=
  match v with
  | Some (JArray l) => mapM ToString l
  | _ => Ok default_recommendations
  end.

Definition fallback_summary (discrepancyAmount : Q) : string :=
  "Till is " ++ (if gt discrepancyAmount 0 then "over" else "short")
  ++ " by $" ++ toFixed2 (Math_abs discrepancyAmount).

(** The statements of the [try] block after [JSON.parse]. *)
Definition normalize (discrepancyAmount expectedTill actualTillAmount : Q)
  (aiResponse : json) : Result AnalyzeTillResponse :=
  pc <- prop aiResponse "possibleCauses" ;;
  possibleCauses <- map_or_empty pc normalizeCause ;;
  tr <- prop aiResponse "transactionsToReview" ;;
  transactionsToReview <- map_or_empty tr normalizeReview ;;
  rc <- prop aiResponse "recommendations" ;;
  recommendations <- normalizeRecommendations rc ;;
  sm <- prop aiResponse "summary" ;;
  summary <- string_or sm (fallback_summary discrepancyAmount) ;;
  Ok (mkResponse discrepancyAmount expectedTill actualTillAmount summary
        possibleCauses transactionsToReview recommendations).

(** *** The route as a program that may call the collaborator *)

(** What the route hands to the collaborator: the facts its two
    prompts are written from (the wording of the prompts is not
    modelled). *)
Record CollaboratorRequest : Type := mkRequest {
  q_session : GameSession.t;
  q_expectedTill : Q;
  q_actualTill : Q;
  q_discrepancy : Q;
  q_cashBuyIns : Q;
  q_manuallyPaidCredit : Q;
  q_autoSettledCredit : Q;
  q_cashCashouts : Q;
  q_totalPaidTips : Q;
  q_totalClaimedRake : Q;
  q_totalExpenses : Q
}.

(** What comes back, as the [try] block sees it. *)
Inductive CollaboratorReply : Type :=
| CallFails                 (* the request throws *)
| NoContent                 (* no message content, or the empty string *)
| InvalidJson               (* [JSON.parse] throws *)
| Parsed (aiResponse : json).

Inductive Prog (A : Type) : Type :=
| Ret (a : A)
| CallCollaborator (request : CollaboratorRequest)
    (k : CollaboratorReply -> Prog A).
Arguments Ret {A} a.
Arguments CallCollaborator {A} request k.

(** Running a program against a collaborator: the answer and the
    number of calls made. *)
Fixpoint exec {A : Type} (collaborator : CollaboratorRequest -> CollaboratorReply)
  (p : Prog A) : A * nat :=
  match p with
  | Ret a => (a, O)
  | CallCollaborator request k =>
      let (a, n) := exec collaborator (k (collaborator request)) in (a, S n)
  end.

Definition analysis_failed : HttpResponse :=
  JsonError 500 "Failed to analyze till discrepancy. Please try again.".

(** Truthiness of [process.env.OPENAI_API_KEY]. *)
Definition configured (openaiApiKey : option string) : bool :=
  match openaiApiKey with
  | Some (String _ _) => true
  | _ => false
  end.

(** The handler.  [openaiApiKey] is the environment variable and
    [found] the result of the session query (null when the session is
    absent or the user has no access to it). *)
Definition analyzeTill (openaiApiKey : option string)
  (found : option GameSession.t) (actualTillAmount : Q) : Prog HttpResponse :=
  if negb (configured openaiApiKey)
  then Ret (JsonError 500
              "AI analysis is not configured. Please contact support.")
  else
    match found with
    | None => Ret (JsonError 404 "Session not found")
    | Some session =>
        let expectedTill := expectedTill session in
        let discrepancyAmount := actualTillAmount - expectedTill in
        if lt (Math_abs discrepancyAmount) 1
        then
          Ret (Json200
                 (mkResponse 0 expectedTill actualTillAmount
                    "Your till matches the expected amount. No discrepancy detected."
                    [] []
                    ["Your records appear to be accurate. Keep up the good work!"]))
        else
          CallCollaborator
            (mkRequest session expectedTill actualTillAmount discrepancyAmount
               (cashBuyIns session) (manuallyPaidCredit session)
               (autoSettledCredit session) (cashCashouts session)
               (totalPaidTips session) (totalClaimedRake session)
               (totalExpenses session))
            (fun reply =>
               match reply with
               | Parsed aiResponse =>
                   match normalize discrepancyAmount expectedTill
                           actualTillAmount aiResponse with
                   | Ok response => Ret (Json200 response)
                   | Throw => Ret analysis_failed
                   end
               | _ => Ret analysis_failed
               end)
    end.

End Analyzer.

(** ** POST /api/dealers/claim-tips-by-dealer *)

Module Dealers.
Import Js.
Local Open Scope string_scope.

Record SessionRow : Type := mkSessionRow {
  sessionId : string;
  ownerId : string
}.

(** The two tables the route touches. *)
Record Database : Type := mkDatabase {
  gameSessions : list SessionRow;
  dealerDowns : list DealerDown.t
}.

Record ClaimTipsByDealerRequest : Type := mkClaimRequest {
  dealerName : string;
  gameSessionId : string;
  percentage : option Q
}.

Record ClaimTipsByDealerResponse : Type := mkClaimResponse {
  updatedCount : nat;
  totalTipsClaimed : Q;
  ownerCut : Q;
  dealerPayout : Q
}.

Inductive HttpResponse : Type :=
| Json200 (body : ClaimTipsByDealerResponse)
| JsonError (status : nat) (error : string).

(** The [where] clause of both queries:
    [{gameSessionId, dealerName, tipsPaid: false}]. *)
Definition unpaid_of (data : ClaimTipsByDealerRequest) (d : DealerDown.t) : bool :=
  String.eqb (DealerDown.gameSessionId d) (gameSessionId data)
  && String.eqb (DealerDown.dealerName d) (dealerName data)
  && Bool.eqb (DealerDown.tipsPaid d) false.

Definition set_tipsPaid (d : DealerDown.t) : DealerDown.t :=
  DealerDown.mk (DealerDown.id d) (DealerDown.dealerName d) (DealerDown.tips d)
    (DealerDown.rake d) true (DealerDown.rakeClaimed d)
    (DealerDown.gameSessionId d).

(** [updateMany({where, data: {tipsPaid: true}})]: the new table and
    the count of rows updated. *)
Definition updateMany_tipsPaid (data : ClaimTipsByDealerRequest)
  (rows : list DealerDown.t) : list DealerDown.t * nat :=
  (map (fun d => if unpaid_of data d then set_tipsPaid d else d) rows,
   length (filter (unpaid_of data) rows)).

(** The handler: the answer and the database it leaves. *)
Definition claimTipsByDealer (db : Database) (user : string)
  (data : ClaimTipsByDealerRequest) : HttpResponse * Database :=
  let percentage :=
    match percentage data with Some p => p | None => 100 end in
  match find (fun s => String.eqb (sessionId s) (gameSessionId data))
          (gameSessions db) with
  | None =>
      (JsonError 404 "Game session does not exist. It may have been deleted.",
       db)
  | Some _ =>
      match find (fun s => String.eqb (sessionId s) (gameSessionId data)
                           && String.eqb (ownerId s) user)
              (gameSessions db) with
      | None =>
          (JsonError 403
             "You don't have access to this game session. You may be logged in with a different account.",
           db)
      | Some _ =>
          let unpaidDowns := filter (unpaid_of data) (dealerDowns db) in
          if (length unpaidDowns =? 0)%nat
          then (Json200 (mkClaimResponse 0 0 0 0), db)
          else
            let totalTips :=
              reduce (fun sum d => sum + DealerDown.tips d) 0 unpaidDowns in
            let dealerPayout := (totalTips * percentage) / 100 in
            let ownerCut := totalTips - dealerPayout in
            let (rows, count) := updateMany_tipsPaid data (dealerDowns db) in
            (Json200 (mkClaimResponse count totalTips ownerCut dealerPayout),
             mkDatabase (gameSessions db) rows)
      end
  end.

End Dealers.

(** ** The words of the specification

    Sums "over all ..." and "over ... with ...", and the shape of an
    amount inside a settlement note. *)

Module Spec.
Import Js.

(** The sum of [f] over a list. *)
Fixpoint total {A : Type} (f : A -> Q) (l : list A) : Q :=
  match l with
  | [] => 0
  | x :: l' => f x + total f l'
  end.

(** The sum of [f] over the elements that satisfy [p]. *)
Definition total_if {A : Type} (p : A -> bool) (f : A -> Q) (l : list A) : Q :=
  total (fun x => if p x then f x else 0) l.

Definition all_digits (ds : list ascii) : Prop :=
  Forall (fun c => is_digit c = true) ds.

(** An amount as the routes read it: one or more digits, then either
    nothing or a point and exactly two digits. *)
Definition is_amount (a : list ascii) : Prop :=
  exists ds, ds <> [] /\ all_digits ds /\
    (a = ds \/
     exists d1 d2, is_digit d1 = true /\ is_digit d2 = true /\
                   a = ds ++ ["."%char; d1; d2]).

(** [before ++ amount ++ after] occurs in the note [n], at the position
    that follows [pre]. *)
Definition occurs_at (before after n pre a : list ascii) : Prop :=
  is_amount a /\ exists post, n = pre ++ before ++ a ++ after ++ post.

Definition occurs (before after n : list ascii) : Prop :=
  exists pre a, occurs_at before after n pre a.

(** The occurrence at [pre] is the leftmost one. *)
Definition first_occurrence (before after n pre a : list ascii) : Prop :=
  occurs_at before after n pre a /\
  forall pre' a', occurs_at before after n pre' a' ->
                  (length pre <= length pre')%nat.

(** A literal that cannot be taken for the end of an amount: it
    starts with a character that is neither a digit nor the point. *)
Definition ends_amount (after : list ascii) : Prop :=
  exists h after', after = h :: after' /\ is_digit h = false /\ h <> "."%char.

(** The cash a cash cashout took out of the till, read from its
    notes: the amount of the leftmost "received $<amount> cash";
    without one, the amount of the leftmost "cash paid: $<amount>)";
    without either, the amount of the transaction. *)
Inductive cash_equivalent (t : PlayerTransaction.t) : Q -> Prop :=
| CE_received n pre a :
    PlayerTransaction.notes t = Some n ->
    first_occurrence (chars "received $") (chars " cash") (chars n) pre a ->
    cash_equivalent t (parseFloat a)
| CE_cash_paid n pre a :
    PlayerTransaction.notes t = Some n ->
    ~ occurs (chars "received $") (chars " cash") (chars n) ->
    first_occurrence (chars "cash paid: $") (chars ")") (chars n) pre a ->
    cash_equivalent t (parseFloat a)
| CE_no_notes :
    PlayerTransaction.notes t = None ->
    cash_equivalent t (PlayerTransaction.amount t)
| CE_nominal n :
    PlayerTransaction.notes t = Some n ->
    ~ occurs (chars "received $") (chars " cash") (chars n) ->
    ~ occurs (chars "cash paid: $") (chars ")") (chars n) ->
    cash_equivalent t (PlayerTransaction.amount t).

(** The cash-equivalent contribution of one cash cashout, and the
    credit one cashout settled, as the reductions add them. *)
Definition cashEquivalent (t : PlayerTransaction.t) : Q :=
  Summary.cashCashoutsStep 0 t.

Definition settledCredit (t : PlayerTransaction.t) : Q :=
  Summary.autoSettledCreditStep 0 t.

(** The longest amount [s] starts with: all the digits at its head,
    and the point and two digits after them when they are there. *)
Definition longest_amount (s : list ascii) : option (list ascii) :=
  match span_digits s with
  | ([], _) => None
  | (ds, c :: d1 :: d2 :: _) =>
      if Ascii.eqb c "." && is_digit d1 && is_digit d2
      then Some (ds ++ [c; d1; d2])
      else Some ds
  | (ds, _) => Some ds
  end.

(** The leftmost place where [before] and an amount stand, and the
    longest amount at that place. *)
Definition first_longest_occurrence (before n pre a : list ascii) : Prop :=
  occurs_at before [] n pre a /\
  (forall pre' a', occurs_at before [] n pre' a' ->
                   (length pre <= length pre')%nat) /\
  (forall a', occurs_at before [] n pre a' -> (length a' <= length a)%nat).

(** The credit a cashout settled, read from its notes: the amount
    that follows the leftmost "credit settled: $"; without one, the
    amount of the leftmost "paid $<amount> credit"; without either,
    nothing. *)
Inductive credit_settled (t : PlayerTransaction.t) : Q -> Prop :=
| CS_settled n pre a :
    PlayerTransaction.notes t = Some n ->
    first_longest_occurrence (chars "credit settled: $") (chars n) pre a ->
    credit_settled t (parseFloat a)
| CS_paid n pre a :
    PlayerTransaction.notes t = Some n ->
    ~ occurs (chars "credit settled: $") [] (chars n) ->
    first_occurrence (chars "paid $") (chars " credit") (chars n) pre a ->
    credit_settled t (parseFloat a)
| CS_no_notes :
    PlayerTransaction.notes t = None ->
    credit_settled t 0
| CS_nothing n :
    PlayerTransaction.notes t = Some n ->
    ~ occurs (chars "credit settled: $") [] (chars n) ->
    ~ occurs (chars "paid $") (chars " credit") (chars n) ->
    credit_settled t 0.

(** Credit per player: what [p] bought in on credit and has not
    paid, what [p] cashed out on credit, and what [p] owes. *)
Definition unpaid_credit_buy_ins (p : string) (txs : list PlayerTransaction.t) : Q :=
  total_if (fun t => Summary.pays_with Credit t && Summary.is_buy_in t
                     && negb (PlayerTransaction.isPaid t)
                     && String.eqb (PlayerTransaction.playerName t) p)
    PlayerTransaction.amount txs.

Definition credit_cashouts (p : string) (txs : list PlayerTransaction.t) : Q :=
  total_if (fun t => Summary.pays_with Credit t && Summary.is_cashout t
                     && String.eqb (PlayerTransaction.playerName t) p)
    PlayerTransaction.amount txs.

Definition net_credit (p : string) (txs : list PlayerTransaction.t) : Q :=
  unpaid_credit_buy_ins p txs - credit_cashouts p txs.

Definition owed (p : string) (txs : list PlayerTransaction.t) : Q :=
  Qmax 0 (net_credit p txs).

(** The players with a credit transaction, each once. *)
Definition credit_players (txs : list PlayerTransaction.t) : list string :=
  nodup string_dec
    (map PlayerTransaction.playerName (filter (Summary.pays_with Credit) txs)).

Definition cash_cashout (t : PlayerTransaction.t) : bool :=
  Summary.is_cashout t && Summary.pays_with Cash t.
Definition paid_credit_buy_in (t : PlayerTransaction.t) : bool :=
  Summary.is_buy_in t && Summary.pays_with Credit t && PlayerTransaction.isPaid t.

(** The keys of the credit map and the entry of a player in it (the
    two zeros when the player has none). *)
Definition keys (m : Summary.CreditMap) : list string := map fst m.

Definition entry_of (m : Summary.CreditMap) (p : string) : Summary.CreditEntry :=
  match Summary.Map_get m p with
  | Some e => e
  | None => Summary.mkEntry 0 0
  end.

(** What one transaction adds to the two totals of player [p]. *)
Definition adds_unpaid (p : string) (t : PlayerTransaction.t) : Q :=
  if Summary.pays_with Credit t && Summary.is_buy_in t
     && negb (PlayerTransaction.isPaid t)
     && String.eqb (PlayerTransaction.playerName t) p
  then PlayerTransaction.amount t else 0.

Definition adds_cashout (p : string) (t : PlayerTransaction.t) : Q :=
  if Summary.pays_with Credit t && Summary.is_cashout t
     && String.eqb (PlayerTransaction.playerName t) p
  then PlayerTransaction.amount t else 0.

(** The three figures of an answer of the analyzer. *)
Definition figures (body : Analyzer.AnalyzeTillResponse) : Q * Q * Q :=
  (Analyzer.discrepancyAmount body, Analyzer.expectedTill_ body,
   Analyzer.actualTill body).

(** An object of the collaborator's answer that has none of the
    properties [keys]. *)
Definition lacks (keys : list string)
  (fields : list (string * JsValue.json)) : Prop :=
  Forall (fun k => JsValue.lookup k fields = None) keys.

(** The caller owns the session the tip claim names, and the
    percentage of the claim (100 when the request gives none). *)
Definition owns (db : Dealers.Database) (user : string)
  (data : Dealers.ClaimTipsByDealerRequest) : Prop :=
  exists s, In s (Dealers.gameSessions db) /\
            Dealers.sessionId s = Dealers.gameSessionId data /\
            Dealers.ownerId s = user.

Definition percentage_of (data : Dealers.ClaimTipsByDealerRequest) : Q :=
  match Dealers.percentage data with Some p => p | None => 100 end.

(** An amount in the wording of the specification, "a non-negative
    decimal with up to two fraction digits": digits, then possibly a
    point and one or two digits. *)
Definition decimal_up_to_two (a : list ascii) : bool :=
  let (ip, rest) := span_digits a in
  negb (Nat.eqb (length ip) 0)
  && match rest with
     | [] => true
     | c :: fr =>
         Ascii.eqb c "."
         && forallb is_digit fr
         && (Nat.leb 1 (length fr) && Nat.leb (length fr) 2)
     end.

End Spec.

(** ** What a pattern matches

    [matches r s cap s' cap']: the pattern [r] matches a prefix of [s]
    and leaves [s']; group 1 goes from [cap] to [cap']. *)

Module Denotation.
Import Js Regex Spec.

Inductive matches :
  regex -> list ascii -> option (list ascii) ->
  list ascii -> option (list ascii) -> Prop :=
| M_Lit l s cap :
    matches (Lit l) (l ++ s) cap s cap
| M_Digit c s cap :
    is_digit c = true -> matches Digit (c :: s) cap s cap
| M_Digits1 ds s cap :
    ds <> [] -> all_digits ds -> matches Digits1 (ds ++ s) cap s cap
| M_Cat r1 r2 s cap s1 cap1 s2 cap2 :
    matches r1 s cap s1 cap1 -> matches r2 s1 cap1 s2 cap2 ->
    matches (Cat r1 r2) s cap s2 cap2
| M_Opt_some r s cap s' cap' :
    matches r s cap s' cap' -> matches (Opt r) s cap s' cap'
| M_Opt_none r s cap :
    matches (Opt r) s cap s cap
| M_Group r s cap s' cap' :
    matches r s cap s' cap' ->
    matches (Group r) s cap s' (Some (firstn (length s - length s') s)).

End Denotation.

(** ** Sample data *)

Module Examples.
Local Open Scope string_scope.

Definition ann_buys_in : PlayerTransaction.t :=
  PlayerTransaction.mk "t1" "Ann" BuyIn 500 Cash None true.
Definition bob_buys_in_on_credit : PlayerTransaction.t :=
  PlayerTransaction.mk "t2" "Bob" BuyIn 500 Credit None false.
Definition bob_settles : PlayerTransaction.t :=
  PlayerTransaction.mk "t3" "Bob" Cashout 300 Cash
    (Some "received $150 cash, paid $150 credit") true.
Definition ann_cashes_out : PlayerTransaction.t :=
  PlayerTransaction.mk "t4" "Ann" Cashout 300 Cash None true.
Definition cy_paid_his_credit : PlayerTransaction.t :=
  PlayerTransaction.mk "t5" "Cy" BuyIn 200 Credit None true.
Definition dan_old_format : PlayerTransaction.t :=
  PlayerTransaction.mk "t6" "Dan" Cashout 400 Cash
    (Some "Auto-settled (cash paid: $250.50)") true.

(** A cashout whose note gives the cash received with one fraction
    digit. *)
Definition eve_one_fraction_digit : PlayerTransaction.t :=
  PlayerTransaction.mk "t7" "Eve" Cashout 300 Cash
    (Some "received $12.5 cash") true.

Definition first_down : DealerDown.t :=
  DealerDown.mk "d1" "Dee" 40 100 true true "g1".
Definition second_down : DealerDown.t :=
  DealerDown.mk "d2" "Dee" 60 50 false false "g1".
Definition third_down : DealerDown.t :=
  DealerDown.mk "d3" "Flo" 25 10 false false "g1".

Definition pizza : Expense.t :=
Expense.mk "e1" "pizza" 30 Food PaidCash true None.

Definition night : GameSession.t :=
  GameSession.mk "g1" "u1" 0
    [ann_buys_in; bob_buys_in_on_credit; bob_settles; ann_cashes_out;
     cy_paid_his_credit; dan_old_format]
    [first_down; second_down; third_down]
    [pizza].

(** The same session with its rows in the opposite order. *)
Definition night_reversed : GameSession.t :=
  GameSession.mk "g1" "u1" 0
    (rev (GameSession.playerTransactions night))
    (rev (GameSession.dealerDowns night))
    (rev (GameSession.expenses night)).

(** A session without rows and without rake. *)
Definition quiet_night : GameSession.t :=
GameSession.mk "g3" "u1" 0 [] [] [].

(** Two collaborators: one answers with an empty object, one with
    causes, a transaction to review and figures of its own. *)
Definition terse_collaborator
  (_ : Analyzer.CollaboratorRequest) : Analyzer.CollaboratorReply :=
Analyzer.Parsed (JsValue.JObject []).

Definition talkative_collaborator
  (_ : Analyzer.CollaboratorRequest) : Analyzer.CollaboratorReply :=
Analyzer.Parsed
  (JsValue.JObject
     [("discrepancyAmount", JsValue.JNumber 1);
      ("expectedTill", JsValue.JNumber 2);
      ("actualTill", JsValue.JNumber 3);
      ("summary", JsValue.JString "All is well");
      ("possibleCauses",
       JsValue.JArray
         [JsValue.JObject
            [("description", JsValue.JString "Miscounted");
             ("likelihood", JsValue.JString "certain");
             ("amount", JsValue.JString "20")]]);
      ("transactionsToReview",
       JsValue.JArray [JsValue.JObject [("id", JsValue.JString "t3")]]);
      ("recommendations", JsValue.JArray [JsValue.JString "Recount"])]).

(** An answer that only names one transaction to review, with nothing
    about it. *)
Definition bare_review : JsValue.json :=
JsValue.JObject [("transactionsToReview", JsValue.JArray [JsValue.JObject []])].

(** The tables of the sample night, and Dee's claim of 70 percent of
    her tips. *)
Definition tables : Dealers.Database :=
Dealers.mkDatabase [Dealers.mkSessionRow "g1" "u1"]
  [first_down; second_down; third_down;
   DealerDown.mk "d4" "Dee" 40 0 false false "g1"].

Definition dee_claims_70 : Dealers.ClaimTipsByDealerRequest :=
Dealers.mkClaimRequest "Dee" "g1" (Some 70).

(** A session without rows whose rake was entered as a lump sum. *)
Definition empty_with_rake : GameSession.t :=
  GameSession.mk "g2" "u1" 100 [] [] [].

End Examples.

(** ** The answer the system prompt asks the collaborator for

    The structure that the prompt of the analyzer spells out (an object
    with [summary], [possibleCauses], [transactionsToReview] and
    [recommendations]), as the value [JSON.parse] returns for it. *)

Module Wire.
Import JsValue Analyzer.
Local Open Scope string_scope.

Definition likelihood_text (l : Likelihood) : string :=
  match l with
  | High => "high"
  | Medium => "medium"
  | Low => "low"
  end.

(** An optional property: absent when there is no value. *)
Definition optional {A : Type} (key : string) (f : A -> json) (v : option A)
  : list (string * json) :=
  match v with
  | Some x => [(key, f x)]
  | None => []
  end.

Definition cause_json (c : TillAnalysisCause) : json :=
  JObject
    ([("description", JString (description c));
      ("likelihood", JString (likelihood_text (likelihood c)))]
     ++ optional "amount" JNumber (amount c)
     ++ optional "transactionIds" JArray (transactionIds c)).

Definition review_json (r : TransactionToReview) : json :=
  JObject
    [("id", JString (r_id r));
     ("playerName", JString (r_playerName r));
     ("type", JString (r_type r));
     ("amount", JNumber (r_amount r));
     ("paymentMethod", JString (r_paymentMethod r));
     ("notes", r_notes r);
     ("reason", JString (r_reason r))].

Definition answer_json (summary : string) (causes : list TillAnalysisCause)
  (reviews : list TransactionToReview) (recommendations : list string) : json :=
  JObject
    [("summary", JString summary);
     ("possibleCauses", JArray (map cause_json causes));
     ("transactionsToReview", JArray (map review_json reviews));
     ("recommendations", JArray (map JString recommendations))].

(** The notes of a transaction to review: a text that is not empty, or
    null. *)
Definition notes_or_null (n : json) : Prop :=
  n = JNull \/ exists c s, n = JString (String c s).

End Wire.

(** ** The tables, and the routes that write them

    The rows of the database as the migration declares them, the
    queries of the routes as operations on lists of rows, and each
    handler as a function from the database to its answer and the
    database it leaves.  A point in time is the number of milliseconds
    since the epoch. *)

Module User.
Record t : Type := mk {
  id : string;
  completedGames : nat
}.
End User.

Module GameSessionRow.
Record t : Type := mk {
  id : string;
  userId : string;
  isActive : bool;
  totalRake : Q;
  startedAt : Z;
  endedAt : option Z;
  currency : string;
  language : string;
  shareCode : option string;
  shareCodeExpiresAt : option Z
}.
End GameSessionRow.

Module GameSessionMember.
Record t : Type := mk {
  userId : string;
  gameSessionId : string;
  role : string
}.
End GameSessionMember.

(** A row of a table whose rows belong to a session, with the
    [gameSessionId] column next to the columns the figures read. *)
Module InSession.
Record t (A : Type) : Type := mk {
  gameSessionId : string;
  row : A
}.
Arguments mk {A} gameSessionId row.
Arguments gameSessionId {A} t.
Arguments row {A} t.
End InSession.

Module Db.
Local Open Scope string_scope.

Record t : Type := mk {
  users : list User.t;
  gameSessions : list GameSessionRow.t;
  members : list GameSessionMember.t;
  playerTransactions : list (InSession.t PlayerTransaction.t);
  dealerDowns : list DealerDown.t;
  expenses : list (InSession.t Expense.t)
}.

Definition with_users (db : t) (rows : list User.t) : t :=
  mk rows (gameSessions db) (members db) (playerTransactions db)
    (dealerDowns db) (expenses db).

Definition with_gameSessions (db : t) (rows : list GameSessionRow.t) : t :=
  mk (users db) rows (members db) (playerTransactions db)
    (dealerDowns db) (expenses db).

Definition with_members (db : t) (rows : list GameSessionMember.t) : t :=
  mk (users db) (gameSessions db) rows (playerTransactions db)
    (dealerDowns db) (expenses db).

Definition with_playerTransactions (db : t)
  (rows : list (InSession.t PlayerTransaction.t)) : t :=
  mk (users db) (gameSessions db) (members db) rows
    (dealerDowns db) (expenses db).

Definition with_dealerDowns (db : t) (rows : list DealerDown.t) : t :=
  mk (users db) (gameSessions db) (members db) (playerTransactions db)
    rows (expenses db).

Definition with_expenses (db : t) (rows : list (InSession.t Expense.t)) : t :=
  mk (users db) (gameSessions db) (members db) (playerTransactions db)
    (dealerDowns db) rows.

(** Queries by primary key.  [update] and [delete] are called by the
    routes after [findUnique] has found the row. *)
Section Table.
Context {A : Type} (key : A -> string).

Definition findUnique (k : string) (rows : list A) : option A :=
  find (fun r => String.eqb (key r) k) rows.

Definition update (k : string) (f : A -> A) (rows : list A) : list A :=
  map (fun r => if String.eqb (key r) k then f r else r) rows.

Definition delete (k : string) (rows : list A) : list A :=
  filter (fun r => negb (String.eqb (key r) k)) rows.

End Table.

(** [updateMany({where, data})]: the new table and the count of rows
    updated. *)
Definition updateMany {A : Type} (where_ : A -> bool) (f : A -> A)
  (rows : list A) : list A * nat :=
  (map (fun r => if where_ r then f r else r) rows,
   length (filter where_ rows)).

Definition transaction_id (r : InSession.t PlayerTransaction.t) : string :=
  PlayerTransaction.id (InSession.row r).

Definition expense_id (r : InSession.t Expense.t) : string :=
  Expense.id (InSession.row r).

(** [members: {some: {userId}}] on a session. *)
Definition has_member (db : t) (user sessionId : string) : bool :=
  existsb (fun m => String.eqb (GameSessionMember.userId m) user
                    && String.eqb (GameSessionMember.gameSessionId m) sessionId)
    (members db).

(** [where: {id, OR: [{userId}, {members: {some: {userId}}}]}]. *)
Definition accessible (db : t) (user sessionId : string)
  (s : GameSessionRow.t) : bool :=
  String.eqb (GameSessionRow.id s) sessionId
  && (String.eqb (GameSessionRow.userId s) user
      || has_member db user (GameSessionRow.id s)).

(** [where: {id, userId}]. *)
Definition owned (user sessionId : string) (s : GameSessionRow.t) : bool :=
  String.eqb (GameSessionRow.id s) sessionId
  && String.eqb (GameSessionRow.userId s) user.

(** [where: {userId, isActive: true}]. *)
Definition active_of (user : string) (s : GameSessionRow.t) : bool :=
  GameSessionRow.isActive s && String.eqb (GameSessionRow.userId s) user.

(** The rows of a session, as [include] attaches them. *)
Definition rows_of {A : Type} (sessionId : string)
  (rows : list (InSession.t A)) : list A :=
  map InSession.row
    (filter (fun r => String.eqb (InSession.gameSessionId r) sessionId) rows).

Definition downs_of (sessionId : string) (rows : list DealerDown.t)
  : list DealerDown.t :=
  filter (fun d => String.eqb (DealerDown.gameSessionId d) sessionId) rows.

(** [include: {playerTransactions: true, dealerDowns: true,
    expenses: true}]. *)
Definition include (db : t) (s : GameSessionRow.t) : GameSession.t :=
  GameSession.mk (GameSessionRow.id s) (GameSessionRow.userId s)
    (GameSessionRow.totalRake s)
    (rows_of (GameSessionRow.id s) (playerTransactions db))
    (downs_of (GameSessionRow.id s) (dealerDowns db))
    (rows_of (GameSessionRow.id s) (expenses db)).

(** The guard of the routes that change one row:
    [findUnique({where: {id}, include: {gameSession: true}})], then
    [!row || row.gameSession.userId !== user.id].  The session of a row
    exists, its column being a foreign key. *)
Definition owned_row {A : Type} (key session_of : A -> string) (db : t)
  (user id : string) (rows : list A) : option A :=
  match findUnique key id rows with
  | Some r =>
      match findUnique GameSessionRow.id (session_of r) (gameSessions db) with
      | Some s => if String.eqb (GameSessionRow.userId s) user
                  then Some r else None
      | None => None
      end
  | None => None
  end.

End Db.

(** What a route answers: a body with status 200, an error body
    [{error}] with its status, or status 500 with the message of an
    exception (thrown by a query and caught by the route or by the
    error handler of the application). *)
Inductive Response (A : Type) : Type :=
| Json200 (body : A)
| JsonError (status : nat) (error : string)
| Failed.
Arguments Json200 {A} body.
Arguments JsonError {A} status error.
Arguments Failed {A}.

Definition status_of {A : Type} (r : Response A) : nat :=
  match r with
  | Json200 _ => 200
  | JsonError status _ => status
  | Failed => 500
  end.

(** ** The game routes: /active, /end, DELETE /:sessionId, /new and
    the session query of /:sessionId/summary *)

Module GameRoutes.
Import Db.
Local Open Scope string_scope.

Definition set_ended (now : Z) (s : GameSessionRow.t) : GameSessionRow.t :=
  GameSessionRow.mk (GameSessionRow.id s) (GameSessionRow.userId s) false
    (GameSessionRow.totalRake s) (GameSessionRow.startedAt s) (Some now)
    (GameSessionRow.currency s) (GameSessionRow.language s)
    (GameSessionRow.shareCode s) (GameSessionRow.shareCodeExpiresAt s).

(** [gameSession.create]: the columns the route gives and the defaults
    of the others ([startedAt] now, no end, no share code, no rake). *)
Definition create_session (id user : string) (now : Z)
  (currency language : string) : GameSessionRow.t :=
  GameSessionRow.mk id user true 0 now None currency language None None.

(** [orderBy: {startedAt: "desc"}], first row: a row with the latest
    start (the first of them in the table when several share it). *)
Fixpoint latest (rows : list GameSessionRow.t) : option GameSessionRow.t :=
  match rows with
  | [] => None
  | s :: rows' =>
      match latest rows' with
      | Some s' =>
          if (GameSessionRow.startedAt s <? GameSessionRow.startedAt s')%Z
          then Some s' else Some s
      | None => Some s
      end
  end.

(** [gameSessionMember.findFirst({where: {userId, gameSession:
    {isActive: true}}, include: {gameSession: true}})?.gameSession]. *)
Definition active_membership (db : Db.t) (user : string)
  : option GameSessionRow.t :=
  match
    find (fun m =>
            String.eqb (GameSessionMember.userId m) user
            && existsb (fun s =>
                          String.eqb (GameSessionRow.id s)
                            (GameSessionMember.gameSessionId m)
                          && GameSessionRow.isActive s)
                 (gameSessions db))
      (members db)
  with
  | Some m =>
      findUnique GameSessionRow.id (GameSessionMember.gameSessionId m)
        (gameSessions db)
  | None => None
  end.

(** GET /active.  [newId] is the key the database gives a created row. *)
Definition getActive (db : Db.t) (user : string) (now : Z) (newId : string)
  : Response (GameSessionRow.t * nat) * Db.t :=
  let session :=
    match latest (filter (active_of user) (gameSessions db)) with
    | Some s => Some s
    | None => active_membership db user
    end in
  let userCompletedGames :=
    match findUnique User.id user (users db) with
    | Some currentUser => User.completedGames currentUser
    | None => O
    end in
  match session with
  | Some s => (Json200 (s, userCompletedGames), db)
  | None =>
      let s := create_session newId user now "USD" "en" in
      (Json200 (s, userCompletedGames),
       with_gameSessions db (gameSessions db ++ [s]))
  end.

Definition increment_completedGames (u : User.t) : User.t :=
  User.mk (User.id u) (S (User.completedGames u)).

(** POST /end.  The two updates are separate statements: when the
    second one throws (no row for the user), the first one stays. *)
Definition endGame (db : Db.t) (user sessionId : string) (now : Z)
  : Response GameSessionRow.t * Db.t :=
  match find (owned user sessionId) (gameSessions db) with
  | None => (JsonError 404 "Game session not found", db)
  | Some existingSession =>
      let db1 :=
        with_gameSessions db
          (update GameSessionRow.id sessionId (set_ended now)
             (gameSessions db)) in
      match findUnique User.id user (users db1) with
      | None => (Failed, db1)
      | Some _ =>
          (Json200 (set_ended now existingSession),
           with_users db1
             (update User.id user increment_completedGames (users db1)))
      end
  end.

(** [gameSession.delete]: the row, and with it the rows that refer to
    it ([ON DELETE CASCADE] on each of the four foreign keys). *)
Definition delete_session (db : Db.t) (sessionId : string) : Db.t :=
  Db.mk (users db)
    (delete GameSessionRow.id sessionId (gameSessions db))
    (delete GameSessionMember.gameSessionId sessionId (members db))
    (delete InSession.gameSessionId sessionId (playerTransactions db))
    (delete DealerDown.gameSessionId sessionId (dealerDowns db))
    (delete InSession.gameSessionId sessionId (expenses db)).

(** DELETE /:sessionId. *)
Definition deleteGame (db : Db.t) (user sessionId : string)
  : Response unit * Db.t :=
  match find (owned user sessionId) (gameSessions db) with
  | None => (JsonError 404 "Game session not found", db)
  | Some _ => (Json200 tt, delete_session db sessionId)
  end.

(** [v || fallback] on strings. *)
Definition string_or_default (v fallback : string) : string :=
  match v with
  | EmptyString => fallback
  | _ => v
  end.

(** POST /new. *)
Definition startNewGame (db : Db.t) (user currency language : string)
  (now : Z) (newId : string) : Response GameSessionRow.t * Db.t :=
  let (rows, _) :=
    updateMany (active_of user) (set_ended now) (gameSessions db) in
  let session :=
    create_session newId user now (string_or_default currency "USD")
      (string_or_default language "en") in
  (Json200 session, with_gameSessions db (rows ++ [session])).

(** GET /:sessionId/summary: the session query, then the figures. *)
Definition getSummary (db : Db.t) (user sessionId : string)
  : Response Summary.GameSummary :=
  match find (accessible db user sessionId) (gameSessions db) with
  | None => JsonError 404 "Session not found"
  | Some session => Json200 (Summary.summary (include db session))
  end.

End GameRoutes.

(** ** The player routes *)

Module PlayerRoutes.
Import Db.
Local Open Scope string_scope.

Record AddPlayerTransactionRequest : Type := mkAdd {
  playerName : string;
  type : TransactionType;
  amount : Q;
  paymentMethod : PaymentMethod;
  notes : option string;
  gameSessionId : string
}.

Record UpdatePlayerTransactionRequest : Type := mkUpdate {
  u_amount : Q;
  u_paymentMethod : PaymentMethod;
  u_notes : option string
}.

(** [addPlayerTransactionRequestSchema] and
    [updatePlayerTransactionRequestSchema], on a body of the right
    types: [playerName: z.string().min(1)], [amount:
    z.number().positive()]. *)
Definition valid_add (data : AddPlayerTransactionRequest) : bool :=
  Nat.leb 1 (String.length (playerName data)) && Js.gt (amount data) 0.

Definition valid_update (data : UpdatePlayerTransactionRequest) : bool :=
  Js.gt (u_amount data) 0.

Definition set_isPaid (b : bool) (r : InSession.t PlayerTransaction.t)
  : InSession.t PlayerTransaction.t :=
  let t := InSession.row r in
  InSession.mk (InSession.gameSessionId r)
    (PlayerTransaction.mk (PlayerTransaction.id t)
       (PlayerTransaction.playerName t) (PlayerTransaction.type t)
       (PlayerTransaction.amount t) (PlayerTransaction.paymentMethod t)
       (PlayerTransaction.notes t) b).

Definition set_fields (data : UpdatePlayerTransactionRequest)
  (r : InSession.t PlayerTransaction.t) : InSession.t PlayerTransaction.t :=
  let t := InSession.row r in
  InSession.mk (InSession.gameSessionId r)
    (PlayerTransaction.mk (PlayerTransaction.id t)
       (PlayerTransaction.playerName t) (PlayerTransaction.type t)
       (u_amount data) (u_paymentMethod data) (u_notes data)
       (PlayerTransaction.isPaid t)).

(** POST /transaction.  The created row is paid, the default of the
    column. *)
Definition addTransaction (db : Db.t) (user : string)
  (data : AddPlayerTransactionRequest) (newId : string)
  : Response (InSession.t PlayerTransaction.t) * Db.t :=
  match find (accessible db user (gameSessionId data)) (gameSessions db) with
  | None => (JsonError 404 "Game session not found", db)
  | Some _ =>
      let transaction :=
        InSession.mk (gameSessionId data)
          (PlayerTransaction.mk newId (playerName data) (type data)
             (amount data) (paymentMethod data) (notes data) true) in
      (Json200 transaction,
       with_playerTransactions db (playerTransactions db ++ [transaction]))
  end.

(** The routes on one transaction: the guard, then the change. *)
Definition deleteTransaction (db : Db.t) (user id : string)
  : Response unit * Db.t :=
  match owned_row transaction_id InSession.gameSessionId db user id
          (playerTransactions db) with
  | None => (JsonError 404 "Transaction not found", db)
  | Some _ =>
      (Json200 tt,
       with_playerTransactions db
         (delete transaction_id id (playerTransactions db)))
  end.

Definition change_transaction (db : Db.t) (user id : string)
  (f : InSession.t PlayerTransaction.t -> InSession.t PlayerTransaction.t)
  : Response (InSession.t PlayerTransaction.t) * Db.t :=
  match owned_row transaction_id InSession.gameSessionId db user id
          (playerTransactions db) with
  | None => (JsonError 404 "Transaction not found", db)
  | Some existingTransaction =>
      (Json200 (f existingTransaction),
       with_playerTransactions db
         (update transaction_id id f (playerTransactions db)))
  end.

(** PUT /transaction/:id, /transaction/:id/mark-paid and
    /transaction/:id/mark-unpaid. *)
Definition updateTransaction (db : Db.t) (user id : string)
  (data : UpdatePlayerTransactionRequest) :=
  change_transaction db user id (set_fields data).

Definition markPaid (db : Db.t) (user id : string) :=
  change_transaction db user id (set_isPaid true).

Definition markUnpaid (db : Db.t) (user id : string) :=
  change_transaction db user id (set_isPaid false).

End PlayerRoutes.

(** ** The dealer routes *)

Module DealerRoutes.
Import Db.
Local Open Scope string_scope.

Record AddDealerDownRequest : Type := mkAdd {
  dealerName : string;
  tips : Q;
  rake : Q;
  gameSessionId : string
}.

Record UpdateDealerDownRequest : Type := mkUpdate {
  u_dealerName : string;
  u_tips : Q;
  u_rake : Q
}.

Record ClaimAllRakeResponse : Type := mkClaimAllRake {
  updatedCount : nat;
  totalRakeClaimed : Q
}.

Record UpdateTotalRakeRequest : Type := mkTotalRake {
  r_gameSessionId : string;
  r_totalRake : Q
}.

(** [z.number().min(0)]. *)
Definition at_least_0 (x : Q) : bool := negb (Js.lt x 0).

(** The request schemas, on a body of the right types. *)
Definition valid_add (data : AddDealerDownRequest) : bool :=
  Nat.leb 1 (String.length (dealerName data))
  && at_least_0 (tips data) && at_least_0 (rake data).

Definition valid_update (data : UpdateDealerDownRequest) : bool :=
  Nat.leb 1 (String.length (u_dealerName data))
  && at_least_0 (u_tips data) && at_least_0 (u_rake data).

Definition valid_claim (data : Dealers.ClaimTipsByDealerRequest) : bool :=
  Nat.leb 1 (String.length (Dealers.dealerName data))
  && match Dealers.percentage data with
     | Some p => at_least_0 p && negb (Js.gt p 100)
     | None => true
     end.

Definition valid_totalRake (data : UpdateTotalRakeRequest) : bool :=
  at_least_0 (r_totalRake data).

Definition set_rakeClaimed (b : bool) (d : DealerDown.t) : DealerDown.t :=
  DealerDown.mk (DealerDown.id d) (DealerDown.dealerName d) (DealerDown.tips d)
    (DealerDown.rake d) (DealerDown.tipsPaid d) b (DealerDown.gameSessionId d).

Definition set_tipsPaid (b : bool) (d : DealerDown.t) : DealerDown.t :=
  DealerDown.mk (DealerDown.id d) (DealerDown.dealerName d) (DealerDown.tips d)
    (DealerDown.rake d) b (DealerDown.rakeClaimed d)
    (DealerDown.gameSessionId d).

Definition set_fields (data : UpdateDealerDownRequest) (d : DealerDown.t)
  : DealerDown.t :=
  DealerDown.mk (DealerDown.id d) (u_dealerName data) (u_tips data)
    (u_rake data) (DealerDown.tipsPaid d) (DealerDown.rakeClaimed d)
    (DealerDown.gameSessionId d).

Definition set_totalRake (q : Q) (s : GameSessionRow.t) : GameSessionRow.t :=
  GameSessionRow.mk (GameSessionRow.id s) (GameSessionRow.userId s)
    (GameSessionRow.isActive s) q (GameSessionRow.startedAt s)
    (GameSessionRow.endedAt s) (GameSessionRow.currency s)
    (GameSessionRow.language s) (GameSessionRow.shareCode s)
    (GameSessionRow.shareCodeExpiresAt s).

(** POST /down.  The created down has its tips unpaid and its rake
    unclaimed, the defaults of the columns. *)
Definition addDown (db : Db.t) (user : string) (data : AddDealerDownRequest)
  (newId : string) : Response DealerDown.t * Db.t :=
  match find (accessible db user (gameSessionId data)) (gameSessions db) with
  | None => (JsonError 404 "Game session not found", db)
  | Some gameSession =>
      if negb (GameSessionRow.isActive gameSession)
      then (JsonError 400 "Game session is not active", db)
      else
        let dealerDown :=
          DealerDown.mk newId (dealerName data) (tips data) (rake data)
            false false (gameSessionId data) in
        (Json200 dealerDown,
         with_dealerDowns db (dealerDowns db ++ [dealerDown]))
  end.

(** DELETE /down/:id. *)
Definition deleteDown (db : Db.t) (user id : string) : Response unit * Db.t :=
  match owned_row DealerDown.id DealerDown.gameSessionId db user id
          (dealerDowns db) with
  | None => (JsonError 404 "Dealer down not found", db)
  | Some _ =>
      (Json200 tt,
       with_dealerDowns db (delete DealerDown.id id (dealerDowns db)))
  end.

Definition change_down (db : Db.t) (user id : string)
  (f : DealerDown.t -> DealerDown.t) : Response DealerDown.t * Db.t :=
  match owned_row DealerDown.id DealerDown.gameSessionId db user id
          (dealerDowns db) with
  | None => (JsonError 404 "Dealer down not found", db)
  | Some existingDown =>
      (Json200 (f existingDown),
       with_dealerDowns db (update DealerDown.id id f (dealerDowns db)))
  end.

(** PUT /down/:id, /down/:id/pay, /down/:id/unpay, /down/:id/claim-rake
    and /down/:id/unclaim-rake. *)
Definition updateDown (db : Db.t) (user id : string)
  (data : UpdateDealerDownRequest) :=
  change_down db user id (set_fields data).

Definition payTips (db : Db.t) (user id : string) :=
  change_down db user id (set_tipsPaid true).

Definition unpayTips (db : Db.t) (user id : string) :=
  change_down db user id (set_tipsPaid false).

Definition claimRake (db : Db.t) (user id : string) :=
  change_down db user id (set_rakeClaimed true).

Definition unclaimRake (db : Db.t) (user id : string) :=
  change_down db user id (set_rakeClaimed false).

(** POST /claim-tips-by-dealer, on the two tables it touches. *)
Definition dealers_tables (db : Db.t) : Dealers.Database :=
  Dealers.mkDatabase
    (map (fun s => Dealers.mkSessionRow (GameSessionRow.id s)
                     (GameSessionRow.userId s))
       (gameSessions db))
    (dealerDowns db).

Definition claimTipsByDealer (db : Db.t) (user : string)
  (data : Dealers.ClaimTipsByDealerRequest)
  : Dealers.HttpResponse * Db.t :=
  let (response, tables) :=
    Dealers.claimTipsByDealer (dealers_tables db) user data in
  (response, with_dealerDowns db (Dealers.dealerDowns tables)).

(** The [where] clause of both queries of /claim-all-rake:
    [{gameSessionId, rakeClaimed: false}]. *)
Definition unclaimed_of (sessionId : string) (d : DealerDown.t) : bool :=
  String.eqb (DealerDown.gameSessionId d) sessionId
  && Bool.eqb (DealerDown.rakeClaimed d) false.

(** POST /claim-all-rake. *)
Definition claimAllRake (db : Db.t) (user sessionId : string)
  : Response ClaimAllRakeResponse * Db.t :=
  match findUnique GameSessionRow.id sessionId (gameSessions db) with
  | None =>
      (JsonError 404 "Game session does not exist. It may have been deleted.",
       db)
  | Some _ =>
      match find (owned user sessionId) (gameSessions db) with
      | None =>
          (JsonError 403
             "You don't have access to this game session. You may be logged in with a different account.",
           db)
      | Some _ =>
          let unclaimedDowns :=
            filter (unclaimed_of sessionId) (dealerDowns db) in
          if (length unclaimedDowns =? 0)%nat
          then (Json200 (mkClaimAllRake 0 0), db)
          else
            let totalRake :=
              Js.reduce (fun sum d => sum + DealerDown.rake d) 0
                unclaimedDowns in
            let (rows, count) :=
              updateMany (unclaimed_of sessionId) (set_rakeClaimed true)
                (dealerDowns db) in
            (Json200 (mkClaimAllRake count totalRake),
             with_dealerDowns db rows)
      end
  end.

(** PUT /total-rake. *)
Definition updateTotalRake (db : Db.t) (user : string)
  (data : UpdateTotalRakeRequest) : Response GameSessionRow.t * Db.t :=
  match findUnique GameSessionRow.id (r_gameSessionId data)
          (gameSessions db) with
  | None =>
      (JsonError 404 "Game session does not exist. It may have been deleted.",
       db)
  | Some _ =>
      match find (accessible db user (r_gameSessionId data))
              (gameSessions db) with
      | None =>
          (JsonError 403
             "You don't have access to this game session. You may be logged in with a different account.",
           db)
      | Some gameSession =>
          if negb (GameSessionRow.isActive gameSession)
          then (JsonError 400 "Game session is not active", db)
          else
            (Json200 (set_totalRake (r_totalRake data) gameSession),
             with_gameSessions db
               (update GameSessionRow.id (r_gameSessionId data)
                  (set_totalRake (r_totalRake data)) (gameSessions db)))
      end
  end.

End DealerRoutes.

(** ** The expense routes *)

Module ExpenseRoutes.
Import Db.
Local Open Scope string_scope.

Record AddExpenseRequest : Type := mkAdd {
  description : string;
  amount : Q;
  category : ExpenseCategory;
  paymentMethod : ExpensePaymentMethod;
  notes : option string;
  gameSessionId : string
}.

Record UpdateExpenseRequest : Type := mkUpdate {
  u_description : string;
  u_amount : Q;
  u_category : ExpenseCategory;
  u_paymentMethod : ExpensePaymentMethod;
  u_notes : option string
}.

(** The request schemas, on a body of the right types. *)
Definition valid_add (data : AddExpenseRequest) : bool :=
  Nat.leb 1 (String.length (description data)) && Js.gt (amount data) 0.

Definition valid_update (data : UpdateExpenseRequest) : bool :=
  Nat.leb 1 (String.length (u_description data)) && Js.gt (u_amount data) 0.

Definition set_fields (data : UpdateExpenseRequest)
  (r : InSession.t Expense.t) : InSession.t Expense.t :=
  let e := InSession.row r in
  InSession.mk (InSession.gameSessionId r)
    (Expense.mk (Expense.id e) (u_description data) (u_amount data)
       (u_category data) (u_paymentMethod data) (Expense.paidOut e)
       (u_notes data)).

(** POST /.  The created expense is not paid out, the default of the
    column. *)
Definition addExpense (db : Db.t) (user : string) (data : AddExpenseRequest)
  (newId : string) : Response (InSession.t Expense.t) * Db.t :=
  match find (accessible db user (gameSessionId data)) (gameSessions db) with
  | None => (JsonError 404 "Game session not found", db)
  | Some _ =>
      let expense :=
        InSession.mk (gameSessionId data)
          (Expense.mk newId (description data) (amount data) (category data)
             (paymentMethod data) false (notes data)) in
      (Json200 expense, with_expenses db (expenses db ++ [expense]))
  end.

(** DELETE /:id. *)
Definition deleteExpense (db : Db.t) (user id : string)
  : Response unit * Db.t :=
  match owned_row expense_id InSession.gameSessionId db user id
          (expenses db) with
  | None => (JsonError 404 "Expense not found", db)
  | Some _ =>
      (Json200 tt, with_expenses db (delete expense_id id (expenses db)))
  end.

(** PUT /:id. *)
Definition updateExpense (db : Db.t) (user id : string)
  (data : UpdateExpenseRequest) : Response (InSession.t Expense.t) * Db.t :=
  match owned_row expense_id InSession.gameSessionId db user id
          (expenses db) with
  | None => (JsonError 404 "Expense not found", db)
  | Some existingExpense =>
      (Json200 (set_fields data existingExpense),
       with_expenses db (update expense_id id (set_fields data) (expenses db)))
  end.

End ExpenseRoutes.

(** ** The share routes *)

Module ShareRoutes.
Import Db.
Local Open Scope string_scope.

(** [chars] of [generateShareCode]. *)
Definition alphabet : string := "ABCDEFGHJKLMNPQRSTUVWXYZ23456789".

(** [s.charAt(i)]: the empty string when [i] is out of range. *)
Definition charAt (s : string) (i : Z) : string :=
  if (i <? 0)%Z then ""
  else match String.get (Z.to_nat i) s with
       | Some c => String c ""
       | None => ""
       end.

Definition Math_floor (x : Q) : Z := Qfloor x.

(** The loop of [generateShareCode]: [n] characters are still to be
    added to [code].  [random i] is what the call number [i] of
    [Math.random()] returns. *)
Fixpoint generate_loop (random : nat -> Q) (next n : nat) (code : string)
  : string :=
  match n with
  | O => code
  | S n' =>
      generate_loop random (S next) n'
        (code ++ charAt alphabet
                   (Math_floor
                      (random next
                       * inject_Z (Z.of_nat (String.length alphabet)))))
  end.

Definition generateShareCode (random : nat -> Q) (next : nat) : string :=
  generate_loop random next 6 "".

(** [where: {shareCode}]. *)
Definition has_code (shareCode : string) (s : GameSessionRow.t) : bool :=
  match GameSessionRow.shareCode s with
  | Some c => String.eqb c shareCode
  | None => false
  end.

(** The loop [while (attempts < 10)] of /generate, with [fuel] the
    iterations that are left and [next] the number of calls made to
    [Math.random()]. *)
Fixpoint unique_code (db : Db.t) (random : nat -> Q) (fuel next : nat)
  (shareCode : string) : string :=
  match fuel with
  | O => shareCode
  | S fuel' =>
      match find (has_code shareCode) (gameSessions db) with
      | None => shareCode
      | Some _ =>
          unique_code db random fuel' (next + 6)
            (generateShareCode random next)
      end
  end.

Definition set_share (code : option string) (expiresAt : option Z)
  (s : GameSessionRow.t) : GameSessionRow.t :=
  GameSessionRow.mk (GameSessionRow.id s) (GameSessionRow.userId s)
    (GameSessionRow.isActive s) (GameSessionRow.totalRake s)
    (GameSessionRow.startedAt s) (GameSessionRow.endedAt s)
    (GameSessionRow.currency s) (GameSessionRow.language s) code expiresAt.

(** POST /generate: the code and its expiry.  The update throws when
    another session holds the code (the column has a unique index). *)
Definition generate (db : Db.t) (user : string) (now : Z)
  (random : nat -> Q) : Response (string * Z) * Db.t :=
  match find (active_of user) (gameSessions db) with
  | None => (JsonError 404 "No active game session found", db)
  | Some gameSession =>
      let shareCode :=
        unique_code db random 10 6 (generateShareCode random 0) in
      let shareCodeExpiresAt := (now + 24 * 60 * 60 * 1000)%Z in
      if existsb (fun s => has_code shareCode s
                           && negb (String.eqb (GameSessionRow.id s)
                                      (GameSessionRow.id gameSession)))
           (gameSessions db)
      then (Failed, db)
      else
        (Json200 (shareCode, shareCodeExpiresAt),
         with_gameSessions db
           (update GameSessionRow.id (GameSessionRow.id gameSession)
              (set_share (Some shareCode) (Some shareCodeExpiresAt))
              (gameSessions db)))
  end.

(** [String.prototype.toUpperCase] on ASCII text. *)
Definition upper (c : ascii) : ascii :=
  let n := nat_of_ascii c in
  if ((97 <=? n) && (n <=? 122))%nat then ascii_of_nat (n - 32) else c.

Fixpoint toUpperCase (s : string) : string :=
  match s with
  | EmptyString => EmptyString
  | String c s' => String (upper c) (toUpperCase s')
  end.

(** [joinSchema]: [shareCode: z.string().length(6)]. *)
Definition valid_join (shareCode : string) : bool :=
  (String.length shareCode =? 6)%nat.

(** [gameSession.shareCodeExpiresAt && new Date() > gameSession.shareCodeExpiresAt]. *)
Definition expired (now : Z) (s : GameSessionRow.t) : bool :=
  match GameSessionRow.shareCodeExpiresAt s with
  | Some expiresAt => (expiresAt <? now)%Z
  | None => false
  end.

(** POST /join (the names in the body are left out). *)
Definition join (db : Db.t) (user shareCode : string) (now : Z)
  : Response unit * Db.t :=
  match find (has_code (toUpperCase shareCode)) (gameSessions db) with
  | None => (JsonError 404 "Invalid share code", db)
  | Some gameSession =>
      if expired now gameSession
      then (JsonError 400 "Share code has expired", db)
      else if has_member db user (GameSessionRow.id gameSession)
      then (JsonError 400 "You are already a member of this game", db)
      else if String.eqb (GameSessionRow.userId gameSession) user
      then (JsonError 400 "You are the owner of this game", db)
      else
        (Json200 tt,
         with_members db
           (members db
            ++ [GameSessionMember.mk user (GameSessionRow.id gameSession)
                  "editor"]))
  end.

(** [where: {userId_gameSessionId: {userId, gameSessionId}}]. *)
Definition is_member (userId sessionId : string) (m : GameSessionMember.t)
  : bool :=
  String.eqb (GameSessionMember.userId m) userId
  && String.eqb (GameSessionMember.gameSessionId m) sessionId.

(** DELETE /member/:userId.  The delete throws when there is no such
    member. *)
Definition removeMember (db : Db.t) (user memberUserId : string)
  : Response unit * Db.t :=
  match find (active_of user) (gameSessions db) with
  | None =>
      (JsonError 403 "You must be the game owner to remove members", db)
  | Some gameSession =>
      if existsb (is_member memberUserId (GameSessionRow.id gameSession))
           (members db)
      then
        (Json200 tt,
         with_members db
           (filter (fun m => negb (is_member memberUserId
                                     (GameSessionRow.id gameSession) m))
              (members db)))
      else (Failed, db)
  end.

(** DELETE /code. *)
Definition revokeCode (db : Db.t) (user : string) : Response unit * Db.t :=
  match find (active_of user) (gameSessions db) with
  | None =>
      (JsonError 403 "You must be the game owner to revoke share codes", db)
  | Some gameSession =>
      (Json200 tt,
       with_gameSessions db
         (update GameSessionRow.id (GameSessionRow.id gameSession)
            (set_share None None) (gameSessions db)))
  end.

End ShareRoutes.

(** ** The application: authentication, validation, routing *)

Module App.
Local Open Scope string_scope.

(** What a request finds outside the database: the clock, the key of
    the row it may create, and the random numbers. *)
Record Env : Type := mkEnv {
  now : Z;
  newId : string;
  random : nat -> Q
}.

(** The requests that write. *)
Inductive Request : Type :=
| GetActive
| EndGame (sessionId : string)
| DeleteGame (sessionId : string)
| StartNewGame (currency language : option string)
| AddTransaction (data : PlayerRoutes.AddPlayerTransactionRequest)
| DeleteTransaction (id : string)
| UpdateTransaction (id : string)
    (data : PlayerRoutes.UpdatePlayerTransactionRequest)
| MarkPaid (id : string)
| MarkUnpaid (id : string)
| AddDown (data : DealerRoutes.AddDealerDownRequest)
| DeleteDown (id : string)
| UpdateDown (id : string) (data : DealerRoutes.UpdateDealerDownRequest)
| PayTips (id : string)
| UnpayTips (id : string)
| ClaimRake (id : string)
| UnclaimRake (id : string)
| ClaimTipsByDealer (data : Dealers.ClaimTipsByDealerRequest)
| ClaimAllRake (gameSessionId : string)
| UpdateTotalRake (data : DealerRoutes.UpdateTotalRakeRequest)
| AddExpense (data : ExpenseRoutes.AddExpenseRequest)
| DeleteExpense (id : string)
| UpdateExpense (id : string) (data : ExpenseRoutes.UpdateExpenseRequest)
| GenerateShareCode
| JoinGame (shareCode : string)
| RemoveMember (userId : string)
| RevokeShareCode.

(** The status of an answer and the database left. *)
Definition outcome {A : Type} (r : Response A * Db.t) : nat * Db.t :=
  (status_of (fst r), snd r).

Definition claim_outcome (r : Dealers.HttpResponse * Db.t) : nat * Db.t :=
  (match fst r with
   | Dealers.Json200 _ => 200%nat
   | Dealers.JsonError status _ => status
   end, snd r).

(** [zValidator("json", schema)]: status 400 for a body the schema
    refuses, the handler otherwise. *)
Definition zValidator (valid : bool) (db : Db.t) (handler : nat * Db.t)
  : nat * Db.t :=
  if valid then handler else (400%nat, db).

(** [z.string().optional().default(d)]. *)
Definition optional_default (v : option string) (d : string) : string :=
  match v with
  | Some s => s
  | None => d
  end.

(** The routes, for a request that passed [requireAuth]. *)
Definition route (env : Env) (db : Db.t) (user : string) (request : Request)
  : nat * Db.t :=
  match request with
  | GetActive =>
      outcome (GameRoutes.getActive db user (now env) (newId env))
  | EndGame sessionId =>
      outcome (GameRoutes.endGame db user sessionId (now env))
  | DeleteGame sessionId =>
      outcome (GameRoutes.deleteGame db user sessionId)
  | StartNewGame currency language =>
      outcome (GameRoutes.startNewGame db user
                 (optional_default currency "USD")
                 (optional_default language "en") (now env) (newId env))
  | AddTransaction data =>
      zValidator (PlayerRoutes.valid_add data) db
        (outcome (PlayerRoutes.addTransaction db user data (newId env)))
  | DeleteTransaction id =>
      outcome (PlayerRoutes.deleteTransaction db user id)
  | UpdateTransaction id data =>
      zValidator (PlayerRoutes.valid_update data) db
        (outcome (PlayerRoutes.updateTransaction db user id data))
  | MarkPaid id => outcome (PlayerRoutes.markPaid db user id)
  | MarkUnpaid id => outcome (PlayerRoutes.markUnpaid db user id)
  | AddDown data =>
      zValidator (DealerRoutes.valid_add data) db
        (outcome (DealerRoutes.addDown db user data (newId env)))
  | DeleteDown id => outcome (DealerRoutes.deleteDown db user id)
  | UpdateDown id data =>
      zValidator (DealerRoutes.valid_update data) db
        (outcome (DealerRoutes.updateDown db user id data))
  | PayTips id => outcome (DealerRoutes.payTips db user id)
  | UnpayTips id => outcome (DealerRoutes.unpayTips db user id)
  | ClaimRake id => outcome (DealerRoutes.claimRake db user id)
  | UnclaimRake id => outcome (DealerRoutes.unclaimRake db user id)
  | ClaimTipsByDealer data =>
      zValidator (DealerRoutes.valid_claim data) db
        (claim_outcome (DealerRoutes.claimTipsByDealer db user data))
  | ClaimAllRake gameSessionId =>
      outcome (DealerRoutes.claimAllRake db user gameSessionId)
  | UpdateTotalRake data =>
      zValidator (DealerRoutes.valid_totalRake data) db
        (outcome (DealerRoutes.updateTotalRake db user data))
  | AddExpense data =>
      zValidator (ExpenseRoutes.valid_add data) db
        (outcome (ExpenseRoutes.addExpense db user data (newId env)))
  | DeleteExpense id => outcome (ExpenseRoutes.deleteExpense db user id)
  | UpdateExpense id data =>
      zValidator (ExpenseRoutes.valid_update data) db
        (outcome (ExpenseRoutes.updateExpense db user id data))
  | GenerateShareCode =>
      outcome (ShareRoutes.generate db user (now env) (random env))
  | JoinGame shareCode =>
      zValidator (ShareRoutes.valid_join shareCode) db
        (outcome (ShareRoutes.join db user shareCode (now env)))
  | RemoveMember userId => outcome (ShareRoutes.removeMember db user userId)
  | RevokeShareCode => outcome (ShareRoutes.revokeCode db user)
  end.

(** [requireAuth], the first middleware of every router
    ([DEV_SKIP_AUTH] is false): status 401 without a user, the route
    otherwise. *)
Definition requireAuth {A : Type} (user : option string)
  (unauthorized : A) (next : string -> A) : A :=
  match user with
  | None => unauthorized
  | Some u => next u
  end.

(** A request to the application; [user] is the user of the session
    the request carries, if any. *)
Definition handle (env : Env) (db : Db.t) (user : option string)
  (request : Request) : nat * Db.t :=
  requireAuth user (401%nat, db) (fun u => route env db u request).

(** A sequence of requests, each with its sender and what it finds
    outside the database. *)
Fixpoint run_all (db : Db.t) (requests : list (Env * option string * Request))
  : Db.t :=
  match requests with
  | [] => db
  | (env, user, request) :: rest =>
      run_all (snd (handle env db user request)) rest
  end.

End App.

(** ** What the tables are expected to satisfy *)

Module Integrity.
Import Db.

(** Each user owns at most one active game. *)
Definition one_active_game (db : Db.t) : Prop :=
  forall user, (length (filter (active_of user) (gameSessions db)) <= 1)%nat.

(** The primary keys: no two rows of a table have the same key. *)
Definition unique_keys (db : Db.t) : Prop :=
  NoDup (map GameSessionRow.id (gameSessions db)) /\
  NoDup (map transaction_id (playerTransactions db)) /\
  NoDup (map DealerDown.id (dealerDowns db)) /\
  NoDup (map expense_id (expenses db)).

(** The ranges the request schemas ask for: positive amounts of
    transactions and expenses, no negative tips or rake. *)
Definition amounts_in_range (db : Db.t) : Prop :=
  Forall (fun r => 0 < PlayerTransaction.amount (InSession.row r))
    (playerTransactions db) /\
  Forall (fun d => 0 <= DealerDown.tips d /\ 0 <= DealerDown.rake d)
    (dealerDowns db) /\
  Forall (fun r => 0 < Expense.amount (InSession.row r)) (expenses db) /\
  Forall (fun s => 0 <= GameSessionRow.totalRake s) (gameSessions db).

(** The database before the first request. *)
Definition empty : Db.t := Db.mk [] [] [] [] [] [].

(** The rows of the session table with a given key, and the members
    of a session. *)
Definition sessions_of (sessionId : string) (db : Db.t)
  : list GameSessionRow.t :=
  filter (fun s => String.eqb (GameSessionRow.id s) sessionId)
    (gameSessions db).

Definition members_of (sessionId : string) (db : Db.t)
  : list GameSessionMember.t :=
  filter (fun m => String.eqb (GameSessionMember.gameSessionId m) sessionId)
    (members db).

(** The owner of a game, with a row in the user table. *)
Definition owner_of (db : Db.t) (user sid : string) : Prop :=
  (exists s, In s (gameSessions db) /\ GameSessionRow.id s = sid /\
             GameSessionRow.userId s = user) /\
  (exists u, findUnique User.id user (users db) = Some u).

(** The games a user has completed, as GET /active reports them. *)
Definition completed (db : Db.t) (user : string) : nat :=
  match findUnique User.id user (users db) with
  | Some u => User.completedGames u
  | None => O
  end.

(** A text made of characters of the alphabet of the share codes. *)
Definition of_alphabet (code : string) : Prop :=
  Forall (fun c => In c (Js.chars ShareRoutes.alphabet)) (Js.chars code).

(** A session row without its lump-sum rake. *)
Definition without_rake (s : GameSessionRow.t) : GameSessionRow.t :=
  GameSessionRow.mk (GameSessionRow.id s) (GameSessionRow.userId s)
    (GameSessionRow.isActive s) 0 (GameSessionRow.startedAt s)
    (GameSessionRow.endedAt s) (GameSessionRow.currency s)
    (GameSessionRow.language s) (GameSessionRow.shareCode s)
    (GameSessionRow.shareCodeExpiresAt s).

End Integrity.

(** ** A sample database

    The host (user u1) runs the sample night as game g1, with one
    member (u2); an older game of the host has ended, and a third user
    (u3) runs a game of their own. *)

Module Club.
Import Examples.
Local Open Scope string_scope.

Definition old_game : GameSessionRow.t :=
  GameSessionRow.mk "g0" "u1" false 50 0 (Some 500%Z) "USD" "en" None None.
Definition host_game : GameSessionRow.t :=
  GameSessionRow.mk "g1" "u1" true 0 1000 None "USD" "en"
    (Some "ABC234") (Some 90000000%Z).
Definition other_game : GameSessionRow.t :=
  GameSessionRow.mk "g2" "u3" true 0 1500 None "EUR" "de" None None.

Definition other_down : DealerDown.t :=
  DealerDown.mk "d9" "Dee" 15 5 false false "g2".

Definition tables : Db.t :=
  Db.mk [User.mk "u1" 1; User.mk "u2" 0; User.mk "u3" 0]
    [old_game; host_game; other_game]
    [GameSessionMember.mk "u2" "g1" "editor"]
    (map (InSession.mk "g1") (GameSession.playerTransactions night))
    (GameSession.dealerDowns night ++ [other_down])
    [InSession.mk "g1" pizza].

Definition clock : App.Env := App.mkEnv 2000 "n1" (fun _ => 0).


(** A collaborator whose answer has the shape that the system prompt
    asks for. *)
Definition careful_causes : list Analyzer.TillAnalysisCause :=
  [Analyzer.mkCause "A cashout was entered twice" Analyzer.High (Some 300)
     None].
Definition careful_reviews : list Analyzer.TransactionToReview :=
  [Analyzer.mkReview "t4" "Ann" "cashout" 300 "cash" JsValue.JNull
     "Entered twice?"].
Definition careful_collaborator
  (_ : Analyzer.CollaboratorRequest) : Analyzer.CollaboratorReply :=
  Analyzer.Parsed
    (Wire.answer_json "Count again" careful_causes careful_reviews
       ["Recount the till"]).

End Club.

(** ** The numbers of the language: IEEE 754 binary64

    A number of the routes is a double.  Sums and differences round to
    the nearest double, ties to even; the operations are those of the
    specification of floating-point arithmetic of the standard
    library, at precision 53 and maximal exponent 1024. *)

Module Binary64.

Definition double : Type := spec_float.

Definition prec : Z := 53.
Definition emax : Z := 1024.

(** The literal [0]. *)
Definition zero : double := S754_zero false.

Definition NaN : double := S754_nan.

(** [a + b] and [a - b]. *)
Definition add (a b : double) : double := SFadd prec emax a b.
Definition sub (a b : double) : double := SFsub prec emax a b.

(** [a > b]: false when one of them is NaN. *)
Definition gt (a b : double) : bool := SFltb b a.

(** [Math.max(a, b)]: NaN when one of them is NaN, and +0 is larger
    than -0. *)
Definition Math_max (a b : double) : double :=
  match SFcompare a b with
  | None => NaN
  | Some Lt => b
  | Some Gt => a
  | Some Eq => match a with
               | S754_zero true => b
               | _ => a
               end
  end.

(** The double nearest to the quotient of two positive integers. *)
Definition nearest (negative : bool) (p q : positive) : double :=
  let '(m, e, l) := SFdiv_core_binary prec emax (Zpos p) 0 (Zpos q) 0 in
  binary_round_aux prec emax negative m e l.

(** The double a decimal number stands for: what [JSON.parse] and
    [parseFloat] make of its digits, and what a DOUBLE PRECISION column
    keeps of it. *)
Definition of_Q (q : Q) : double :=
  match Qnum q with
  | Z0 => zero
  | Zpos p => nearest false p (Qden q)
  | Zneg p => nearest true p (Qden q)
  end.

End Binary64.

(** ** The summary in doubles

    The figures of GET /api/game/:sessionId/summary as the route
    computes them, in doubles.  The rows are those of [GameSession]:
    the amount of a row stands for its double. *)

Module Summary64.
Import Js Regex Binary64.

Definition is_buy_in := Summary.is_buy_in.
Definition is_cashout := Summary.is_cashout.
Definition pays_with := Summary.pays_with.
Definition truthy_notes := Summary.truthy_notes.
Definition notes_include := Summary.notes_include.
Definition notes_match := Summary.notes_match.

(** [t.amount], [d.tips], [d.rake], [e.amount] and [session.totalRake]. *)
Definition amount (t : PlayerTransaction.t) : double :=
  of_Q (PlayerTransaction.amount t).
Definition tips (d : DealerDown.t) : double := of_Q (DealerDown.tips d).
Definition rake (d : DealerDown.t) : double := of_Q (DealerDown.rake d).
Definition expense_amount (e : Expense.t) : double := of_Q (Expense.amount e).
Definition session_totalRake (session : GameSession.t) : double :=
  of_Q (GameSession.totalRake session).

(** [parseFloat(m[1])]. *)
Definition parsed (m : MatchResult) : double :=
  of_Q (parseFloat (group1_text m)).

Definition totalBuyIns (session : GameSession.t) : double :=
  reduce (fun sum t => add sum (amount t)) zero
    (filter is_buy_in (GameSession.playerTransactions session)).

Definition totalCashouts (session : GameSession.t) : double :=
  reduce (fun sum t => add sum (amount t)) zero
    (filter is_cashout (GameSession.playerTransactions session)).

Definition totalTips (session : GameSession.t) : double :=
  reduce (fun sum d => add sum (tips d)) zero
    (GameSession.dealerDowns session).

Definition totalRake (session : GameSession.t) : double :=
  if gt (session_totalRake session) zero
  then session_totalRake session
  else reduce (fun sum d => add sum (rake d)) zero
         (GameSession.dealerDowns session).

Definition totalExpenses (session : GameSession.t) : double :=
  reduce (fun sum e => add sum (expense_amount e)) zero
    (GameSession.expenses session).

Definition totalPaidTips (session : GameSession.t) : double :=
  reduce (fun sum d => add sum (tips d)) zero
    (filter DealerDown.tipsPaid (GameSession.dealerDowns session)).

Definition netProfit (session : GameSession.t) : double :=
  sub (totalRake session) (totalExpenses session).

Definition cashBuyIns (session : GameSession.t) : double :=
  reduce (fun sum t => add sum (amount t)) zero
    (filter (fun t => is_buy_in t && pays_with Cash t)
       (GameSession.playerTransactions session)).

(** The callback of the [cashCashouts] reduction. *)
Definition cashCashoutsStep (sum : double) (t : PlayerTransaction.t) : double :=
  if truthy_notes (PlayerTransaction.notes t)
  then
    match notes_match (PlayerTransaction.notes t) re_received_cash with
    | Some newMatch => add sum (parsed newMatch)
    | None =>
        match notes_match (PlayerTransaction.notes t) re_cash_paid with
        | Some oldMatch => add sum (parsed oldMatch)
        | None => add sum (amount t)
        end
    end
  else add sum (amount t).

Definition cashCashouts (session : GameSession.t) : double :=
  reduce cashCashoutsStep zero
    (filter (fun t => is_cashout t && pays_with Cash t)
       (GameSession.playerTransactions session)).

Definition mentions_credit_settlement := Summary.mentions_credit_settlement.

(** The callback of the [autoSettledCredit] reduction. *)
Definition autoSettledCreditStep (sum : double) (t : PlayerTransaction.t)
  : double :=
  match notes_match (PlayerTransaction.notes t) re_credit_settled with
  | Some oldMatch => add sum (parsed oldMatch)
  | None =>
      add sum match notes_match (PlayerTransaction.notes t) re_paid_credit with
              | Some newMatch => parsed newMatch
              | None => zero
              end
  end.

Definition autoSettledCredit (session : GameSession.t) : double :=
  reduce autoSettledCreditStep zero
    (filter mentions_credit_settlement
       (GameSession.playerTransactions session)).

Definition paidCreditBuyIns (session : GameSession.t) : double :=
  reduce (fun sum t => add sum (amount t)) zero
    (filter (fun t => is_buy_in t && pays_with Credit t
                      && Bool.eqb (PlayerTransaction.isPaid t) true)
       (GameSession.playerTransactions session)).

Definition manuallyPaidCredit (session : GameSession.t) : double :=
  Math_max zero (sub (paidCreditBuyIns session) (autoSettledCredit session)).

(** [cashBuyIns + manuallyPaidCredit - cashCashouts - totalPaidTips -
    totalExpenses], as a function of its five terms. *)
Definition till (cashBuyIns manuallyPaidCredit cashCashouts totalPaidTips
                 totalExpenses : double) : double :=
  sub (sub (sub (add cashBuyIns manuallyPaidCredit) cashCashouts)
         totalPaidTips)
    totalExpenses.

Definition tillBalance (session : GameSession.t) : double :=
  till (cashBuyIns session) (manuallyPaidCredit session) (cashCashouts session)
    (totalPaidTips session) (totalExpenses session).

(** [playerCreditMap], in insertion order. *)
Record CreditEntry : Type := mkEntry { buyIns : double; cashouts : double }.

Definition CreditMap : Type := list (string * CreditEntry).

Fixpoint Map_get (m : CreditMap) (key : string) : option CreditEntry :=
  match m with
  | [] => None
  | (k, v) :: m' => if String.eqb k key then Some v else Map_get m' key
  end.

Fixpoint Map_set (m : CreditMap) (key : string) (v : CreditEntry) : CreditMap :=
  match m with
  | [] => [(key, v)]
  | (k, v0) :: m' =>
      if String.eqb k key then (k, v) :: m' else (k, v0) :: Map_set m' key v
  end.

(** The body of [session.playerTransactions.forEach]. *)
Definition creditMapStep (m : CreditMap) (t : PlayerTransaction.t) : CreditMap :=
  if pays_with Credit t
  then
    let existing :=
      match Map_get m (PlayerTransaction.playerName t) with
      | Some e => e
      | None => mkEntry zero zero
      end in
    let existing' :=
      if is_buy_in t && negb (PlayerTransaction.isPaid t)
      then mkEntry (add (buyIns existing) (amount t)) (cashouts existing)
      else if is_cashout t
      then mkEntry (buyIns existing) (add (cashouts existing) (amount t))
      else existing in
    Map_set m (PlayerTransaction.playerName t) existing'
  else m.

Definition playerCreditMap (session : GameSession.t) : CreditMap :=
  fold_left creditMapStep (GameSession.playerTransactions session) [].

Definition creditBalance (session : GameSession.t) : double :=
  fold_left
    (fun creditBalance entry =>
       let netOwed :=
         Math_max zero (sub (buyIns (snd entry)) (cashouts (snd entry))) in
       add creditBalance netOwed)
    (playerCreditMap session) zero.

Definition playerCount := Summary.playerCount.

End Summary64.

(** ** The expected till of the analyzer in doubles *)

Module Analyzer64.
Import Js Regex Binary64.

Definition is_buy_in := Summary.is_buy_in.
Definition is_cashout := Summary.is_cashout.
Definition pays_with := Summary.pays_with.
Definition truthy_notes := Summary.truthy_notes.
Definition notes_match := Summary.notes_match.
Definition amount := Summary64.amount.
Definition tips := Summary64.tips.
Definition rake := Summary64.rake.
Definition expense_amount := Summary64.expense_amount.

(** [parseFloat(m[1])] after the test of [m?.[1]]. *)
Definition parsed (m : option MatchResult) : double :=
  of_Q (parseFloat (Analyzer.match_group1 m)).

Definition cashBuyIns (session : GameSession.t) : double :=
  reduce (fun sum t => add sum (amount t)) zero
    (filter (fun t => is_buy_in t && pays_with Cash t)
       (GameSession.playerTransactions session)).

Definition cashCashoutsStep (sum : double) (t : PlayerTransaction.t) : double :=
  if truthy_notes (PlayerTransaction.notes t)
  then
    let newMatch := notes_match (PlayerTransaction.notes t) re_received_cash in
    if group1_truthy newMatch then add sum (parsed newMatch)
    else
      let oldMatch := notes_match (PlayerTransaction.notes t) re_cash_paid in
      if group1_truthy oldMatch then add sum (parsed oldMatch)
      else add sum (amount t)
  else add sum (amount t).

Definition cashCashouts (session : GameSession.t) : double :=
  reduce cashCashoutsStep zero
    (filter (fun t => is_cashout t && pays_with Cash t)
       (GameSession.playerTransactions session)).

Definition autoSettledCreditStep (sum : double) (t : PlayerTransaction.t)
  : double :=
  let oldMatch := notes_match (PlayerTransaction.notes t) re_credit_settled in
  if group1_truthy oldMatch then add sum (parsed oldMatch)
  else
    let newMatch := notes_match (PlayerTransaction.notes t) re_paid_credit in
    add sum (if group1_truthy newMatch then parsed newMatch else zero).

Definition autoSettledCredit (session : GameSession.t) : double :=
  reduce autoSettledCreditStep zero
    (filter Analyzer.mentions_credit_settlement
       (GameSession.playerTransactions session)).

Definition paidCreditBuyIns (session : GameSession.t) : double :=
  reduce (fun sum t => add sum (amount t)) zero
    (filter (fun t => is_buy_in t && pays_with Credit t
                      && Bool.eqb (PlayerTransaction.isPaid t) true)
       (GameSession.playerTransactions session)).

Definition manuallyPaidCredit (session : GameSession.t) : double :=
  Math_max zero (sub (paidCreditBuyIns session) (autoSettledCredit session)).

Definition totalPaidTips (session : GameSession.t) : double :=
  reduce (fun sum d => add sum (tips d)) zero
    (filter DealerDown.tipsPaid (GameSession.dealerDowns session)).

Definition totalClaimedRake (session : GameSession.t) : double :=
  reduce (fun sum d => add sum (rake d)) zero
    (filter DealerDown.rakeClaimed (GameSession.dealerDowns session)).

Definition totalExpenses (session : GameSession.t) : double :=
  reduce (fun sum e => add sum (expense_amount e)) zero
    (GameSession.expenses session).

(** [cashBuyIns + manuallyPaidCredit - cashCashouts - totalPaidTips -
    totalClaimedRake - totalExpenses], as a function of its six terms. *)
Definition expected (cashBuyIns manuallyPaidCredit cashCashouts totalPaidTips
                     totalClaimedRake totalExpenses : double) : double :=
  sub (sub (sub (sub (add cashBuyIns manuallyPaidCredit) cashCashouts)
              totalPaidTips)
         totalClaimedRake)
    totalExpenses.

Definition expectedTill (session : GameSession.t) : double :=
  expected (cashBuyIns session) (manuallyPaidCredit session)
    (cashCashouts session) (totalPaidTips session) (totalClaimedRake session)
    (totalExpenses session).

End Analyzer64.

(** ** Sessions with amounts in tenths *)

Module Tenths.
Local Open Scope string_scope.



(** Three cash buy-ins of 0.1, 0.2 and 0.3, and the same rows in the
    opposite order. *)
Definition three_buy_ins : GameSession.t :=
  GameSession.mk "g6" "u1" 0
    [PlayerTransaction.mk "t1" "Ann" BuyIn (1 # 10) Cash None true;
     PlayerTransaction.mk "t2" "Bob" BuyIn (2 # 10) Cash None true;
     PlayerTransaction.mk "t3" "Cy" BuyIn (3 # 10) Cash None true]
    [] [].

Definition three_buy_ins_reversed : GameSession.t :=
  GameSession.mk "g6" "u1" 0
    (rev (GameSession.playerTransactions three_buy_ins)) [] [].

(** A credit buy-in of 100 that is paid, and a cashout whose note
    gives the credit it settled with one fraction digit. *)
Definition bob_pays_his_credit : PlayerTransaction.t :=
  PlayerTransaction.mk "t1" "Bob" BuyIn 100 Credit None true.
Definition bob_settles_a_half : PlayerTransaction.t :=
  PlayerTransaction.mk "t2" "Bob" Cashout 50 Cash
    (Some "credit settled: $12.5") true.
Definition bob_settles_a_half_too : PlayerTransaction.t :=
  PlayerTransaction.mk "t3" "Bob" Cashout 50 Cash
    (Some "paid $12.5 credit") true.
Definition half_settled : GameSession.t :=
  GameSession.mk "g7" "u1" 0 [bob_pays_his_credit; bob_settles_a_half] [] [].

End Tenths.

(* ================================================================== *)
(** * Part II: properties *)
(* ================================================================== *)

Import Js Regex JsValue Spec Denotation Examples.

(** ** The built-ins on a few inputs *)

Example match_new_format :
  String_match "received $12.34 cash" re_received_cash
  = Some (mkMatch (chars "received $12.34 cash") (Some (chars "12.34"))).
Proof. reflexivity. Qed.

Example match_is_leftmost :
  option_map group1
    (String_match "received $x cash, received $7 cash, received $8 cash"
       re_received_cash)
  = Some (Some (chars "7")).
Proof. reflexivity. Qed.

Example no_match_with_three_fraction_digits :
  String_match "received $12.345 cash" re_received_cash = None.
Proof. reflexivity. Qed.

Example match_takes_fraction_when_there :
  option_map group1 (String_match "credit settled: $400.00" re_credit_settled)
  = Some (Some (chars "400.00")) /\
  option_map group1 (String_match "credit settled: $400.5" re_credit_settled)
  = Some (Some (chars "400")).
Proof. split; reflexivity. Qed.

Example parseFloat_examples :
  parseFloat (chars "150") == 150 /\ parseFloat (chars "250.50") == 250.5 /\
  parseFloat (chars "007") == 7.
Proof. repeat split. Qed.

Example includes_examples :
  includes (chars "Auto-settled (cash paid: $250.50)") (chars "paid $") = false /\
  includes (chars "received $150 cash, paid $150 credit") (chars "paid $") = true.
Proof. split; reflexivity. Qed.

Example Number_toString_examples :
  map Number_toString [0; 100; 12.5; -0.5; 0.000001; 0.0000001]
  = ["0"; "100"; "12.5"; "-0.5"; "0.000001"; "1e-7"]%string /\
  Number_toString (inject_Z (10 ^ 21)) = "1e+21"%string.
Proof. split; reflexivity. Qed.

Example toFixed2_examples :
  map toFixed2 [0; 5; 12.5; 0.005; 0.004; 320.5; 99.995]
  = ["0.00"; "5.00"; "12.50"; "0.01"; "0.00"; "320.50"; "100.00"]%string.
Proof. reflexivity. Qed.

Example ToString_examples :
  ToString (JArray [JNumber 1; JNull; JArray [JString "a"; JBool true]; JObject []])
  = Ok "1,,a,true,[object Object]"%string /\
  ToString (JObject [("toString"%string, JNumber 1)]) = Throw /\
  ToString JNull = Ok "null"%string.
Proof. repeat split. Qed.

Example summary_of_the_sample_night :
  Summary.s_totalBuyIns (Summary.summary night) == 1200 /\
  Summary.s_totalCashouts (Summary.summary night) == 1000 /\
  Summary.s_totalTips (Summary.summary night) == 125 /\
  Summary.s_totalRake (Summary.summary night) == 160 /\
  Summary.s_netProfit (Summary.summary night) == 130 /\
  Summary.s_tillBalance (Summary.summary night) == -220.5 /\
  Summary.s_playerCount (Summary.summary night) = 4%nat /\
  Summary.s_creditBalance (Summary.summary night) == 500.
Proof. repeat split. Qed.

(** ** Sums *)

Section Sums.
Context {A : Type}.

Lemma fold_left_total (g : Q -> A -> Q) (f : A -> Q) :
  (forall s x, g s x == s + f x) ->
  forall l a, fold_left g l a == a + total f l.
Proof.
  intros Hg l; induction l as [|x l IH]; intros a; simpl.
  - ring.
  - rewrite IH, Hg. ring.
Qed.

Lemma reduce_total (g : Q -> A -> Q) (f : A -> Q) (l : list A) :
  (forall s x, g s x == s + f x) ->
  reduce g 0 l == total f l.
Proof.
  intros Hg. unfold reduce. rewrite (fold_left_total g f Hg). ring.
Qed.

Lemma reduce_add_total (f : A -> Q) (l : list A) :
  reduce (fun sum x => sum + f x) 0 l == total f l.
Proof. apply reduce_total. intros; reflexivity. Qed.

Lemma total_filter (p : A -> bool) (f : A -> Q) (l : list A) :
  total f (filter p l) == total_if p f l.
Proof.
  unfold total_if. induction l as [|x l IH]; simpl; [reflexivity|].
  destruct (p x); simpl; rewrite IH; ring.
Qed.

Lemma total_ext (f g : A -> Q) (l : list A) :
  (forall x, In x l -> f x == g x) -> total f l == total g l.
Proof.
  induction l as [|x l IH]; intros H; simpl; [reflexivity|].
  rewrite (H x (or_introl eq_refl)), IH; [reflexivity|].
  intros y Hy. apply H. now right.
Qed.

Lemma total_perm (f : A -> Q) (l l' : list A) :
  Permutation l l' -> total f l == total f l'.
Proof.
  induction 1; simpl.
  - reflexivity.
  - rewrite IHPermutation. reflexivity.
  - ring.
  - now rewrite IHPermutation1.
Qed.

Lemma total_nonneg (f : A -> Q) (l : list A) :
  (forall x, 0 <= f x) -> 0 <= total f l.
Proof.
  intros H. induction l as [|x l IH]; cbn [total]; [lra|].
  specialize (H x). lra.
Qed.

Lemma reduce_filter_total (p : A -> bool) (f : A -> Q) (l : list A) :
  reduce (fun sum x => sum + f x) 0 (filter p l) == total_if p f l.
Proof. rewrite reduce_add_total. apply total_filter. Qed.

End Sums.

Lemma Math_max_0_nonneg (x : Q) : 0 <= Math_max 0 x.
Proof. unfold Math_max. apply Q.le_max_l. Qed.

Lemma Math_max_0_cases (x : Q) :
  (x <= 0 /\ Math_max 0 x == 0) \/ (0 < x /\ Math_max 0 x == x).
Proof.
  unfold Math_max.
  destruct (Q.max_spec 0 x) as [[H E]|[H E]]; [right|left]; split; auto.
Qed.

#[global] Instance Math_max_Proper : Proper (Qeq ==> Qeq ==> Qeq) Math_max.
Proof. intros a b H c d H'. unfold Math_max. now rewrite H, H'. Qed.

(** ** The matcher and what it finds *)

Lemma strip_prefix_app (l s : list ascii) : strip_prefix l (l ++ s) = Some s.
Proof.
  induction l as [|a l IH]; simpl; [reflexivity|].
  now rewrite Ascii.eqb_refl.
Qed.

Lemma strip_prefix_Some (l s s' : list ascii) :
  strip_prefix l s = Some s' -> s = l ++ s'.
Proof.
  revert s; induction l as [|a l IH]; intros s H; simpl in *.
  - now inversion H.
  - destruct s as [|b s]; [discriminate|].
    destruct (Ascii.eqb_spec a b) as [->|]; [|discriminate].
    now rewrite (IH _ H).
Qed.

Lemma firstn_consumed {A : Type} (pre rest : list A) :
  firstn (length (pre ++ rest) - length rest) (pre ++ rest) = pre.
Proof.
  rewrite length_app, Nat.add_sub.
  rewrite firstn_app, Nat.sub_diag, firstn_all. simpl. apply app_nil_r.
Qed.

Lemma digits_star_sound {R : Type} (s : list ascii)
  (k : list ascii -> option R) (x : R) :
  digits_star s k = Some x ->
  exists ds s', s = ds ++ s' /\ all_digits ds /\ k s' = Some x.
Proof.
  induction s as [|c s IH]; simpl; intros H.
  - exists [], []. repeat split; [constructor | exact H].
  - destruct (is_digit c) eqn:Hc.
    + destruct (digits_star s k) as [y|] eqn:Hs.
      * inversion H; subst y.
        destruct (IH eq_refl) as (ds & s' & -> & Hds & Hk).
        exists (c :: ds), s'. repeat split; [constructor; assumption | exact Hk].
      * exists [], (c :: s). repeat split; [constructor | exact H].
    + exists [], (c :: s). repeat split; [constructor | exact H].
Qed.

(** Every answer of the matcher comes from a match of the pattern. *)
Lemma run_sound {R : Type} (r : regex) :
  forall (s : list ascii) (cap : option (list ascii))
         (k : list ascii -> option (list ascii) -> option R) (x : R),
    run r s cap k = Some x ->
    exists s' cap', matches r s cap s' cap' /\ k s' cap' = Some x.
Proof.
  induction r as [l| | |r1 IH1 r2 IH2|r1 IH1|r1 IH1]; intros s cap k x H; simpl in H.
  - destruct (strip_prefix l s) as [s'|] eqn:Hp; [|discriminate].
    apply strip_prefix_Some in Hp; subst s.
    exists s', cap. split; [constructor | exact H].
  - destruct s as [|c s]; [discriminate|].
    destruct (is_digit c) eqn:Hc; [|discriminate].
    exists s, cap. split; [now constructor | exact H].
  - destruct s as [|c s]; [discriminate|].
    destruct (is_digit c) eqn:Hc; [|discriminate].
    apply digits_star_sound in H. destruct H as (ds & s' & -> & Hds & Hk).
    exists s', cap. split; [|exact Hk].
    apply (M_Digits1 (c :: ds)); [discriminate | constructor; assumption].
  - apply IH1 in H. destruct H as (s1 & cap1 & M1 & H).
    apply IH2 in H. destruct H as (s2 & cap2 & M2 & H).
    exists s2, cap2. split; [econstructor; eassumption | exact H].
  - destruct (run r1 s cap k) as [y|] eqn:Hr.
    + inversion H; subst y.
      apply IH1 in Hr. destruct Hr as (s' & cap' & M & Hk).
      exists s', cap'. split; [now apply M_Opt_some | exact Hk].
    + exists s, cap. split; [apply M_Opt_none | exact H].
  - apply IH1 in H. destruct H as (s' & cap' & M & Hk).
    eexists _, _. split; [eapply M_Group; eassumption | exact Hk].
Qed.

Lemma matches_consumes (r : regex) s cap s' cap' :
  matches r s cap s' cap' -> exists pre, s = pre ++ s'.
Proof.
  induction 1.
  - now exists l.
  - now exists [c].
  - now exists ds.
  - destruct IHmatches1 as [p1 ->], IHmatches2 as [p2 ->].
    exists (p1 ++ p2). now rewrite app_assoc.
  - assumption.
  - now exists [].
  - assumption.
Qed.

Lemma matches_amount_group s cap s' cap' :
  matches amount_group s cap s' cap' ->
  exists a, is_amount a /\ s = a ++ s' /\ cap' = Some a.
Proof.
  unfold amount_group. intros H.
  inversion H as [| | | | | |r0 s0 cap0 s0' cap0' Hin]; subst; clear H.
  assert (exists a, is_amount a /\ s = a ++ s') as (a & Ha & ->).
  { inversion Hin as [| | |r1 r2 s0 c0 s1 c1 s2 c2 HD HO| | |]; subst; clear Hin.
    inversion HD as [| |ds t c Hne Hds| | | |]; subst; clear HD.
    inversion HO as [| | | |r0 s0 c0 s0' c0' HF|r0 s0 c0|]; subst; clear HO.
    - inversion HF as [| | |r1 r2 s0 c0 s1' c1' s2 c2 HL HDD| | |]; subst; clear HF.
      inversion HL; subst; clear HL.
      inversion HDD as [| | |r1 r2 s0 c0 s3 c3 s4 c4 H1 H2| | |]; subst; clear HDD.
      inversion H1; subst; clear H1. inversion H2; subst; clear H2.
      exists (ds ++ ["."%char; c; c0]). split.
      + exists ds. repeat split; try assumption. right. now exists c, c0.
      + now rewrite <- app_assoc.
    - exists ds. split; [|reflexivity].
      exists ds. repeat split; try assumption. now left. }
  exists a. repeat split; [assumption|]. now rewrite firstn_consumed.
Qed.

Lemma match_at_between_sound before after s m :
  match_at (between before after) s = Some m ->
  exists a post,
    is_amount a /\ s = before ++ a ++ after ++ post /\
    m = mkMatch (before ++ a ++ after) (Some a).
Proof.
  unfold match_at. intros H. apply run_sound in H.
  destruct H as (s' & cap' & M & Hm).
  inversion M as [| | |r1 r2 s0 c0 s1 c1 s2 c2 HL HR| | |]; subst; clear M.
  inversion HL; subst; clear HL.
  inversion HR as [| | |r1 r2 s0 c0 s3 c3 s4 c4 HA HT| | |]; subst; clear HR.
  apply matches_amount_group in HA. destruct HA as (a & Ha & -> & ->).
  inversion HT; subst; clear HT.
  exists a, s'. repeat split; [assumption|].
  inversion Hm; subst; clear Hm. f_equal.
  replace (before ++ a ++ after ++ s') with ((before ++ a ++ after) ++ s')
    by now rewrite <- !app_assoc.
  apply firstn_consumed.
Qed.

Lemma match_at_after_sound before s m :
  match_at (Cat (Lit before) amount_group) s = Some m ->
  exists a post,
    is_amount a /\ s = before ++ a ++ post /\
    m = mkMatch (before ++ a) (Some a).
Proof.
  unfold match_at. intros H. apply run_sound in H.
  destruct H as (s' & cap' & M & Hm).
  inversion M as [| | |r1 r2 s0 c0 s1 c1 s2 c2 HL HR| | |]; subst; clear M.
  inversion HL; subst; clear HL.
  apply matches_amount_group in HR. destruct HR as (a & Ha & -> & ->).
  exists a, s'. repeat split; [assumption|].
  inversion Hm; subst; clear Hm. f_equal.
  replace (before ++ a ++ s') with ((before ++ a) ++ s')
    by now rewrite <- !app_assoc.
  apply firstn_consumed.
Qed.
Lemma digits_star_stop {R : Type} (ds tail : list ascii)
  (k : list ascii -> option R) (x : R) :
  all_digits ds ->
  match tail with [] => True | h :: _ => is_digit h = false end ->
  k tail = Some x ->
  digits_star (ds ++ tail) k = Some x.
Proof.
  intros Hds Ht Hk. induction Hds as [|c ds Hc Hds IH]; cbn [app digits_star].
  - destruct tail as [|h tail]; [exact Hk|]. cbn [digits_star]. now rewrite Ht.
  - now rewrite Hc, IH.
Qed.

Lemma firstn_consumed_eq {A : Type} (pre rest s : list A) :
  s = pre ++ rest -> firstn (length s - length rest) s = pre.
Proof. intros ->. apply firstn_consumed. Qed.

Lemma run_Digits1_stop {R : Type} (ds tail : list ascii) cap
  (k : list ascii -> option (list ascii) -> option R) (x : R) :
  ds <> [] -> all_digits ds ->
  match tail with [] => True | h :: _ => is_digit h = false end ->
  k tail cap = Some x ->
  run Digits1 (ds ++ tail) cap k = Some x.
Proof.
  intros Hne Hds Ht Hk. destruct ds as [|d ds]; [contradiction|].
  inversion Hds as [|? ? Hd Hds']; subst.
  cbn [run app]. rewrite Hd. now apply digits_star_stop.
Qed.

Section RunEquations.
Context {R : Type}.
Implicit Types (s : list ascii) (cap : option (list ascii))
  (k : list ascii -> option (list ascii) -> option R).

Lemma run_Cat r1 r2 s cap k :
  run (Cat r1 r2) s cap k = run r1 s cap (fun s' cap' => run r2 s' cap' k).
Proof. reflexivity. Qed.

Lemma run_Group r s cap k :
  run (Group r) s cap k
  = run r s cap (fun s' _ => k s' (Some (firstn (length s - length s') s))).
Proof. reflexivity. Qed.

Lemma run_Opt r s cap k :
  run (Opt r) s cap k
  = match run r s cap k with Some x => Some x | None => k s cap end.
Proof. reflexivity. Qed.

Lemma run_Lit_app l s cap k : run (Lit l) (l ++ s) cap k = k s cap.
Proof. cbn [run]. now rewrite strip_prefix_app. Qed.

Lemma run_Lit_mismatch a l b s cap k :
  a <> b -> run (Lit (a :: l)) (b :: s) cap k = None.
Proof.
  intros H. cbn [run strip_prefix].
  destruct (Ascii.eqb_spec a b); [contradiction | reflexivity].
Qed.

Lemma run_Digit_cons c s cap k :
  is_digit c = true -> run Digit (c :: s) cap k = k s cap.
Proof. intros H. cbn [run]. now rewrite H. Qed.
End RunEquations.

(** After an amount that is followed by [after] (which starts with
    neither a digit nor the point), the group and the literal go through
    to the continuation with the amount captured. *)
Lemma run_amount_then_lit {R : Type} (a after post : list ascii) h after' cap
  (k : list ascii -> option (list ascii) -> option R) (x : R) :
  after = h :: after' -> is_digit h = false -> h <> "."%char ->
  is_amount a ->
  k post (Some a) = Some x ->
  run (Cat amount_group (Lit after)) (a ++ after ++ post) cap k = Some x.
Proof.
  intros Hafter Hh Hdot (ds & Hne & Hds & Ha) Hk.
  unfold amount_group. rewrite run_Cat, run_Group, run_Cat.
  destruct Ha as [->|(d1 & d2 & H1 & H2 & ->)].
  - apply run_Digits1_stop; [assumption | assumption | now subst after |].
    rewrite run_Opt, run_Cat.
    replace (run (Lit (chars ".")) (after ++ post) cap _) with (@None R)
      by (subst after; symmetry; apply run_Lit_mismatch; congruence).
    rewrite run_Lit_app.
    rewrite (firstn_consumed_eq ds (after ++ post)) by reflexivity.
    exact Hk.
  - rewrite <- app_assoc.
    apply run_Digits1_stop; [assumption | assumption | reflexivity |].
    rewrite run_Opt, run_Cat.
    change (["."%char; d1; d2] ++ after ++ post)
      with (chars "." ++ d1 :: d2 :: after ++ post).
    rewrite run_Lit_app, run_Cat, run_Digit_cons, run_Digit_cons by assumption.
    rewrite run_Lit_app.
    rewrite (firstn_consumed_eq (ds ++ ["."%char; d1; d2]) (after ++ post))
      by now rewrite <- app_assoc.
    now rewrite Hk.
Qed.

(** At a position where [before], an amount and [after] stand, the
    matcher answers with that amount. *)
Lemma match_at_between_complete before after a post h after' :
  after = h :: after' -> is_digit h = false -> h <> "."%char ->
  is_amount a ->
  match_at (between before after) (before ++ a ++ after ++ post)
  = Some (mkMatch (before ++ a ++ after) (Some a)).
Proof.
  intros Hafter Hh Hdot Ha.
  unfold match_at, between. cbn [run].
  rewrite strip_prefix_app.
  apply (run_amount_then_lit a after post h after'); try assumption.
  f_equal. f_equal. apply firstn_consumed_eq. now rewrite <- !app_assoc.
Qed.
(** *** The leftmost match *)

Lemma search_skip (r : regex) (pre rest : list ascii) :
  (forall pre1 rest1, pre = pre1 ++ rest1 -> rest1 <> [] ->
                      match_at r (rest1 ++ rest) = None) ->
  search r (pre ++ rest) = search r rest.
Proof.
  induction pre as [|c pre IH]; intros H; [reflexivity|].
  cbn [app search].
  pose proof (H [] (c :: pre) eq_refl ltac:(discriminate)) as E.
  cbn [app] in E. rewrite E.
  apply IH. intros pre1 rest1 -> Hne.
  apply (H (c :: pre1) rest1); [reflexivity | assumption].
Qed.

Lemma search_here (r : regex) (s : list ascii) (m : MatchResult) :
  match_at r s = Some m -> search r s = Some m.
Proof. intros H. destruct s; cbn [search]; now rewrite H. Qed.

Lemma search_Some_inv (r : regex) (s : list ascii) (m : MatchResult) :
  search r s = Some m ->
  exists pre rest, s = pre ++ rest /\ match_at r rest = Some m.
Proof.
  induction s as [|c s IH]; cbn [search]; intros H.
  - destruct (match_at r []) eqn:E; [|discriminate].
    inversion H; subst. exists [], []. now split.
  - destruct (match_at r (c :: s)) eqn:E.
    + inversion H; subst. exists [], (c :: s). now split.
    + destruct (IH H) as (pre & rest & -> & Hm).
      exists (c :: pre), rest. now split.
Qed.

Lemma search_None_inv (r : regex) (s : list ascii) :
  search r s = None ->
  forall pre rest, s = pre ++ rest -> match_at r rest = None.
Proof.
  induction s as [|c s IH]; cbn [search]; intros H pre rest E.
  - destruct pre; [|discriminate]. cbn in E; subst rest.
    destruct (match_at r []); [discriminate | reflexivity].
  - destruct (match_at r (c :: s)) eqn:Em; [discriminate|].
    destruct pre as [|c' pre]; cbn in E.
    + now subst rest.
    + inversion E; subst. now apply (IH H pre).
Qed.

Lemma search_between_first before after n pre a :
  ends_amount after ->
  first_occurrence before after n pre a ->
  search (between before after) n
  = Some (mkMatch (before ++ a ++ after) (Some a)).
Proof.
  intros (h & after' & Hafter & Hh & Hdot) [[Ha [post ->]] Hfirst].
  rewrite search_skip.
  - apply search_here.
    now apply (match_at_between_complete before after a post h after').
  - intros pre1 rest1 -> Hne.
    destruct (match_at (between before after)
                (rest1 ++ before ++ a ++ after ++ post)) as [m|] eqn:E;
      [|reflexivity].
    apply match_at_between_sound in E.
    destruct E as (a' & post' & Ha' & E & _).
    assert (Hocc : occurs_at before after
                     ((pre1 ++ rest1) ++ before ++ a ++ after ++ post) pre1 a').
    { split; [assumption|]. exists post'. now rewrite <- app_assoc, E. }
    apply Hfirst in Hocc. rewrite length_app in Hocc.
    destruct rest1; [contradiction|]. cbn in Hocc. lia.
Qed.

Lemma search_between_sound before after n m :
  search (between before after) n = Some m ->
  exists pre a, occurs_at before after n pre a /\
                m = mkMatch (before ++ a ++ after) (Some a).
Proof.
  intros H. apply search_Some_inv in H. destruct H as (pre & rest & -> & H).
  apply match_at_between_sound in H. destruct H as (a & post & Ha & -> & ->).
  exists pre, a. split; [|reflexivity]. split; [assumption|]. now exists post.
Qed.

Lemma search_between_none before after n :
  ends_amount after ->
  search (between before after) n = None <-> ~ occurs before after n.
Proof.
  intros (h & after' & Hafter & Hh & Hdot). split.
  - intros H (pre & a & Ha & post & E).
    pose proof (search_None_inv _ _ H pre _ E) as Hn.
    rewrite (match_at_between_complete before after a post h after') in Hn
      by assumption.
    discriminate.
  - intros H. destruct (search (between before after) n) as [m|] eqn:E;
      [|reflexivity].
    apply search_between_sound in E. destruct E as (pre & a & Hocc & _).
    exfalso. apply H. now exists pre, a.
Qed.

(** Among the occurrences there is a leftmost one. *)
Lemma search_between_finds_first before after n m :
  ends_amount after ->
  search (between before after) n = Some m ->
  exists pre a, first_occurrence before after n pre a /\
                m = mkMatch (before ++ a ++ after) (Some a).
Proof.
  intros (h & after' & Hafter & Hh & Hdot).
  revert m. induction n as [|c n IH]; intros m H; cbn [search] in H.
  - destruct (match_at (between before after) []) as [m'|] eqn:E; [|discriminate].
    inversion H; subst m'; clear H.
    apply match_at_between_sound in E. destruct E as (a & post & Ha & E & ->).
    exists [], a. split; [|reflexivity]. split.
    + split; [assumption|]. now exists post.
    + intros; cbn; lia.
  - destruct (match_at (between before after) (c :: n)) as [m'|] eqn:E.
    + inversion H; subst m'; clear H.
      apply match_at_between_sound in E. destruct E as (a & post & Ha & E & ->).
      exists [], a. split; [|reflexivity]. split.
      * split; [assumption|]. now exists post.
      * intros; cbn; lia.
    + destruct (IH m H) as (pre & a & [[Ha [post E']] Hfirst] & ->).
      exists (c :: pre), a. split; [|reflexivity]. split.
      * split; [assumption|]. exists post. cbn. now rewrite E'.
      * intros pre' a' [Ha' [post' E'']].
        destruct pre' as [|c' pre'].
        -- cbn in E''. rewrite E'' in E.
           rewrite (match_at_between_complete before after a' post' h after') in E
             by assumption.
           discriminate.
        -- cbn in E''. inversion E''; subst c'.
           assert (Hocc : occurs_at before after n pre' a').
           { split; [assumption|]. now exists post'. }
           apply Hfirst in Hocc. cbn. lia.
Qed.
Lemma ends_amount_cash : ends_amount (chars " cash").
Proof.
  exists " "%char, (chars "cash").
  split; [reflexivity | split; [reflexivity | discriminate]].
Qed.

Lemma ends_amount_paren : ends_amount (chars ")").
Proof.
  exists ")"%char, [].
  split; [reflexivity | split; [reflexivity | discriminate]].
Qed.

Lemma ends_amount_credit : ends_amount (chars " credit").
Proof.
  exists " "%char, (chars "credit").
  split; [reflexivity | split; [reflexivity | discriminate]].
Qed.

Lemma occurs_at_nonempty before after n pre a :
  occurs_at before after (chars n) pre a -> Summary.truthy_notes (Some n) = true.
Proof.
  intros [(ds & Hne & _ & Ha) [post E]].
  destruct n as [|c n]; [|reflexivity]. exfalso.
  cbn in E. symmetry in E.
  apply app_eq_nil in E. destruct E as [_ E].
  apply app_eq_nil in E. destruct E as [_ E].
  apply app_eq_nil in E. destruct E as [E _]. subst a.
  destruct Ha as [<-|(d1 & d2 & _ & _ & Ha)]; [contradiction|].
  destruct ds; discriminate.
Qed.

Lemma cashCashoutsStep_received (t : PlayerTransaction.t) n pre a sum :
  PlayerTransaction.notes t = Some n ->
  first_occurrence (chars "received $") (chars " cash") (chars n) pre a ->
  Summary.cashCashoutsStep sum t = sum + parseFloat a.
Proof.
  intros Hn Hf. unfold Summary.cashCashoutsStep. rewrite Hn.
  rewrite (occurs_at_nonempty _ _ _ _ _ (proj1 Hf)).
  unfold Summary.notes_match, String_match.
  change re_received_cash with (between (chars "received $") (chars " cash")).
  now rewrite (search_between_first _ _ _ _ _ ends_amount_cash Hf).
Qed.

Lemma cashCashoutsStep_cash_paid (t : PlayerTransaction.t) n pre a sum :
  PlayerTransaction.notes t = Some n ->
  ~ occurs (chars "received $") (chars " cash") (chars n) ->
  first_occurrence (chars "cash paid: $") (chars ")") (chars n) pre a ->
  Summary.cashCashoutsStep sum t = sum + parseFloat a.
Proof.
  intros Hn Hno Hf. unfold Summary.cashCashoutsStep. rewrite Hn.
  rewrite (occurs_at_nonempty _ _ _ _ _ (proj1 Hf)).
  unfold Summary.notes_match, String_match.
  change re_received_cash with (between (chars "received $") (chars " cash")).
  change re_cash_paid with (between (chars "cash paid: $") (chars ")")).
  rewrite (proj2 (search_between_none _ _ _ ends_amount_cash) Hno).
  now rewrite (search_between_first _ _ _ _ _ ends_amount_paren Hf).
Qed.

Lemma cashCashoutsStep_nominal (t : PlayerTransaction.t) sum :
  (forall n, PlayerTransaction.notes t = Some n ->
             ~ occurs (chars "received $") (chars " cash") (chars n) /\
             ~ occurs (chars "cash paid: $") (chars ")") (chars n)) ->
  Summary.cashCashoutsStep sum t = sum + PlayerTransaction.amount t.
Proof.
  intros H. unfold Summary.cashCashoutsStep.
  destruct (PlayerTransaction.notes t) as [n|]; [|reflexivity].
  destruct (Summary.truthy_notes (Some n)); [|reflexivity].
  destruct (H n eq_refl) as [H1 H2].
  unfold Summary.notes_match, String_match.
  change re_received_cash with (between (chars "received $") (chars " cash")).
  change re_cash_paid with (between (chars "cash paid: $") (chars ")")).
  rewrite (proj2 (search_between_none _ _ _ ends_amount_cash) H1).
  now rewrite (proj2 (search_between_none _ _ _ ends_amount_paren) H2).
Qed.

Lemma cash_equivalent_exists (t : PlayerTransaction.t) :
  exists q, cash_equivalent t q.
Proof.
  destruct (PlayerTransaction.notes t) as [n|] eqn:Hn;
    [|eexists; now apply CE_no_notes].
  destruct (search (between (chars "received $") (chars " cash")) (chars n))
    as [m|] eqn:E1.
  { apply (search_between_finds_first _ _ _ _ ends_amount_cash) in E1.
    destruct E1 as (pre & a & Hf & _).
    eexists. eapply CE_received; eassumption. }
  apply (search_between_none _ _ _ ends_amount_cash) in E1.
  destruct (search (between (chars "cash paid: $") (chars ")")) (chars n))
    as [m|] eqn:E2.
  { apply (search_between_finds_first _ _ _ _ ends_amount_paren) in E2.
    destruct E2 as (pre & a & Hf & _).
    eexists. eapply CE_cash_paid; eassumption. }
  apply (search_between_none _ _ _ ends_amount_paren) in E2.
  eexists. eapply CE_nominal; eassumption.
Qed.

Lemma cashCashoutsStep_spec (t : PlayerTransaction.t) (q sum : Q) :
  cash_equivalent t q -> Summary.cashCashoutsStep sum t = sum + q.
Proof.
  intros [n pre a Hn Hf|n pre a Hn Hno Hf|Hn|n Hn H1 H2].
  - now apply (cashCashoutsStep_received t n pre).
  - now apply (cashCashoutsStep_cash_paid t n pre).
  - apply cashCashoutsStep_nominal. intros n E. congruence.
  - apply cashCashoutsStep_nominal. intros n' E.
    assert (n' = n) by congruence. subst n'. now split.
Qed.
(** *** Group 1 of a match is never unset nor empty *)


Lemma search_after_sound before n m :
  search (Cat (Lit before) amount_group) n = Some m ->
  exists pre a post, is_amount a /\ n = pre ++ before ++ a ++ post /\
                     m = mkMatch (before ++ a) (Some a).
Proof.
  intros H. apply search_Some_inv in H. destruct H as (pre & rest & -> & H).
  apply match_at_after_sound in H. destruct H as (a & post & Ha & -> & ->).
  now exists pre, a, post.
Qed.




(** ** The aggregates as sums *)

Lemma cashCashoutsStep_additive (sum : Q) (t : PlayerTransaction.t) :
  Summary.cashCashoutsStep sum t == sum + cashEquivalent t.
Proof.
  destruct (cash_equivalent_exists t) as [q Hq]. unfold cashEquivalent.
  rewrite (cashCashoutsStep_spec t q sum Hq), (cashCashoutsStep_spec t q 0 Hq).
  ring.
Qed.

Lemma autoSettledCreditStep_additive (sum : Q) (t : PlayerTransaction.t) :
  Summary.autoSettledCreditStep sum t == sum + settledCredit t.
Proof.
  unfold settledCredit, Summary.autoSettledCreditStep.
  destruct (Summary.notes_match (PlayerTransaction.notes t) re_credit_settled);
    [ring|].
  destruct (Summary.notes_match (PlayerTransaction.notes t) re_paid_credit);
    ring.
Qed.

Lemma includes_intro (pre sub post : list ascii) :
  includes (pre ++ sub ++ post) sub = true.
Proof.
  induction pre as [|c pre IH].
  - cbn [app]. destruct (sub ++ post) eqn:E; cbn [includes];
      rewrite <- E, strip_prefix_app; reflexivity.
  - cbn [app includes]. rewrite IH.
    now destruct (strip_prefix sub (c :: pre ++ sub ++ post)).
Qed.

(** A note without "credit settled:" and without "paid $" settles no
    credit: the filter of the route drops nothing that would count. *)
Lemma settledCredit_unmentioned (t : PlayerTransaction.t) :
  Summary.notes_include (PlayerTransaction.notes t) "credit settled:" = false ->
  Summary.notes_include (PlayerTransaction.notes t) "paid $" = false ->
  settledCredit t == 0.
Proof.
  unfold settledCredit, Summary.autoSettledCreditStep, Summary.notes_include,
    Summary.notes_match, String_match.
  destruct (PlayerTransaction.notes t) as [n|]; [|intros; ring].
  intros H1 H2.
  destruct (search re_credit_settled (chars n)) as [m|] eqn:E1.
  { exfalso. apply search_after_sound in E1.
    destruct E1 as (pre & a & post & _ & E & _).
    change (chars "credit settled: $") with (chars "credit settled:" ++ chars " $") in E.
    rewrite <- app_assoc in E. rewrite E, includes_intro in H1. discriminate. }
  destruct (search re_paid_credit (chars n)) as [m|] eqn:E2.
  { exfalso. apply search_between_sound in E2.
    destruct E2 as (pre & a & [_ [post E]] & _).
    rewrite E, includes_intro in H2. discriminate. }
  ring.
Qed.

Section Aggregates.
Variable session : GameSession.t.
Let txs := GameSession.playerTransactions session.


Lemma cashCashouts_total :
  Summary.cashCashouts session == total_if cash_cashout cashEquivalent txs.
Proof.
  unfold Summary.cashCashouts.
  rewrite (reduce_total _ cashEquivalent) by apply cashCashoutsStep_additive.
  apply total_filter.
Qed.

Lemma autoSettledCredit_total :
  Summary.autoSettledCredit session
  == total_if Summary.is_cashout settledCredit txs.
Proof.
  unfold Summary.autoSettledCredit.
  rewrite (reduce_total _ settledCredit) by apply autoSettledCreditStep_additive.
  rewrite total_filter. unfold total_if. apply total_ext. intros t _.
  unfold Summary.mentions_credit_settlement.
  destruct (Summary.is_cashout t); cbn [andb]; [|reflexivity].
  destruct (Summary.notes_include (PlayerTransaction.notes t) "credit settled:") eqn:H1;
    cbn [orb]; [reflexivity|].
  destruct (Summary.notes_include (PlayerTransaction.notes t) "paid $") eqn:H2;
    [reflexivity|].
  symmetry. now apply settledCredit_unmentioned.
Qed.

Lemma paidCreditBuyIns_total :
  Summary.paidCreditBuyIns session
  == total_if paid_credit_buy_in PlayerTransaction.amount txs.
Proof.
  unfold Summary.paidCreditBuyIns. rewrite reduce_filter_total.
  unfold total_if. apply total_ext. intros t _. unfold paid_credit_buy_in.
  now destruct (PlayerTransaction.isPaid t).
Qed.





End Aggregates.

(** ** Reductions, and what doubles keep *)

Section Doubles.
Import Binary64.


Lemma reduce_snoc {A B : Type} (f : B -> A -> B) (init : B) (l : list A)
  (x : A) :
  reduce f init (l ++ [x]) = f (reduce f init l) x.
Proof. unfold reduce. now rewrite fold_left_app. Qed.

Lemma reduce_filter_snoc {A B : Type} (f : B -> A -> B) (init : B)
  (p : A -> bool) (l : list A) (x : A) :
  reduce f init (filter p (l ++ [x]))
  = if p x then f (reduce f init (filter p l)) x
    else reduce f init (filter p l).
Proof.
  rewrite filter_app. cbn [filter].
  destruct (p x); [apply reduce_snoc | now rewrite app_nil_r].
Qed.




End Doubles.

(** ** The expected till and the till balance, in doubles *)

Section TwoTills.
Import Binary64.








End TwoTills.

(** ** The till balance of the summary *)





(** ** The reading of the cashout notes *)

(** C3 (amended).  The contribution of a cash cashout to the cash
    cashouts is the amount of the leftmost "received $<amount> cash" of
    its notes, else of the leftmost "cash paid: $<amount>)", where
    <amount> is one or more digits followed by either nothing or a point
    and exactly two digits; with neither, or without notes, it is the
    amount of the transaction.  Every transaction has such a
    contribution, and the cash cashouts are their sum. *)
Theorem cash_cashout_contribution :
  (forall t : PlayerTransaction.t, exists q, cash_equivalent t q) /\
  (forall (t : PlayerTransaction.t) (q sum : Q),
      cash_equivalent t q -> Summary.cashCashoutsStep sum t = sum + q) /\
  (forall session : GameSession.t,
      Summary.cashCashouts session
      == total_if cash_cashout cashEquivalent
           (GameSession.playerTransactions session)).
Proof.
  split; [exact cash_equivalent_exists|].
  split; [exact cashCashoutsStep_spec|].
  exact cashCashouts_total.
Qed.

Lemma is_amount_150 : is_amount (chars "150").
Proof.
  exists (chars "150"). split; [discriminate|]. split; [|now left].
  repeat constructor.
Qed.

Lemma cash_cashout_contribution_witness :
  cash_equivalent bob_settles (parseFloat (chars "150")) /\
  Summary.cashCashoutsStep 0 bob_settles = 0 + parseFloat (chars "150").
Proof.
  assert (H : cash_equivalent bob_settles (parseFloat (chars "150"))).
  { apply (CE_received bob_settles "received $150 cash, paid $150 credit" []
             (chars "150") eq_refl).
    split.
    - split; [exact is_amount_150|]. now exists (chars ", paid $150 credit").
    - intros pre' a' _. cbn. lia. }
  split; [exact H|].
  exact (proj1 (proj2 cash_cashout_contribution) bob_settles _ 0 H).
Defined.

(** C3 as stated fails on an amount with one fraction digit: the note
    reads "received $12.5 cash", 12.5 is a decimal with up to two
    fraction digits, and the contribution is the 300 of the
    transaction. *)
Lemma one_fraction_digit_is_not_read :
  PlayerTransaction.notes eve_one_fraction_digit
  = Some "received $12.5 cash"%string /\
  chars "received $12.5 cash"
  = chars "received $" ++ chars "12.5" ++ chars " cash" /\
  decimal_up_to_two (chars "12.5") = true /\
  parseFloat (chars "12.5") == 12.5 /\
  Summary.cashCashoutsStep 0 eve_one_fraction_digit == 300 /\
  ~ Summary.cashCashoutsStep 0 eve_one_fraction_digit
    == 0 + parseFloat (chars "12.5").
Proof.
  split; [reflexivity|]. split; [reflexivity|]. split; [reflexivity|].
  split; [reflexivity|]. split; [reflexivity|].
  intros H. vm_compute in H. discriminate H.
Qed.
(** *** The pattern that ends with the amount *)

Lemma span_digits_spec (s : list ascii) :
  all_digits (fst (span_digits s)) /\
  s = fst (span_digits s) ++ snd (span_digits s) /\
  match snd (span_digits s) with
  | [] => True
  | h :: _ => is_digit h = false
  end.
Proof.
  induction s as [|c s (IH1 & IH2 & IH3)]; cbn [span_digits].
  - repeat split. constructor.
  - destruct (is_digit c) eqn:Hc.
    + destruct (span_digits s) as [ds rest]. cbn [fst snd] in *.
      repeat split; [now constructor | now rewrite IH2 at 1 | exact IH3].
    + cbn [fst snd]. repeat split; [constructor | exact Hc].
Qed.

Lemma span_digits_app (ds t : list ascii) :
  all_digits ds ->
  span_digits (ds ++ t) = (ds ++ fst (span_digits t), snd (span_digits t)).
Proof.
  induction 1 as [|c ds Hc Hds IH]; cbn [app span_digits].
  - now destruct (span_digits t).
  - now rewrite Hc, IH.
Qed.

Lemma longest_amount_spec (s a : list ascii) :
  longest_amount s = Some a -> is_amount a /\ exists post, s = a ++ post.
Proof.
  unfold longest_amount.
  destruct (span_digits_spec s) as (Hds & Hs & _).
  destruct (span_digits s) as [ds rest]. cbn [fst snd] in *.
  destruct ds as [|d ds]; [discriminate|].
  assert (Hplain : is_amount (d :: ds) /\ exists post, s = (d :: ds) ++ post).
  { split; [|now exists rest].
    exists (d :: ds). split; [discriminate|]. split; [assumption | now left]. }
  destruct rest as [|c [|d1 [|d2 rest]]]; try (intros [= <-]; exact Hplain).
  destruct (Ascii.eqb_spec c "."%char) as [->|]; cbn [andb];
    [|intros [= <-]; exact Hplain].
  destruct (is_digit d1) eqn:H1; cbn [andb]; [|intros [= <-]; exact Hplain].
  destruct (is_digit d2) eqn:H2; [|intros [= <-]; exact Hplain].
  intros [= <-]. split.
  - exists (d :: ds). split; [discriminate|]. split; [assumption|].
    right. now exists d1, d2.
  - exists rest. rewrite Hs. cbn [app]. f_equal. now rewrite <- app_assoc.
Qed.

Lemma longest_amount_longest (s a' post' : list ascii) :
  is_amount a' -> s = a' ++ post' ->
  exists a, longest_amount s = Some a /\ (length a' <= length a)%nat.
Proof.
  intros (ds & Hne & Hds & Ha) ->. unfold longest_amount.
  destruct Ha as [->|(d1 & d2 & H1 & H2 & ->)].
  - rewrite (span_digits_app ds post' Hds).
    destruct (span_digits post') as [e rest]. cbn [fst snd].
    destruct (ds ++ e) as [|x l] eqn:E.
    { apply app_eq_nil in E. destruct E; contradiction. }
    assert (Hlen : (length ds <= length (x :: l))%nat).
    { rewrite <- E, length_app. lia. }
    destruct rest as [|c [|e1 [|e2 rest]]];
      try (eexists; split; [reflexivity | exact Hlen]).
    destruct (Ascii.eqb c "." && is_digit e1 && is_digit e2);
      eexists; (split; [reflexivity|]); [|exact Hlen].
    rewrite length_app. lia.
  - rewrite <- app_assoc. rewrite (span_digits_app ds _ Hds).
    cbn [app span_digits]. change (is_digit "."%char) with false.
    cbn [fst snd]. rewrite app_nil_r.
    destruct ds as [|x l]; [contradiction|].
    rewrite Ascii.eqb_refl, H1, H2. cbn [andb].
    eexists; split; [reflexivity | lia].
Qed.

Lemma run_fraction_none {R : Type} (r : list ascii) cap
  (k : list ascii -> option (list ascii) -> option R) :
  match r with
  | c :: d1 :: d2 :: _ => Ascii.eqb c "." && is_digit d1 && is_digit d2 = false
  | _ => True
  end ->
  run (Cat (Lit (chars ".")) (Cat Digit Digit)) r cap k = None.
Proof.
  intros H. cbn [run chars list_ascii_of_string strip_prefix].
  destruct r as [|c [|d1 [|d2 r]]]; try reflexivity.
  - now destruct (Ascii.eqb "." c).
  - destruct (Ascii.eqb "." c); [|reflexivity]. now destruct (is_digit d1).
  - rewrite Ascii.eqb_sym in H.
    destruct (Ascii.eqb "." c); [|reflexivity].
    destruct (is_digit d1); [|reflexivity].
    destruct (is_digit d2); [discriminate | reflexivity].
Qed.

(** The group takes the longest amount when the rest of the pattern
    accepts what follows it. *)
Lemma run_amount_group_longest {R : Type} (s a post : list ascii) cap
  (k : list ascii -> option (list ascii) -> option R) (x : R) :
  longest_amount s = Some a -> s = a ++ post ->
  k post (Some a) = Some x ->
  run amount_group s cap k = Some x.
Proof.
  unfold longest_amount. intros Hl Hs Hk.
  destruct (span_digits_spec s) as (Hds & Es & Hrest).
  destruct (span_digits s) as [ds rest]. cbn [fst snd] in *.
  destruct ds as [|d ds]; [discriminate|].
  unfold amount_group. rewrite run_Group, run_Cat.
  rewrite Es at 1.
  apply run_Digits1_stop; [discriminate | assumption | assumption |].
  rewrite run_Opt.
  assert (Hplain : Some (d :: ds) = Some a ->
            run (Cat (Lit (chars ".")) (Cat Digit Digit)) rest cap
              (fun s' _ => k s' (Some (firstn (length s - length s') s))) = None ->
            match
              run (Cat (Lit (chars ".")) (Cat Digit Digit)) rest cap
                (fun s' _ => k s' (Some (firstn (length s - length s') s)))
            with
            | Some x0 => Some x0
            | None => k rest (Some (firstn (length s - length rest) s))
            end = Some x).
  { intros [= <-] ->.
    rewrite (firstn_consumed_eq (d :: ds) rest s Es).
    assert (rest = post) by (rewrite Es in Hs; now apply app_inv_head in Hs).
    now subst rest. }
  destruct rest as [|c [|d1 [|d2 rest]]];
    try (apply Hplain; [exact Hl | now apply run_fraction_none]).
  destruct (Ascii.eqb c "." && is_digit d1 && is_digit d2) eqn:Hf.
  - clear Hplain. injection Hl as <-.
    apply andb_prop in Hf. destruct Hf as [Hf H2].
    apply andb_prop in Hf. destruct Hf as [Hc H1].
    apply Ascii.eqb_eq in Hc. subst c.
    change ("."%char :: d1 :: d2 :: rest) with (chars "." ++ d1 :: d2 :: rest).
    rewrite run_Cat, run_Lit_app, run_Cat, run_Digit_cons, run_Digit_cons
      by assumption.
    assert (rest = post).
    { rewrite Es in Hs. cbn [app] in Hs. injection Hs as Hs.
      rewrite <- app_assoc in Hs. apply app_inv_head in Hs. now inversion Hs. }
    subst rest.
    rewrite (firstn_consumed_eq (d :: ds ++ ["."%char; d1; d2]) post s)
      by (rewrite Es; cbn [app]; f_equal; now rewrite <- app_assoc).
    now rewrite Hk.
  - apply Hplain; [exact Hl|]. apply run_fraction_none. exact Hf.
Qed.

Lemma match_at_after_longest before s a :
  longest_amount s = Some a ->
  match_at (after_amount before) (before ++ s)
  = Some (mkMatch (before ++ a) (Some a)).
Proof.
  intros Hl. destruct (longest_amount_spec s a Hl) as [_ [post Hs]].
  unfold match_at, after_amount. rewrite run_Cat, run_Lit_app.
  apply (run_amount_group_longest s a post); [assumption | assumption|].
  f_equal. f_equal. apply firstn_consumed_eq. subst s.
  now rewrite <- app_assoc.
Qed.

Lemma match_at_after_complete before a post :
  is_amount a ->
  exists a', match_at (after_amount before) (before ++ a ++ post)
             = Some (mkMatch (before ++ a') (Some a')) /\
             longest_amount (a ++ post) = Some a' /\
             (length a <= length a')%nat.
Proof.
  intros Ha.
  destruct (longest_amount_longest (a ++ post) a post Ha eq_refl) as (a' & Hl & Hlen).
  exists a'. split; [now apply match_at_after_longest | now split].
Qed.
Lemma app_same_length {A : Type} (a a' p p' : list A) :
  a ++ p = a' ++ p' -> length a = length a' -> a = a' /\ p = p'.
Proof.
  revert a'. induction a as [|x a IH]; intros [|y a'] E L; try discriminate.
  - now split.
  - cbn in E. inversion E; subst. cbn in L. injection L as L.
    destruct (IH a' H1 L) as [-> ->]. now split.
Qed.

Lemma occurs_at_nil_intro before pre a post :
  is_amount a -> occurs_at before [] (pre ++ before ++ a ++ post) pre a.
Proof. intros Ha. split; [assumption|]. now exists post. Qed.

Lemma search_after_sound_at before n m :
  search (after_amount before) n = Some m ->
  exists pre a, occurs_at before [] n pre a /\ m = mkMatch (before ++ a) (Some a).
Proof.
  intros H. apply search_after_sound in H.
  destruct H as (pre & a & post & Ha & -> & ->).
  exists pre, a. split; [now apply occurs_at_nil_intro | reflexivity].
Qed.

Lemma match_at_after_occurrence before rest pre a :
  occurs_at before [] (pre ++ rest) pre a ->
  exists a', match_at (after_amount before) rest
             = Some (mkMatch (before ++ a') (Some a')) /\
             occurs_at before [] (pre ++ rest) pre a' /\
             (length a <= length a')%nat.
Proof.
  intros [Ha [post E]]. apply app_inv_head in E. cbn [app] in E. subst rest.
  destruct (match_at_after_complete before a post Ha) as (a' & Hm & Hl & Hlen).
  exists a'. split; [exact Hm|]. split; [|exact Hlen].
  destruct (longest_amount_spec _ _ Hl) as [Ha' [post' E]].
  split; [exact Ha'|]. exists post'. cbn [app]. now rewrite E.
Qed.

Lemma search_after_first before n pre a :
  first_longest_occurrence before n pre a ->
  search (after_amount before) n = Some (mkMatch (before ++ a) (Some a)).
Proof.
  intros (Hocc & Hfirst & Hlong).
  assert (exists rest, n = pre ++ rest) as [rest ->].
  { destruct Hocc as [_ [post ->]]. eauto. }
  rewrite search_skip.
  - apply search_here.
    destruct (match_at_after_occurrence before rest pre a Hocc)
      as (a' & Hm & Hocc' & Hlen).
    rewrite Hm.
    assert (a' = a); [|now subst a'].
    pose proof (Hlong a' Hocc') as Hlen'.
    destruct Hocc as [_ [post E]], Hocc' as [_ [post' E']].
    rewrite E in E'. apply app_inv_head in E'. apply app_inv_head in E'.
    symmetry. apply (app_same_length a a' ([] ++ post) ([] ++ post') E'). lia.
  - intros pre1 rest1 -> Hne.
    destruct (match_at (after_amount before) (rest1 ++ rest)) as [m|] eqn:E;
      [|reflexivity].
    apply match_at_after_sound in E.
    destruct E as (a' & post' & Ha' & E & _).
    assert (Hocc' : occurs_at before [] ((pre1 ++ rest1) ++ rest) pre1 a').
    { split; [assumption|]. exists post'. now rewrite <- app_assoc, E. }
    apply Hfirst in Hocc'. rewrite length_app in Hocc'.
    destruct rest1; [contradiction|]. cbn in Hocc'. lia.
Qed.

Lemma search_after_none before n :
  search (after_amount before) n = None <-> ~ occurs before [] n.
Proof.
  split.
  - intros H (pre & a & Hocc).
    assert (exists rest, n = pre ++ rest) as [rest ->].
    { destruct Hocc as [_ [post ->]]. eauto. }
    pose proof (search_None_inv _ _ H pre rest eq_refl) as Hn.
    destruct (match_at_after_occurrence before rest pre a Hocc) as (a' & Hm & _).
    congruence.
  - intros H. destruct (search (after_amount before) n) as [m|] eqn:E;
      [|reflexivity].
    apply search_after_sound_at in E. destruct E as (pre & a & Hocc & _).
    exfalso. apply H. now exists pre, a.
Qed.

Lemma match_at_after_first_longest before rest m :
  match_at (after_amount before) rest = Some m ->
  exists a, m = mkMatch (before ++ a) (Some a) /\
            occurs_at before [] rest [] a /\
            forall a', occurs_at before [] rest [] a' ->
                       (length a' <= length a)%nat.
Proof.
  intros E. pose proof E as E0.
  apply match_at_after_sound in E. destruct E as (a & post & Ha & -> & ->).
  exists a. split; [reflexivity|]. split.
  - now apply (occurs_at_nil_intro before []).
  - intros a' Hocc'.
    destruct (match_at_after_occurrence before _ [] a' Hocc')
      as (a'' & Hm & _ & Hlen).
    cbn [app] in Hm. rewrite E0 in Hm. injection Hm as Hm _.
    apply app_inv_head in Hm. subst a''. exact Hlen.
Qed.

Lemma search_after_finds_first before n m :
  search (after_amount before) n = Some m ->
  exists pre a, first_longest_occurrence before n pre a /\
                m = mkMatch (before ++ a) (Some a).
Proof.
  assert (Hhere : forall rest m,
             match_at (after_amount before) rest = Some m ->
             exists pre a, first_longest_occurrence before rest pre a /\
                           m = mkMatch (before ++ a) (Some a)).
  { intros rest m0 E.
    destruct (match_at_after_first_longest before rest m0 E) as (a & -> & Hocc & Hl).
    exists [], a. split; [|reflexivity].
    split; [exact Hocc|]. split; [intros; cbn; lia | exact Hl]. }
  revert m. induction n as [|c n IH]; intros m H; cbn [search] in H.
  - destruct (match_at (after_amount before) []) as [m'|] eqn:E; [|discriminate].
    injection H as <-. now apply Hhere.
  - destruct (match_at (after_amount before) (c :: n)) as [m'|] eqn:E.
    + injection H as <-. now apply Hhere.
    + destruct (IH m H) as (pre & a & (Hocc & Hfirst & Hlong) & ->).
      exists (c :: pre), a. split; [|reflexivity].
      assert (Hshift : forall p x, occurs_at before [] (c :: n) (c :: p) x <->
                                   occurs_at before [] n p x).
      { intros p x. split; intros [Hx [post Ex]]; (split; [exact Hx|]);
          exists post; cbn [app] in *; [now injection Ex | now rewrite Ex]. }
      split; [now apply Hshift|]. split.
      * intros pre' a' Hocc'. destruct pre' as [|c' pre'].
        -- destruct (match_at_after_occurrence before (c :: n) [] a' Hocc')
             as (a'' & Hm & _). cbn [app] in Hm. congruence.
        -- assert (c' = c) as ->.
           { destruct Hocc' as [_ [post Ex]]. cbn [app] in Ex. now injection Ex. }
           apply Hshift in Hocc'. apply Hfirst in Hocc'. cbn. lia.
      * intros a' Hocc'. apply Hshift in Hocc'. now apply Hlong.
Qed.

(** ** The credit a cashout settled *)

Lemma autoSettledCreditStep_spec (t : PlayerTransaction.t) (q sum : Q) :
  credit_settled t q -> Summary.autoSettledCreditStep sum t = sum + q.
Proof.
  unfold Summary.autoSettledCreditStep, Summary.notes_match, String_match.
  change re_credit_settled with (after_amount (chars "credit settled: $")).
  change re_paid_credit with (between (chars "paid $") (chars " credit")).
  intros [n pre a Hn Hf|n pre a Hn Hno Hf|Hn|n Hn H1 H2]; rewrite Hn.
  - now rewrite (search_after_first _ _ _ _ Hf).
  - rewrite (proj2 (search_after_none _ _) Hno).
    now rewrite (search_between_first _ _ _ _ _ ends_amount_credit Hf).
  - reflexivity.
  - rewrite (proj2 (search_after_none _ _) H1).
    now rewrite (proj2 (search_between_none _ _ _ ends_amount_credit) H2).
Qed.

Lemma credit_settled_exists (t : PlayerTransaction.t) :
  exists q, credit_settled t q.
Proof.
  destruct (PlayerTransaction.notes t) as [n|] eqn:Hn;
    [|eexists; now apply CS_no_notes].
  destruct (search (after_amount (chars "credit settled: $")) (chars n))
    as [m|] eqn:E1.
  { apply search_after_finds_first in E1.
    destruct E1 as (pre & a & Hf & _).
    eexists. eapply CS_settled; eassumption. }
  apply search_after_none in E1.
  destruct (search (between (chars "paid $") (chars " credit")) (chars n))
    as [m|] eqn:E2.
  { apply (search_between_finds_first _ _ _ _ ends_amount_credit) in E2.
    destruct E2 as (pre & a & Hf & _).
    eexists. eapply CS_paid; eassumption. }
  apply (search_between_none _ _ _ ends_amount_credit) in E2.
  eexists. eapply CS_nothing; eassumption.
Qed.

Lemma settledCredit_spec (t : PlayerTransaction.t) (q : Q) :
  credit_settled t q -> settledCredit t == q.
Proof.
  intros H. unfold settledCredit.
  rewrite (autoSettledCreditStep_spec t q 0 H). ring.
Qed.

(** C4 (amended).  The manually paid credit is max(0, paid credit
    buy-ins minus auto-settled credit): the first sums the credit
    buy-ins that are paid, the second sums over the cashouts the amount
    read from their notes, which is the longest <amount> after the
    leftmost "credit settled: $" or, failing that, the <amount> of the
    leftmost "paid $<amount> credit" (nothing when the notes have
    neither), where <amount> is one or more digits followed by either
    nothing or a point and exactly two digits; it is never negative. *)
Theorem manuallyPaidCredit_formula :
  (forall session : GameSession.t,
      let txs := GameSession.playerTransactions session in
      Summary.paidCreditBuyIns session
      == total_if paid_credit_buy_in PlayerTransaction.amount txs /\
      Summary.autoSettledCredit session
      == total_if Summary.is_cashout settledCredit txs /\
      Summary.manuallyPaidCredit session
      == Qmax 0 (Summary.paidCreditBuyIns session
                 - Summary.autoSettledCredit session) /\
      0 <= Summary.manuallyPaidCredit session) /\
  (forall t : PlayerTransaction.t, exists q, credit_settled t q) /\
  (forall (t : PlayerTransaction.t) (q : Q),
      credit_settled t q -> settledCredit t == q).
Proof.
  split; [|split; [exact credit_settled_exists | exact settledCredit_spec]].
  intros session txs.
  split; [apply paidCreditBuyIns_total|].
  split; [apply autoSettledCredit_total|].
  split; [reflexivity | apply Math_max_0_nonneg].
Qed.

Lemma first_occurrence_of_search before after n w a :
  ends_amount after ->
  search (between before after) n = Some (mkMatch w (Some a)) ->
  exists pre, first_occurrence before after n pre a.
Proof.
  intros Hafter H.
  destruct (search_between_finds_first _ _ _ _ Hafter H) as (pre & a' & Hf & E).
  injection E as _ <-. now exists pre.
Qed.

Lemma manuallyPaidCredit_formula_witness :
  settledCredit bob_settles == parseFloat (chars "150").
Proof.
  destruct (first_occurrence_of_search (chars "paid $") (chars " credit")
              (chars "received $150 cash, paid $150 credit")
              (chars "paid $150 credit") (chars "150")
              ends_amount_credit eq_refl) as [pre Hf].
  apply (proj2 (proj2 manuallyPaidCredit_formula) bob_settles).
  apply (CS_paid bob_settles "received $150 cash, paid $150 credit" pre
           (chars "150") eq_refl); [|exact Hf].
  apply search_after_none. reflexivity.
Defined.

(** *** An amount with one fraction digit *)

Section Amounts.
Import Tenths.
Local Open Scope string_scope.

(** C4 as stated fails on an amount with one fraction digit.  The
    note reads "credit settled: $12.5", 12.5 is a decimal with up to
    two fraction digits, and the route takes 12 for the credit
    settled: with a paid credit buy-in of 100 the manually paid credit
    is 88 and not max(0, 100 - 12.5).  Of "paid $12.5 credit" the
    route takes nothing. *)
Lemma credit_settled_with_one_fraction_digit :
  PlayerTransaction.notes bob_settles_a_half = Some "credit settled: $12.5" /\
  chars "credit settled: $12.5" = (chars "credit settled: $" ++ chars "12.5")%list /\
  decimal_up_to_two (chars "12.5") = true /\
  parseFloat (chars "12.5") == 12.5 /\
  Summary.paidCreditBuyIns half_settled == 100 /\
  Summary.autoSettledCredit half_settled == 12 /\
  Summary.manuallyPaidCredit half_settled == 88 /\
  ~ Summary.manuallyPaidCredit half_settled
    == Qmax 0 (100 - parseFloat (chars "12.5")) /\
  settledCredit bob_settles_a_half_too == 0.
Proof.
  split; [reflexivity|]. split; [reflexivity|]. split; [reflexivity|].
  split; [reflexivity|]. split; [reflexivity|]. split; [reflexivity|].
  split; [reflexivity|]. split; [|reflexivity].
  intros H. vm_compute in H. discriminate H.
Qed.

End Amounts.

(** The route's comment also names a format "paid $X toward credit";
    neither pattern reads it, and such a note settles nothing. *)
Example toward_credit_is_not_read :
  settledCredit
    (PlayerTransaction.mk "t8" "Gus" Cashout 400 Cash
       (Some "paid $400.00 toward credit"%string) true) == 0.
Proof. reflexivity. Qed.

(** A credit buy-in of 500 that is not paid and a cash cashout of 300
    with the note "received $150 cash, paid $150 credit": 150 leaves the
    till, 150 of credit is settled, and the player still owes the 500,
    since the cashout is no credit transaction. *)
Example settlement_by_cash_cashout :
  let session :=
    GameSession.mk "g4" "u1" 0 [bob_buys_in_on_credit; bob_settles] [] [] in
  Summary.cashCashouts session == 150 /\
  Summary.autoSettledCredit session == 150 /\
  Summary.creditBalance session == 500.
Proof. cbn zeta. split; [reflexivity|]. split; reflexivity. Qed.

(** ** The empty session *)

(** C8 (amended).  A session without transactions, dealer downs and
    expenses has till balance 0, credit balance 0 and player count 0;
    its net profit is the rake entered for the session when that is
    positive, and 0 otherwise. *)
Theorem empty_session_summary (id userId : string) (rake : Q) :
  let summary := Summary.summary (GameSession.mk id userId rake [] [] []) in
  Summary.s_tillBalance summary == 0 /\
  Summary.s_creditBalance summary == 0 /\
  Summary.s_playerCount summary = 0%nat /\
  Summary.s_netProfit summary == (if gt rake 0 then rake else 0) /\
  Summary.s_netProfit summary == Qmax 0 rake.
Proof.
  cbn zeta.
  split; [reflexivity|]. split; [reflexivity|]. split; [reflexivity|].
  assert (E : Summary.s_netProfit
                (Summary.summary (GameSession.mk id userId rake [] [] []))
              == (if gt rake 0 then rake else 0)).
  { cbn [Summary.summary Summary.s_netProfit]. unfold Summary.netProfit.
    unfold Summary.totalRake, Summary.totalExpenses. cbn.
    destruct (gt rake 0); ring. }
  split; [exact E|]. rewrite E. unfold gt.
  destruct (Qcompare_spec rake 0) as [H|H|H].
  - rewrite H. reflexivity.
  - symmetry. apply Q.max_l. lra.
  - symmetry. apply Q.max_r. lra.
Qed.

(** C8 as stated fails when the rake of the session was entered before
    any row exists: the net profit is that rake. *)
Lemma empty_session_with_rake_has_profit :
  GameSession.playerTransactions empty_with_rake = [] /\
  GameSession.dealerDowns empty_with_rake = [] /\
  GameSession.expenses empty_with_rake = [] /\
  Summary.s_netProfit (Summary.summary empty_with_rake) == 100 /\
  ~ Summary.s_netProfit (Summary.summary empty_with_rake) == 0.
Proof.
  split; [reflexivity|]. split; [reflexivity|]. split; [reflexivity|].
  split; [reflexivity|]. intros H. vm_compute in H. discriminate H.
Qed.

(** ** The credit balance *)

Section CreditMap.
Import Summary.

Lemma Map_get_set_same m k v : Map_get (Map_set m k v) k = Some v.
Proof.
  induction m as [|[k0 v0] m IH]; cbn [Map_set Map_get].
  - now rewrite String.eqb_refl.
  - destruct (String.eqb_spec k0 k) as [->|Hne]; cbn [Map_get].
    + now rewrite String.eqb_refl.
    + destruct (String.eqb_spec k0 k); [contradiction | exact IH].
Qed.

Lemma Map_get_set_other m k v p :
  p <> k -> Map_get (Map_set m k v) p = Map_get m p.
Proof.
  intros Hp. induction m as [|[k0 v0] m IH]; cbn [Map_set Map_get].
  - destruct (String.eqb_spec k p); [congruence | reflexivity].
  - destruct (String.eqb_spec k0 k) as [->|Hne]; cbn [Map_get].
    + destruct (String.eqb_spec k p); [congruence | reflexivity].
    + now rewrite IH.
Qed.

Lemma keys_Map_set m k v p :
  In p (keys (Map_set m k v)) <-> In p (keys m) \/ p = k.
Proof.
  induction m as [|[k0 v0] m IH]; cbn [Map_set keys map fst In].
  - intuition congruence.
  - destruct (String.eqb_spec k0 k) as [->|Hne]; cbn [keys map fst In].
    + intuition congruence.
    + unfold keys in IH. rewrite IH. intuition congruence.
Qed.

Lemma NoDup_keys_Map_set m k v :
  NoDup (keys m) -> NoDup (keys (Map_set m k v)).
Proof.
  induction m as [|[k0 v0] m IH]; cbn [Map_set keys map fst]; intros H.
  - repeat constructor. intros [].
  - inversion H as [|? ? Hnin Hnd]; subst.
    destruct (String.eqb_spec k0 k) as [->|Hne]; cbn [keys map fst].
    + now constructor.
    + constructor; [|now apply IH].
      intros Hin. apply keys_Map_set in Hin. destruct Hin; [|congruence].
      now apply Hnin.
Qed.

Lemma creditMapStep_entry m t p :
  buyIns (entry_of (creditMapStep m t) p)
  == buyIns (entry_of m p) + adds_unpaid p t /\
  cashouts (entry_of (creditMapStep m t) p)
  == cashouts (entry_of m p) + adds_cashout p t.
Proof.
  unfold creditMapStep, adds_unpaid, adds_cashout.
  destruct (pays_with Credit t); cbn [andb]; [|split; ring].
  destruct (String.eqb_spec (PlayerTransaction.playerName t) p) as [E|Hne].
  - subst p. unfold entry_of at 1 3. rewrite !Map_get_set_same.
    fold (entry_of m (PlayerTransaction.playerName t)).
    destruct t as [i name ty amt pm nt paid]; cbn.
    destruct ty, paid; cbn; split; ring.
  - unfold entry_of. rewrite !Map_get_set_other by congruence.
    rewrite !andb_false_r. split; ring.
Qed.

Lemma creditMapStep_keys m t p :
  In p (keys (creditMapStep m t)) <->
  In p (keys m) \/ (pays_with Credit t = true /\ p = PlayerTransaction.playerName t).
Proof.
  unfold creditMapStep. destruct (pays_with Credit t).
  - rewrite keys_Map_set. intuition.
  - intuition discriminate.
Qed.

Lemma creditMapStep_NoDup m t :
  NoDup (keys m) -> NoDup (keys (creditMapStep m t)).
Proof.
  unfold creditMapStep. destruct (pays_with Credit t); [|trivial].
  apply NoDup_keys_Map_set.
Qed.

Lemma fold_creditMap_NoDup txs m :
  NoDup (keys m) -> NoDup (keys (fold_left creditMapStep txs m)).
Proof.
  revert m. induction txs as [|t txs IH]; intros m H; cbn [fold_left];
    [assumption|].
  now apply IH, creditMapStep_NoDup.
Qed.

Lemma fold_creditMap_keys txs m p :
  In p (keys (fold_left creditMapStep txs m)) <->
  In p (keys m) \/
  In p (map PlayerTransaction.playerName (filter (pays_with Credit) txs)).
Proof.
  revert m. induction txs as [|t txs IH]; intros m; cbn [fold_left filter map].
  - cbn. intuition.
  - rewrite IH, creditMapStep_keys.
    destruct (pays_with Credit t); cbn [map In]; intuition (try congruence).
Qed.

Lemma fold_creditMap_entry txs m p :
  buyIns (entry_of (fold_left creditMapStep txs m) p)
  == buyIns (entry_of m p) + unpaid_credit_buy_ins p txs /\
  cashouts (entry_of (fold_left creditMapStep txs m) p)
  == cashouts (entry_of m p) + credit_cashouts p txs.
Proof.
  revert m. induction txs as [|t txs IH]; intros m; cbn [fold_left].
  - unfold unpaid_credit_buy_ins, credit_cashouts, total_if. cbn [total].
    split; ring.
  - destruct (IH (creditMapStep m t)) as [IHb IHc].
    destruct (creditMapStep_entry m t p) as [Hb Hc].
    rewrite IHb, IHc, Hb, Hc.
    unfold unpaid_credit_buy_ins, credit_cashouts, total_if. cbn [total].
    fold (adds_unpaid p t). fold (adds_cashout p t).
    split; ring.
Qed.

Lemma total_entries_by_key (g : CreditEntry -> Q) (m : CreditMap) :
  NoDup (keys m) ->
  total (fun kv => g (snd kv)) m == total (fun k => g (entry_of m k)) (keys m).
Proof.
  induction m as [|[k v] m IH]; intros H; cbn [keys map fst total snd];
    [reflexivity|].
  inversion H as [|? ? Hnin Hnd]; subst.
  unfold entry_of at 1. cbn [Map_get]. rewrite String.eqb_refl.
  rewrite (IH Hnd).
  apply Qplus_comp; [reflexivity|].
  apply total_ext. intros p Hp. unfold entry_of. cbn [Map_get].
  destruct (String.eqb_spec k p) as [->|_]; [contradiction | reflexivity].
Qed.

End CreditMap.

Lemma lt_true (a b : Q) : Js.lt a b = true <-> a < b.
Proof.
  unfold Js.lt. rewrite Qlt_alt.
  destruct (a ?= b); split; intros H; congruence.
Qed.

Lemma lt_false (a b : Q) : Js.lt a b = false <-> b <= a.
Proof.
  rewrite <- Bool.not_true_iff_false, lt_true. split; intros H; lra.
Qed.

Lemma total_max_positive {A : Type} (h : A -> Q) (l : list A) :
  total (fun x => Qmax 0 (h x)) l
  == total h (filter (fun x => Js.lt 0 (h x)) l).
Proof.
  induction l as [|x l IH]; cbn [total filter]; [reflexivity|].
  destruct (Js.lt 0 (h x)) eqn:H; cbn [total]; rewrite IH.
  - apply lt_true in H. rewrite Q.max_r by lra. reflexivity.
  - apply lt_false in H. rewrite Q.max_l by lra. ring.
Qed.

Lemma playerCreditMap_keys (session : GameSession.t) :
  Permutation (keys (Summary.playerCreditMap session))
    (credit_players (GameSession.playerTransactions session)).
Proof.
  apply NoDup_Permutation.
  - apply fold_creditMap_NoDup. constructor.
  - apply NoDup_nodup.
  - intros p. unfold Summary.playerCreditMap, credit_players.
    rewrite fold_creditMap_keys, nodup_In. cbn. intuition.
Qed.

Lemma creditBalance_total (session : GameSession.t) :
  Summary.creditBalance session
  == total (fun p => owed p (GameSession.playerTransactions session))
       (credit_players (GameSession.playerTransactions session)).
Proof.
  unfold Summary.creditBalance.
  rewrite (fold_left_total _
             (fun kv => Math_max 0 (Summary.buyIns (snd kv) - Summary.cashouts (snd kv))))
    by (intros; reflexivity).
  rewrite Qplus_0_l.
  rewrite (total_entries_by_key
             (fun e => Math_max 0 (Summary.buyIns e - Summary.cashouts e)))
    by (apply fold_creditMap_NoDup; constructor).
  rewrite (total_perm _ _ _ (playerCreditMap_keys session)).
  apply total_ext. intros p _.
  destruct (fold_creditMap_entry (GameSession.playerTransactions session) [] p)
    as [Hb Hc].
  unfold Summary.playerCreditMap, owed, net_credit, Math_max.
  rewrite Hb, Hc. unfold entry_of. cbn [Summary.Map_get Summary.buyIns Summary.cashouts].
  apply Q.max_compat; [reflexivity | ring].
Qed.

(** C7.  The credit balance of the summary is the sum, over the players
    with a credit transaction, of max(0, unpaid credit buy-ins minus
    credit cashouts) of that player; it is never negative, and it is
    the sum of the net credit of the players whose net credit is
    positive. *)
Theorem creditBalance_per_player (session : GameSession.t) :
  let txs := GameSession.playerTransactions session in
  let creditBalance := Summary.s_creditBalance (Summary.summary session) in
  creditBalance == total (fun p => owed p txs) (credit_players txs) /\
  0 <= creditBalance /\
  creditBalance
  == total (fun p => net_credit p txs)
       (filter (fun p => Js.lt 0 (net_credit p txs)) (credit_players txs)).
Proof.
  cbn zeta. cbn [Summary.summary Summary.s_creditBalance].
  rewrite creditBalance_total. split; [reflexivity|]. split.
  - apply total_nonneg. intros p. apply Q.le_max_l.
  - apply total_max_positive.
Qed.

(** ** The till analyzer *)

Section AnalyzerProperties.
Import Analyzer.
Local Open Scope string_scope.

(** C5 (amended).  When the difference between the counted and the
    expected till is below 1.00, the analyzer never calls the
    collaborator; and when the collaborator's key is configured it
    answers with discrepancy 0, no causes, no transactions to review and
    one affirming recommendation. *)
Theorem matching_till_short_circuit
  (openaiApiKey : option string) (session : GameSession.t)
  (actualTillAmount : Q)
  (collaborator : CollaboratorRequest -> CollaboratorReply) :
  Qabs (actualTillAmount - expectedTill session) < 1 ->
  snd (exec collaborator
         (analyzeTill openaiApiKey (Some session) actualTillAmount)) = 0%nat /\
  (configured openaiApiKey = true ->
   fst (exec collaborator
          (analyzeTill openaiApiKey (Some session) actualTillAmount))
   = Json200
       (mkResponse 0 (expectedTill session) actualTillAmount
          "Your till matches the expected amount. No discrepancy detected."
          [] []
          ["Your records appear to be accurate. Keep up the good work!"])).
Proof.
  intros H. apply lt_true in H. unfold analyzeTill, Math_abs.
  destruct (configured openaiApiKey); cbn [negb]; rewrite ?H; cbn [exec fst snd].
  - split; [reflexivity | intros _; reflexivity].
  - split; [reflexivity | discriminate].
Qed.

Lemma matching_till_short_circuit_witness :
  Qabs (-320 - expectedTill night) < 1 /\
  configured (Some "sk-live") = true /\
  exec talkative_collaborator (analyzeTill (Some "sk-live") (Some night) (-320))
  = (Json200
       (mkResponse 0 (expectedTill night) (-320)
          "Your till matches the expected amount. No discrepancy detected."
          [] []
          ["Your records appear to be accurate. Keep up the good work!"]),
     0%nat).
Proof.
  assert (H : Qabs (-320 - expectedTill night) < 1) by reflexivity.
  split; [exact H|]. split; [reflexivity|].
  destruct (matching_till_short_circuit (Some "sk-live") night (-320)
              talkative_collaborator H) as [Hcalls Hbody].
  specialize (Hbody eq_refl).
  destruct (exec talkative_collaborator
              (analyzeTill (Some "sk-live") (Some night) (-320))) as [r n].
  cbn [fst snd] in *. now subst.
Defined.

(** C5 as stated fails when the key of the collaborator is not
    configured: the till matches, and the answer is the configuration
    error. *)
Lemma unconfigured_analyzer_rejects_matching_till :
  Qabs (0 - expectedTill quiet_night) < 1 /\
  analyzeTill None (Some quiet_night) 0
  = Ret (JsonError 500 "AI analysis is not configured. Please contact support.").
Proof. split; reflexivity. Qed.

Lemma normalize_figures d e a aiResponse body :
  normalize d e a aiResponse = Ok body -> figures body = (d, e, a).
Proof.
  unfold normalize, bind. intros H.
  repeat match type of H with
         | match ?x with _ => _ end = _ => destruct x; try discriminate
         end.
  now inversion H.
Qed.

(** What the analyzer answers after the collaborator replied. *)
Lemma analyzeTill_material openaiApiKey session actualTillAmount collaborator :
  configured openaiApiKey = true ->
  1 <= Qabs (actualTillAmount - expectedTill session) ->
  exec collaborator (analyzeTill openaiApiKey (Some session) actualTillAmount)
  = (match collaborator
             (mkRequest session (expectedTill session) actualTillAmount
                (actualTillAmount - expectedTill session)
                (cashBuyIns session) (manuallyPaidCredit session)
                (autoSettledCredit session) (cashCashouts session)
                (totalPaidTips session) (totalClaimedRake session)
                (totalExpenses session))
     with
     | Parsed aiResponse =>
         match normalize (actualTillAmount - expectedTill session)
                 (expectedTill session) actualTillAmount aiResponse with
         | Ok response => Json200 response
         | Throw => analysis_failed
         end
     | _ => analysis_failed
     end, 1%nat).
Proof.
  intros Hk Hm. apply lt_false in Hm. unfold analyzeTill, Math_abs.
  rewrite Hk, Hm. cbn [negb exec].
  destruct (collaborator _) as [| | |aiResponse]; try reflexivity.
  now destruct (normalize _ _ _ aiResponse).
Qed.

Lemma analyzeTill_body openaiApiKey session actualTillAmount collaborator body :
  1 <= Qabs (actualTillAmount - expectedTill session) ->
  fst (exec collaborator
         (analyzeTill openaiApiKey (Some session) actualTillAmount))
  = Json200 body ->
  figures body
  = (actualTillAmount - expectedTill session, expectedTill session,
     actualTillAmount).
Proof.
  intros Hm H.
  destruct (configured openaiApiKey) eqn:Hk.
  - rewrite (analyzeTill_material _ _ _ _ Hk Hm) in H. cbn [fst] in H.
    destruct (collaborator _) as [| | |aiResponse]; try discriminate.
    destruct (normalize _ _ _ aiResponse) as [response|] eqn:E; [|discriminate].
    injection H as <-. now apply normalize_figures in E.
  - unfold analyzeTill in H. rewrite Hk in H. discriminate.
Qed.

(** C10.  With a material discrepancy, whatever two collaborators
    reply, the discrepancy, the expected till and the actual till of the
    two answers are the same, and they are the figures the route
    computed itself. *)
Theorem figures_do_not_depend_on_collaborator
  (openaiApiKey : option string) (session : GameSession.t)
  (actualTillAmount : Q)
  (collaborator1 collaborator2 : CollaboratorRequest -> CollaboratorReply)
  (body1 body2 : AnalyzeTillResponse) :
  1 <= Qabs (actualTillAmount - expectedTill session) ->
  fst (exec collaborator1
         (analyzeTill openaiApiKey (Some session) actualTillAmount))
  = Json200 body1 ->
  fst (exec collaborator2
         (analyzeTill openaiApiKey (Some session) actualTillAmount))
  = Json200 body2 ->
  discrepancyAmount body1 = actualTillAmount - expectedTill session /\
  expectedTill_ body1 = expectedTill session /\
  actualTill body1 = actualTillAmount /\
  discrepancyAmount body2 = discrepancyAmount body1 /\
  expectedTill_ body2 = expectedTill_ body1 /\
  actualTill body2 = actualTill body1.
Proof.
  intros Hm H1 H2.
  apply (analyzeTill_body _ _ _ _ _ Hm) in H1.
  apply (analyzeTill_body _ _ _ _ _ Hm) in H2.
  unfold figures in H1, H2. inversion H1. inversion H2.
  repeat split; congruence.
Qed.

Lemma figures_do_not_depend_on_collaborator_witness :
  match fst (exec terse_collaborator
               (analyzeTill (Some "sk-live") (Some night) 0)),
        fst (exec talkative_collaborator
               (analyzeTill (Some "sk-live") (Some night) 0))
  with
  | Json200 body1, Json200 body2 =>
      1 <= Qabs (0 - expectedTill night) /\
      discrepancyAmount body1 = 0 - expectedTill night /\
      expectedTill_ body1 = expectedTill night /\
      actualTill body1 = 0 /\
      discrepancyAmount body2 = discrepancyAmount body1 /\
      expectedTill_ body2 = expectedTill_ body1 /\
      actualTill body2 = actualTill body1
  | _, _ => False
  end.
Proof.
  assert (Hm : 1 <= Qabs (0 - expectedTill night)) by (vm_compute; discriminate).
  destruct (fst (exec terse_collaborator
                   (analyzeTill (Some "sk-live") (Some night) 0)))
    as [body1|] eqn:E1; [|vm_compute in E1; discriminate E1].
  destruct (fst (exec talkative_collaborator
                   (analyzeTill (Some "sk-live") (Some night) 0)))
    as [body2|] eqn:E2; [|vm_compute in E2; discriminate E2].
  split; [exact Hm|].
  exact (figures_do_not_depend_on_collaborator (Some "sk-live") night 0
           terse_collaborator talkative_collaborator body1 body2 Hm E1 E2).
Defined.

End AnalyzerProperties.

Section Normalization.
Import Analyzer.
Local Open Scope string_scope.

Lemma or_else_falsy (v : option json) (d : json) :
  truthy v = false -> or_else v d = d.
Proof.
  unfold or_else. destruct v as [x|]; [|reflexivity]. now intros ->.
Qed.

Lemma string_or_missing (v : option json) (fallback : string) :
  truthy v = false -> string_or v fallback = Ok fallback.
Proof. intros H. unfold string_or. now rewrite or_else_falsy. Qed.

Lemma string_or_string (s fallback : string) :
  s <> "" -> string_or (Some (JString s)) fallback = Ok s.
Proof. intros H. destruct s; [contradiction | reflexivity]. Qed.

Lemma map_or_empty_missing {A : Type} (v : option json) (f : json -> Result A) :
  truthy v = false -> map_or_empty v f = Ok [].
Proof. intros H. unfold map_or_empty. now rewrite or_else_falsy. Qed.

Lemma normalizeLikelihood_unknown (v : option json) :
  v <> Some (JString "high") -> v <> Some (JString "low") ->
  normalizeLikelihood v = Medium.
Proof.
  intros Hh Hl. unfold normalizeLikelihood.
  destruct v as [[| | |s| |]|]; try reflexivity.
  destruct (String.eqb_spec s "high") as [->|_]; [contradiction|].
  destruct (String.eqb_spec s "low") as [->|_]; [contradiction | reflexivity].
Qed.

Lemma number_or_absent_not_a_number (v : option json) :
  (forall q, v <> Some (JNumber q)) -> number_or_absent v = None.
Proof.
  intros H. destruct v as [[| |q| | |]|]; try reflexivity.
  now destruct (H q).
Qed.

Lemma normalizeRecommendations_not_an_array (v : option json) :
  (forall l, v <> Some (JArray l)) ->
  normalizeRecommendations v = Ok default_recommendations.
Proof.
  intros H. destruct v as [[| | | |l|]|]; try reflexivity.
  now destruct (H l).
Qed.

Lemma normalizeCause_bare (fields : list (string * json)) :
  lacks ["description"; "likelihood"; "amount"; "transactionIds"] fields ->
  normalizeCause (JObject fields) = Ok (mkCause "" Medium None None).
Proof.
  intros H. unfold lacks in H. rewrite !Forall_cons_iff in H.
  destruct H as (H1 & H2 & H3 & H4 & _).
  unfold normalizeCause. cbn [prop bind]. now rewrite H1, H2, H3, H4.
Qed.

Lemma normalizeReview_bare (fields : list (string * json)) :
  lacks ["id"; "playerName"; "type"; "amount"; "paymentMethod"; "notes"; "reason"]
    fields ->
  normalizeReview (JObject fields)
  = Ok (mkReview "" "Unknown" "" 0 "" JNull "").
Proof.
  intros H. unfold lacks in H. rewrite !Forall_cons_iff in H.
  destruct H as (H1 & H2 & H3 & H4 & H5 & H6 & H7 & _).
  unfold normalizeReview. cbn [prop bind].
  now rewrite H1, H2, H3, H4, H5, H6, H7.
Qed.

Lemma normalize_bare (d e a : Q) (fields : list (string * json)) :
  lacks ["possibleCauses"; "transactionsToReview"; "recommendations"; "summary"]
    fields ->
  normalize d e a (JObject fields)
  = Ok (mkResponse d e a (fallback_summary d) [] [] default_recommendations).
Proof.
  intros H. unfold lacks in H. rewrite !Forall_cons_iff in H.
  destruct H as (H1 & H2 & H3 & H4 & _).
  unfold normalize. cbn [prop bind]. now rewrite H1, H2, H3, H4.
Qed.

Lemma normalizeCause_fields (fields : list (string * json))
  (cause : TillAnalysisCause) :
  normalizeCause (JObject fields) = Ok cause ->
  string_or (lookup "description" fields) "" = Ok (description cause) /\
  likelihood cause = normalizeLikelihood (lookup "likelihood" fields) /\
  amount cause = number_or_absent (lookup "amount" fields) /\
  transactionIds cause = array_or_absent (lookup "transactionIds" fields).
Proof.
  unfold normalizeCause. cbn [prop bind].
  destruct (string_or (lookup "description" fields) "") as [d|];
    [|discriminate].
  intros [= <-]. repeat split.
Qed.

Lemma normalizeReview_fields (fields : list (string * json))
  (review : TransactionToReview) :
  normalizeReview (JObject fields) = Ok review ->
  string_or (lookup "playerName" fields) "Unknown" = Ok (r_playerName review) /\
  r_amount review
  = match lookup "amount" fields with
    | Some (JNumber q) => q
    | _ => 0
    end /\
  r_notes review = or_else (lookup "notes" fields) JNull.
Proof.
  unfold normalizeReview. cbn [prop bind].
  destruct (string_or (lookup "id" fields) ""); [|discriminate].
  destruct (string_or (lookup "playerName" fields) "Unknown"); [|discriminate].
  destruct (string_or (lookup "type" fields) ""); [|discriminate].
  destruct (string_or (lookup "paymentMethod" fields) ""); [|discriminate].
  destruct (string_or (lookup "reason" fields) ""); [|discriminate].
  intros [= <-]. cbn [r_playerName r_amount r_notes]. repeat split.
  now destruct (lookup "amount" fields) as [[| | | | |]|].
Qed.

(** Whatever the collaborator does, the analyzer answers, after at most
    one call: with a body, or with one of its three errors. *)
Lemma analyzeTill_answers openaiApiKey found actualTillAmount collaborator :
  let answer := exec collaborator
                  (analyzeTill openaiApiKey found actualTillAmount) in
  (snd answer <= 1)%nat /\
  ((exists body, fst answer = Json200 body) \/
   fst answer = analysis_failed \/
   fst answer = JsonError 404 "Session not found" \/
   fst answer
   = JsonError 500 "AI analysis is not configured. Please contact support.").
Proof.
  cbn zeta. unfold analyzeTill.
  destruct (configured openaiApiKey); cbn [negb];
    [|cbn; split; [lia | now right; right; right]].
  destruct found as [session|]; [|cbn; split; [lia | now right; right; left]].
  destruct (Js.lt _ 1); [cbn; split; [lia | left; eauto]|].
  cbn [exec].
  destruct (collaborator _) as [| | |aiResponse]; cbn [exec fst snd];
    try (split; [lia | now right; left]).
  destruct (normalize _ _ _ aiResponse); cbn [exec fst snd];
    (split; [lia|]); [left; eauto | now right; left].
Qed.

(** C6 (amended).  The normalization of a parsed collaborator answer:
    a likelihood other than "high" and "low" is "medium"; a missing or
    falsy list of causes or of transactions is the empty list; anything
    but an array of recommendations is the two default recommendations;
    the amount of a cause that is no number is absent, that of a
    transaction to review is 0; a missing or falsy text is the fallback
    of its field, which is the empty string but for the player name
    ("Unknown") and the summary (a sentence with the discrepancy).  The
    analyzer always answers: with a body, or with an error when the
    answer is null, has something that is no array for a list, or holds
    a value that has no text. *)
Theorem normalization_fallbacks :
  (forall v, v <> Some (JString "high") -> v <> Some (JString "low") ->
             normalizeLikelihood v = Medium) /\
  (forall v, truthy v = false ->
             map_or_empty v normalizeCause = Ok [] /\
             map_or_empty v normalizeReview = Ok []) /\
  (forall v, (forall l, v <> Some (JArray l)) ->
             normalizeRecommendations v = Ok default_recommendations) /\
  (forall v, (forall q, v <> Some (JNumber q)) -> number_or_absent v = None) /\
  (forall v fallback, truthy v = false -> string_or v fallback = Ok fallback) /\
  (forall fields,
      lacks ["description"; "likelihood"; "amount"; "transactionIds"] fields ->
      normalizeCause (JObject fields) = Ok (mkCause "" Medium None None)) /\
  (forall fields,
      lacks ["id"; "playerName"; "type"; "amount"; "paymentMethod"; "notes";
             "reason"] fields ->
      normalizeReview (JObject fields)
      = Ok (mkReview "" "Unknown" "" 0 "" JNull "")) /\
  (forall d e a fields,
      lacks ["possibleCauses"; "transactionsToReview"; "recommendations";
             "summary"] fields ->
      normalize d e a (JObject fields)
      = Ok (mkResponse d e a (fallback_summary d) [] []
              default_recommendations)) /\
  (forall fields cause,
      normalizeCause (JObject fields) = Ok cause ->
      string_or (lookup "description" fields) "" = Ok (description cause) /\
      likelihood cause = normalizeLikelihood (lookup "likelihood" fields) /\
      amount cause = number_or_absent (lookup "amount" fields) /\
      transactionIds cause = array_or_absent (lookup "transactionIds" fields)) /\
  (forall fields review,
      normalizeReview (JObject fields) = Ok review ->
      string_or (lookup "playerName" fields) "Unknown"
      = Ok (r_playerName review) /\
      r_amount review
      = match lookup "amount" fields with
        | Some (JNumber q) => q
        | _ => 0
        end /\
      r_notes review = or_else (lookup "notes" fields) JNull) /\
  (forall openaiApiKey found actualTillAmount collaborator,
      let answer := exec collaborator
                      (analyzeTill openaiApiKey found actualTillAmount) in
      (snd answer <= 1)%nat /\
      ((exists body, fst answer = Json200 body) \/
       fst answer = analysis_failed \/
       fst answer = JsonError 404 "Session not found" \/
       fst answer
       = JsonError 500
           "AI analysis is not configured. Please contact support.")) /\
  (forall d e a,
      normalize d e a JNull = Throw /\
      normalize d e a (JObject [("possibleCauses", JString "none")]) = Throw /\
      normalize d e a (JObject [("possibleCauses", JArray [JNull])]) = Throw /\
      normalize d e a
        (JObject [("summary", JObject [("toString", JNull)])]) = Throw).
Proof.
  split; [exact normalizeLikelihood_unknown|].
  split; [intros v H; split; now apply map_or_empty_missing|].
  split; [exact normalizeRecommendations_not_an_array|].
  split; [exact number_or_absent_not_a_number|].
  split; [exact string_or_missing|].
  split; [exact normalizeCause_bare|].
  split; [exact normalizeReview_bare|].
  split; [exact normalize_bare|].
  split; [exact normalizeCause_fields|].
  split; [exact normalizeReview_fields|].
  split; [exact analyzeTill_answers|].
  intros d e a. repeat split.
Qed.

Lemma normalization_fallbacks_witness :
  normalize 5 0 5 (JObject [("note", JString "nothing to say")])
  = Ok (mkResponse 5 0 5 "Till is over by $5.00" [] []
          ["Review all transactions for accuracy"; "Double-check cash counts"]).
Proof.
  apply (proj1 (proj2 (proj2 (proj2 (proj2 (proj2 (proj2 (proj2
           normalization_fallbacks))))))) 5 0 5
           [("note", JString "nothing to say")]).
  repeat constructor.
Defined.

(** C6 as stated fails on an answer without recommendations that names
    a transaction without amount: the recommendations are the two
    default ones, not the empty list, and the amount is 0, not
    absent. *)
Lemma missing_recommendations_and_amount_get_defaults :
  lookup "recommendations" [("transactionsToReview", JArray [JObject []])] = None /\
  lookup "amount" [] = None /\
  normalize 5 0 5 bare_review
  = Ok (mkResponse 5 0 5 "Till is over by $5.00" []
          [mkReview "" "Unknown" "" 0 "" JNull ""]
          ["Review all transactions for accuracy"; "Double-check cash counts"]).
Proof. repeat split. Qed.

End Normalization.

(** ** The tip claim *)

Section TipClaim.
Import Dealers.
Local Open Scope string_scope.

Lemma find_Some_of_In {A : Type} (f : A -> bool) (l : list A) (x : A) :
  In x l -> f x = true -> exists y, find f l = Some y.
Proof.
  intros Hin Hf. destruct (find f l) as [y|] eqn:E; [eauto|].
  now rewrite (find_none f l E x Hin) in Hf.
Qed.

Lemma unpaid_of_set_tipsPaid data d : unpaid_of data (set_tipsPaid d) = false.
Proof.
  unfold unpaid_of, set_tipsPaid. cbn. apply andb_false_r.
Qed.

Lemma no_unpaid_after_update data rows :
  filter (unpaid_of data) (fst (updateMany_tipsPaid data rows)) = [].
Proof.
  unfold updateMany_tipsPaid. cbn [fst].
  induction rows as [|d rows IH]; cbn [map filter]; [reflexivity|].
  destruct (unpaid_of data d) eqn:E.
  - now rewrite unpaid_of_set_tipsPaid.
  - now rewrite E.
Qed.

Lemma claimTipsByDealer_owner db user data :
  owns db user data ->
  claimTipsByDealer db user data
  = let unpaidDowns := filter (unpaid_of data) (dealerDowns db) in
    if (length unpaidDowns =? 0)%nat
    then (Json200 (mkClaimResponse 0 0 0 0), db)
    else
      let totalTips := reduce (fun sum d => sum + DealerDown.tips d) 0 unpaidDowns in
      (Json200
         (mkClaimResponse (length unpaidDowns) totalTips
            (totalTips - totalTips * percentage_of data / 100)
            (totalTips * percentage_of data / 100)),
       mkDatabase (gameSessions db) (fst (updateMany_tipsPaid data (dealerDowns db)))).
Proof.
  intros (s & Hin & Hid & Hown). unfold claimTipsByDealer.
  destruct (find_Some_of_In
              (fun s => String.eqb (sessionId s) (gameSessionId data))
              (gameSessions db) s Hin) as [y ->];
    [now apply String.eqb_eq|].
  destruct (find_Some_of_In
              (fun s => String.eqb (sessionId s) (gameSessionId data)
                        && String.eqb (ownerId s) user)
              (gameSessions db) s Hin) as [z ->];
    [apply andb_true_intro; split; now apply String.eqb_eq|].
  reflexivity.
Qed.

(** C9.  When the owner of the session claims the tips of a dealer with
    percentage [p] (100 when none is given): the answer counts the
    unpaid downs of the dealer in the session, the tips claimed are the
    sum of their tips, the dealer's payout is that sum times [p] over
    100 and the owner's cut is the rest; afterwards every down of the
    dealer in the session has its tips paid, and the same claim made
    again updates nothing. *)
Theorem claimTipsByDealer_spec
  (db : Database) (user : string) (data : ClaimTipsByDealerRequest) :
  owns db user data ->
  let unpaid := filter (unpaid_of data) (dealerDowns db) in
  let answer := claimTipsByDealer db user data in
  (exists body,
      fst answer = Json200 body /\
      updatedCount body = length unpaid /\
      totalTipsClaimed body == total DealerDown.tips unpaid /\
      dealerPayout body == totalTipsClaimed body * percentage_of data / 100 /\
      ownerCut body == totalTipsClaimed body - dealerPayout body) /\
  (forall d, In d (dealerDowns (snd answer)) ->
             DealerDown.gameSessionId d = gameSessionId data ->
             DealerDown.dealerName d = dealerName data ->
             DealerDown.tipsPaid d = true) /\
  fst (claimTipsByDealer (snd answer) user data)
  = Json200 (mkClaimResponse 0 0 0 0).
Proof.
  intros Hown. cbn zeta.
  assert (Hnone : forall db', gameSessions db' = gameSessions db ->
                    filter (unpaid_of data) (dealerDowns db') = [] ->
                    (forall d, In d (dealerDowns db') ->
                               DealerDown.gameSessionId d = gameSessionId data ->
                               DealerDown.dealerName d = dealerName data ->
                               DealerDown.tipsPaid d = true) /\
                    fst (claimTipsByDealer db' user data)
                    = Json200 (mkClaimResponse 0 0 0 0)).
  { intros db' Hs Hf. split.
    - intros d Hin Hg Hn.
      destruct (DealerDown.tipsPaid d) eqn:Hp; [reflexivity|].
      assert (Hd : In d (filter (unpaid_of data) (dealerDowns db'))).
      { apply filter_In. split; [assumption|]. unfold unpaid_of.
        now rewrite Hg, Hn, Hp, !String.eqb_refl. }
      rewrite Hf in Hd. destruct Hd.
    - rewrite claimTipsByDealer_owner.
      + cbn zeta. now rewrite Hf.
      + destruct Hown as (s & Hin & Hid & Ho). exists s. now rewrite Hs. }
  rewrite (claimTipsByDealer_owner db user data Hown). cbn zeta.
  destruct (filter (unpaid_of data) (dealerDowns db)) as [|d0 unpaid] eqn:Hf.
  - cbn [length Nat.eqb fst snd]. split.
    + exists (mkClaimResponse 0 0 0 0). cbn. repeat split; try reflexivity.
    + now apply Hnone.
  - cbn [length Nat.eqb fst snd]. split.
    + eexists. split; [reflexivity|].
      cbn [updatedCount totalTipsClaimed dealerPayout ownerCut].
      split; [reflexivity|]. split; [apply reduce_add_total|].
      split; reflexivity.
    + apply Hnone; [reflexivity|]. cbn [dealerDowns].
      apply no_unpaid_after_update.
Qed.

Lemma claimTipsByDealer_spec_witness :
  owns tables "u1" dee_claims_70 /\
  fst (claimTipsByDealer tables "u1" dee_claims_70)
  = Json200 (mkClaimResponse 2 100 (100 - 100 * 70 / 100) (100 * 70 / 100)) /\
  fst (claimTipsByDealer (snd (claimTipsByDealer tables "u1" dee_claims_70))
         "u1" dee_claims_70)
  = Json200 (mkClaimResponse 0 0 0 0).
Proof.
  assert (H : owns tables "u1" dee_claims_70).
  { exists (mkSessionRow "g1" "u1"). cbn. auto. }
  split; [exact H|]. split; [reflexivity|].
  exact (proj2 (proj2 (claimTipsByDealer_spec tables "u1" dee_claims_70 H))).
Defined.

End TipClaim.
(** ** The player count *)

Lemma fold_Set_add_NoDup (l acc : list string) :
  NoDup acc -> NoDup (fold_left Summary.Set_add l acc).
Proof.
  revert acc. induction l as [|x l IH]; intros acc H; cbn [fold_left]; [exact H|].
  apply IH. unfold Summary.Set_add.
  destruct (existsb (String.eqb x) acc) eqn:E; [exact H|].
  apply NoDup_app; [exact H | repeat constructor; intros [] |].
  intros y Hy [<-|[]].
  assert (existsb (String.eqb x) acc = true); [|congruence].
  apply existsb_exists. exists x. split; [exact Hy | apply String.eqb_refl].
Qed.

Lemma fold_Set_add_In (l acc : list string) (x : string) :
  In x (fold_left Summary.Set_add l acc) <-> In x acc \/ In x l.
Proof.
  revert acc. induction l as [|y l IH]; intros acc; cbn [fold_left In].
  - tauto.
  - rewrite IH. unfold Summary.Set_add.
    destruct (existsb (String.eqb y) acc) eqn:E.
    + apply existsb_exists in E. destruct E as [z [Hz E]].
      apply String.eqb_eq in E. subst z.
      intuition (subst; auto).
    + rewrite in_app_iff. cbn [In]. tauto.
Qed.

Lemma uniquePlayers_distinct (session : GameSession.t) :
  Permutation (Summary.uniquePlayers session)
    (nodup string_dec
       (map PlayerTransaction.playerName
          (GameSession.playerTransactions session))).
Proof.
  apply NoDup_Permutation.
  - apply fold_Set_add_NoDup. constructor.
  - apply NoDup_nodup.
  - intros x. unfold Summary.uniquePlayers.
    rewrite fold_Set_add_In, nodup_In. cbn [In]. tauto.
Qed.

(** X1.  The player count of the summary is the number of distinct
    player names among the transactions of the session: a name counts
    once however many transactions carry it, a name counts as soon as
    one transaction of any kind carries it, and the count never
    exceeds the number of transactions. *)
Theorem playerCount_counts_distinct_names (session : GameSession.t) :
  let txs := GameSession.playerTransactions session in
  NoDup (Summary.uniquePlayers session) /\
  (forall name, In name (Summary.uniquePlayers session) <->
                exists t, In t txs /\ PlayerTransaction.playerName t = name) /\
  Summary.playerCount session
  = length (nodup string_dec (map PlayerTransaction.playerName txs)) /\
  (Summary.playerCount session <= length txs)%nat.
Proof.
  cbn zeta. split; [|split; [|split]].
  - apply fold_Set_add_NoDup. constructor.
  - intros name. unfold Summary.uniquePlayers.
    rewrite fold_Set_add_In, in_map_iff. cbn [In].
    split.
    + intros [[]|[t [E H]]]. now exists t.
    + intros [t [H E]]. right. now exists t.
  - unfold Summary.playerCount.
    apply Permutation_length, uniquePlayers_distinct.
  - unfold Summary.playerCount.
    rewrite (Permutation_length (uniquePlayers_distinct session)).
    rewrite <- (length_map PlayerTransaction.playerName).
    apply NoDup_incl_length; [apply NoDup_nodup|].
    intros x Hx. now apply nodup_In in Hx.
Qed.

Lemma playerCount_perm (s s' : GameSession.t) :
  Permutation (GameSession.playerTransactions s)
    (GameSession.playerTransactions s') ->
  Summary.playerCount s = Summary.playerCount s'.
Proof.
  intros H. unfold Summary.playerCount.
  rewrite (Permutation_length (uniquePlayers_distinct s)),
    (Permutation_length (uniquePlayers_distinct s')).
  apply Permutation_length, NoDup_Permutation; try apply NoDup_nodup.
  intros x. rewrite !nodup_In.
  split; apply Permutation_in; [|symmetry]; now apply Permutation_map.
Qed.

(** ** The application as a whole *)

Section Application.
Import Db App Integrity.
Local Open Scope string_scope.

Lemma latest_None (rows : list GameSessionRow.t) :
  GameRoutes.latest rows = None -> rows = [].
Proof.
  destruct rows as [|s rows]; [reflexivity|]. cbn [GameRoutes.latest].
  destruct (GameRoutes.latest rows); [|discriminate].
  now destruct (_ <? _)%Z.
Qed.

Lemma count_map_le {A : Type} (p : A -> bool) (g : A -> A) (rows : list A) :
  (forall r, p (g r) = true -> p r = true) ->
  (length (filter p (map g rows)) <= length (filter p rows))%nat.
Proof.
  intros H. induction rows as [|r rows IH]; cbn [map filter]; [lia|].
  destruct (p (g r)) eqn:E.
  - rewrite (H r E). cbn [length]. lia.
  - destruct (p r); cbn [length]; lia.
Qed.

Lemma count_filter_le {A : Type} (p q : A -> bool) (rows : list A) :
  (length (filter p (filter q rows)) <= length (filter p rows))%nat.
Proof.
  induction rows as [|r rows IH]; cbn [filter]; [lia|].
  destruct (q r), (p r) eqn:E; cbn [filter length]; rewrite ?E; cbn [length]; lia.
Qed.

Lemma one_active_game_update (db : Db.t) (k : string)
  (g : GameSessionRow.t -> GameSessionRow.t) :
  (forall user r, active_of user (g r) = true -> active_of user r = true) ->
  one_active_game db ->
  one_active_game
    (with_gameSessions db (update GameSessionRow.id k g (gameSessions db))).
Proof.
  intros Hg H user. cbn [with_gameSessions gameSessions]. unfold update.
  etransitivity; [apply count_map_le | apply (H user)].
  intros r. destruct (String.eqb _ k); [apply Hg | trivial].
Qed.

Lemma active_of_set_ended now user r :
  active_of user (GameRoutes.set_ended now r) = false.
Proof. reflexivity. Qed.

Lemma filter_none {A : Type} (p : A -> bool) (rows : list A) :
  (forall r, In r rows -> p r = false) -> filter p rows = [].
Proof.
  induction rows as [|r rows IH]; intros H; cbn [filter]; [reflexivity|].
  rewrite (H r (or_introl eq_refl)). apply IH. intros; apply H; now right.
Qed.

Lemma one_active_game_create (db : Db.t) (rows : list GameSessionRow.t)
  (user : string) (s : GameSessionRow.t) :
  GameSessionRow.userId s = user ->
  filter (active_of user) rows = [] ->
  (forall u, (length (filter (active_of u) rows) <= 1)%nat) ->
  one_active_game (with_gameSessions db (rows ++ [s])).
Proof.
  intros Hs H0 H u. cbn [with_gameSessions gameSessions].
  rewrite filter_app, length_app. cbn [filter].
  destruct (active_of u s) eqn:E; cbn [length].
  - unfold active_of in E. apply andb_prop in E. destruct E as [_ E].
    apply String.eqb_eq in E. rewrite Hs in E. subst u. rewrite H0.
    cbn [length]. lia.
  - specialize (H u). lia.
Qed.

Lemma one_active_game_route env db user request :
  one_active_game db -> one_active_game (snd (route env db user request)).
Proof.
  intros H.
  assert (Hsame : forall db', gameSessions db' = gameSessions db ->
                              one_active_game db').
  { intros db' E u. rewrite E. apply H. }
  destruct request; cbn [route]; unfold zValidator, outcome, claim_outcome;
    repeat match goal with
           | |- context [if ?b then _ else _] =>
               match b with
               | PlayerRoutes.valid_add _ => destruct b; [|exact H]
               | PlayerRoutes.valid_update _ => destruct b; [|exact H]
               | DealerRoutes.valid_add _ => destruct b; [|exact H]
               | DealerRoutes.valid_update _ => destruct b; [|exact H]
               | DealerRoutes.valid_claim _ => destruct b; [|exact H]
               | DealerRoutes.valid_totalRake _ => destruct b; [|exact H]
               | ExpenseRoutes.valid_add _ => destruct b; [|exact H]
               | ExpenseRoutes.valid_update _ => destruct b; [|exact H]
               | ShareRoutes.valid_join _ => destruct b; [|exact H]
               end
           end; cbn [snd].
  - (* GetActive *)
    unfold GameRoutes.getActive.
    destruct (GameRoutes.latest _) eqn:E; [exact H|].
    destruct (GameRoutes.active_membership db user); [exact H|]. cbn [snd].
    apply latest_None in E.
    now apply one_active_game_create with (user := user).
  - (* EndGame *)
    unfold GameRoutes.endGame.
    destruct (find _ _); [|exact H].
    assert (H1 : one_active_game
                   (with_gameSessions db
                      (update GameSessionRow.id sessionId
                         (GameRoutes.set_ended (now env)) (gameSessions db)))).
    { apply one_active_game_update; [|exact H]. intros u r.
      now rewrite active_of_set_ended. }
    destruct (findUnique _ _ _); [|exact H1]. cbn [snd].
    intros u. apply (H1 u).
  - (* DeleteGame *)
    unfold GameRoutes.deleteGame. destruct (find _ _); [|exact H]. cbn [snd].
    intros u. cbn [GameRoutes.delete_session gameSessions]. unfold delete.
    etransitivity; [apply count_filter_le | apply H].
  - (* StartNewGame *)
    unfold GameRoutes.startNewGame, updateMany. cbn [snd].
    apply one_active_game_create with (user := user); [reflexivity | |].
    + apply filter_none. intros r Hr. apply in_map_iff in Hr.
      destruct Hr as [r0 [<- _]].
      destruct (active_of user r0) eqn:E; [reflexivity | exact E].
    + intros u. etransitivity; [apply count_map_le | apply (H u)].
      intros r. destruct (active_of user r); [discriminate | trivial].
  - unfold PlayerRoutes.addTransaction. destruct (find _ _); [|exact H].
    now apply Hsame.
  - unfold PlayerRoutes.deleteTransaction. destruct (owned_row _ _ _ _ _ _); [|exact H].
    now apply Hsame.
  - unfold PlayerRoutes.updateTransaction, PlayerRoutes.change_transaction.
    destruct (owned_row _ _ _ _ _ _); [|exact H]. now apply Hsame.
  - unfold PlayerRoutes.markPaid, PlayerRoutes.change_transaction.
    destruct (owned_row _ _ _ _ _ _); [|exact H]. now apply Hsame.
  - unfold PlayerRoutes.markUnpaid, PlayerRoutes.change_transaction.
    destruct (owned_row _ _ _ _ _ _); [|exact H]. now apply Hsame.
  - unfold DealerRoutes.addDown. destruct (find _ _); [|exact H].
    destruct (negb _); [exact H|]. now apply Hsame.
  - unfold DealerRoutes.deleteDown. destruct (owned_row _ _ _ _ _ _); [|exact H].
    now apply Hsame.
  - unfold DealerRoutes.updateDown, DealerRoutes.change_down.
    destruct (owned_row _ _ _ _ _ _); [|exact H]. now apply Hsame.
  - unfold DealerRoutes.payTips, DealerRoutes.change_down.
    destruct (owned_row _ _ _ _ _ _); [|exact H]. now apply Hsame.
  - unfold DealerRoutes.unpayTips, DealerRoutes.change_down.
    destruct (owned_row _ _ _ _ _ _); [|exact H]. now apply Hsame.
  - unfold DealerRoutes.claimRake, DealerRoutes.change_down.
    destruct (owned_row _ _ _ _ _ _); [|exact H]. now apply Hsame.
  - unfold DealerRoutes.unclaimRake, DealerRoutes.change_down.
    destruct (owned_row _ _ _ _ _ _); [|exact H]. now apply Hsame.
  - unfold DealerRoutes.claimTipsByDealer.
    destruct (Dealers.claimTipsByDealer _ _ _). now apply Hsame.
  - unfold DealerRoutes.claimAllRake.
    destruct (findUnique _ _ _); [|exact H].
    destruct (find _ _); [|exact H].
    destruct (_ =? _)%nat; [exact H|]. now apply Hsame.
  - unfold DealerRoutes.updateTotalRake.
    destruct (findUnique _ _ _); [|exact H].
    destruct (find _ _); [|exact H].
    destruct (negb _); [exact H|]. cbn [snd].
    apply one_active_game_update; [|exact H]. intros u r E. exact E.
  - unfold ExpenseRoutes.addExpense. destruct (find _ _); [|exact H].
    now apply Hsame.
  - unfold ExpenseRoutes.deleteExpense. destruct (owned_row _ _ _ _ _ _); [|exact H].
    now apply Hsame.
  - unfold ExpenseRoutes.updateExpense. destruct (owned_row _ _ _ _ _ _); [|exact H].
    now apply Hsame.
  - unfold ShareRoutes.generate. destruct (find _ _); [|exact H].
    destruct (existsb _ _); [exact H|]. cbn [snd].
    apply one_active_game_update; [|exact H]. intros u r E. exact E.
  - unfold ShareRoutes.join. destruct (find _ _); [|exact H].
    destruct (ShareRoutes.expired _ _); [exact H|].
    destruct (has_member _ _ _); [exact H|].
    destruct (String.eqb _ _); [exact H|]. now apply Hsame.
  - unfold ShareRoutes.removeMember. destruct (find _ _); [|exact H].
    destruct (existsb _ _); [|exact H]. now apply Hsame.
  - unfold ShareRoutes.revokeCode. destruct (find _ _); [|exact H]. cbn [snd].
    apply one_active_game_update; [|exact H]. intros u r E. exact E.
Qed.

Lemma handle_unauthenticated env db request :
  handle env db None request = (401%nat, db).
Proof. reflexivity. Qed.

(** X3.  Each user owns at most one active game: every request keeps
    this, whoever sends it and whatever it asks for, and so it holds
    after any sequence of requests that starts from the empty
    database. *)
Theorem one_active_game_per_user :
  (forall env db user request,
      one_active_game db ->
      one_active_game (snd (handle env db user request))) /\
  (forall requests, one_active_game (run_all Integrity.empty requests)).
Proof.
  assert (Hstep : forall env db user request,
             one_active_game db ->
             one_active_game (snd (handle env db user request))).
  { intros env db [user|] request H; [|exact H].
    now apply one_active_game_route. }
  split; [exact Hstep|].
  assert (Hall : forall requests db, one_active_game db ->
                                     one_active_game (run_all db requests)).
  { induction requests as [|[[env user] request] rest IH]; intros db H;
      cbn [run_all]; [exact H|]. apply IH, Hstep, H. }
  intros requests. apply Hall. intros user. cbn. lia.
Qed.

End Application.

(** The handlers of the routes, unfolded down to their queries. *)
Ltac unfold_routes :=
  unfold GameRoutes.getActive, GameRoutes.endGame, GameRoutes.deleteGame,
    GameRoutes.startNewGame,
    PlayerRoutes.addTransaction, PlayerRoutes.deleteTransaction,
    PlayerRoutes.updateTransaction, PlayerRoutes.markPaid,
    PlayerRoutes.markUnpaid, PlayerRoutes.change_transaction,
    DealerRoutes.addDown, DealerRoutes.deleteDown, DealerRoutes.updateDown,
    DealerRoutes.payTips, DealerRoutes.unpayTips, DealerRoutes.claimRake,
    DealerRoutes.unclaimRake, DealerRoutes.change_down,
    DealerRoutes.claimTipsByDealer, DealerRoutes.claimAllRake,
    DealerRoutes.updateTotalRake,
    ExpenseRoutes.addExpense, ExpenseRoutes.deleteExpense,
    ExpenseRoutes.updateExpense,
    ShareRoutes.generate, ShareRoutes.join, ShareRoutes.removeMember,
    ShareRoutes.revokeCode.

(** One goal for each way a request can end. *)
Ltac route_cases :=
  cbn [App.route]; unfold App.zValidator, App.outcome, App.claim_outcome;
  unfold_routes;
  repeat match goal with
         | |- context [match ?x with _ => _ end] => destruct x eqn:?
         end;
  cbn [fst snd].

Section Ranges.
Import Db App Integrity.
Local Open Scope string_scope.

Lemma gt_true (a b : Q) : Js.gt a b = true <-> (b < a)%Q.
Proof.
  unfold Js.gt. rewrite Qgt_alt. destruct (a ?= b)%Q; intuition congruence.
Qed.

Lemma at_least_0_true (x : Q) : DealerRoutes.at_least_0 x = true <-> (0 <= x)%Q.
Proof.
  unfold DealerRoutes.at_least_0. rewrite negb_true_iff. apply lt_false.
Qed.

Lemma Forall_update {A : Type} (P : A -> Prop) (key : A -> string)
  (k : string) (f : A -> A) (rows : list A) :
  (forall r, P r -> P (f r)) ->
  Forall P rows -> Forall P (update key k f rows).
Proof.
  intros Hf H. unfold update. apply Forall_map.
  eapply Forall_impl; [|exact H]. intros r Hr. cbn beta.
  destruct (String.eqb _ k); auto.
Qed.

Lemma Forall_delete {A : Type} (P : A -> Prop) (key : A -> string)
  (k : string) (rows : list A) :
  Forall P rows -> Forall P (delete key k rows).
Proof.
  intros H. unfold delete. apply Forall_forall. intros r Hr.
  apply filter_In in Hr. destruct Hr as [Hr _].
  revert r Hr. now apply Forall_forall.
Qed.

Lemma Forall_updateMany {A : Type} (P : A -> Prop) (p : A -> bool)
  (f : A -> A) (rows : list A) :
  (forall r, P r -> P (f r)) ->
  Forall P rows -> Forall P (fst (updateMany p f rows)).
Proof.
  intros Hf H. unfold updateMany. cbn [fst]. apply Forall_map.
  eapply Forall_impl; [|exact H]. intros r Hr. cbn beta.
  destruct (p r); auto.
Qed.

Lemma Forall_snoc {A : Type} (P : A -> Prop) (rows : list A) (r : A) :
  Forall P rows -> P r -> Forall P (rows ++ [r]).
Proof. intros H Hr. apply Forall_app. split; [exact H | now constructor]. Qed.

(** The downs that a tip claim leaves: those it found, or those with
    the tips of the claimed ones paid. *)
Lemma claimTipsByDealer_downs (tables : Dealers.Database) user data :
  Dealers.dealerDowns (snd (Dealers.claimTipsByDealer tables user data))
  = Dealers.dealerDowns tables \/
  (exists s, In s (Dealers.gameSessions tables) /\
             Dealers.sessionId s = Dealers.gameSessionId data /\
             Dealers.ownerId s = user) /\
  Dealers.dealerDowns (snd (Dealers.claimTipsByDealer tables user data))
  = map (fun d => if Dealers.unpaid_of data d then Dealers.set_tipsPaid d else d)
      (Dealers.dealerDowns tables).
Proof.
  unfold Dealers.claimTipsByDealer.
  destruct (find _ _) as [x|]; [|now left].
  destruct (find _ _) as [s|] eqn:E; [|now left].
  destruct (_ =? _)%nat; [now left|]. right. split; [|reflexivity].
  exists s. apply find_some in E. destruct E as [Hin E].
  apply andb_prop in E. destruct E as [E1 E2].
  apply String.eqb_eq in E1, E2. auto.
Qed.

Lemma updateMany_fst {A : Type} (p : A -> bool) (f : A -> A) rows l n :
  updateMany p f rows = (l, n) -> l = fst (updateMany p f rows).
Proof. now intros ->. Qed.

Lemma amounts_in_range_route env db user request :
  amounts_in_range db -> amounts_in_range (snd (route env db user request)).
Proof.
  intros H. destruct request; route_cases; try exact H.
  all: destruct H as (Ht & Hd & He & Hs).
  all: unfold amounts_in_range; cbn [with_users with_gameSessions with_members
         with_playerTransactions with_dealerDowns with_expenses
         playerTransactions dealerDowns expenses gameSessions
         GameRoutes.delete_session].
  all: repeat split; try assumption.
  all: try (apply Forall_delete; assumption).
  all: repeat match goal with
         | E : updateMany _ _ _ = (?l, _) |- Forall _ ?l =>
             rewrite (updateMany_fst _ _ _ _ _ E); apply Forall_updateMany;
             [intros r Hr; exact Hr | assumption]
         | E : updateMany _ _ _ = (?l, _) |- Forall _ (?l ++ _) =>
             apply Forall_snoc;
             [rewrite (updateMany_fst _ _ _ _ _ E); apply Forall_updateMany;
              [intros r Hr; exact Hr | assumption]
             | cbn; lra]
         | |- Forall _ (_ ++ [_]) => apply Forall_snoc; [assumption|]
         | |- Forall _ (update _ _ _ _) =>
             apply Forall_update; [intros r Hr | assumption]
         end.
  all: cbn [GameRoutes.create_session GameSessionRow.totalRake
         InSession.row PlayerTransaction.amount DealerDown.tips DealerDown.rake
         Expense.amount PlayerRoutes.set_fields PlayerRoutes.set_isPaid
         DealerRoutes.set_fields DealerRoutes.set_tipsPaid
         DealerRoutes.set_rakeClaimed DealerRoutes.set_totalRake
         ExpenseRoutes.set_fields ShareRoutes.set_share GameRoutes.set_ended];
       try assumption; try lra.
  all: repeat match goal with
         | E : _ && _ = true |- _ =>
             apply andb_prop in E; destruct E
         | E : PlayerRoutes.valid_add _ = true |- _ =>
             unfold PlayerRoutes.valid_add in E
         | E : PlayerRoutes.valid_update _ = true |- _ =>
             unfold PlayerRoutes.valid_update in E
         | E : DealerRoutes.valid_add _ = true |- _ =>
             unfold DealerRoutes.valid_add in E
         | E : DealerRoutes.valid_update _ = true |- _ =>
             unfold DealerRoutes.valid_update in E
         | E : DealerRoutes.valid_totalRake _ = true |- _ =>
             unfold DealerRoutes.valid_totalRake in E
         | E : ExpenseRoutes.valid_add _ = true |- _ =>
             unfold ExpenseRoutes.valid_add in E
         | E : ExpenseRoutes.valid_update _ = true |- _ =>
             unfold ExpenseRoutes.valid_update in E
         | E : Js.gt _ 0 = true |- _ => apply gt_true in E
         | E : DealerRoutes.at_least_0 _ = true |- _ =>
             apply at_least_0_true in E
         end; try (split; assumption); try assumption.
  all: match goal with
       | E : Dealers.claimTipsByDealer ?t ?u ?d = (?h, ?tables)
         |- Forall _ (Dealers.dealerDowns ?tables) =>
           change tables with (snd (@pair Dealers.HttpResponse _ h tables));
           rewrite <- E;
           destruct (claimTipsByDealer_downs t u d) as [-> | [_ ->]];
           [exact Hd|];
           apply Forall_map; eapply Forall_impl; [|exact Hd];
           intros r Hr; cbn beta; destruct (Dealers.unpaid_of _ r);
           [exact Hr | exact Hr]
       end.
Qed.

(** X4.  The amounts in the database stay in the ranges the request
    schemas ask for: no request, valid or not, leaves a transaction or
    an expense whose amount is not positive, a dealer down with negative
    tips or rake, or a session with a negative lump-sum rake; and so
    none is there after any sequence of requests that starts from the
    empty database. *)
Theorem amounts_stay_in_range :
  (forall env db user request,
      amounts_in_range db ->
      amounts_in_range (snd (handle env db user request))) /\
  (forall requests, amounts_in_range (run_all Integrity.empty requests)).
Proof.
  assert (Hstep : forall env db user request,
             amounts_in_range db ->
             amounts_in_range (snd (handle env db user request))).
  { intros env db [user|] request H; [|exact H].
    now apply amounts_in_range_route. }
  split; [exact Hstep|].
  assert (Hall : forall requests db, amounts_in_range db ->
                                     amounts_in_range (run_all db requests)).
  { induction requests as [|[[env user] request] rest IH]; intros db H;
      cbn [run_all]; [exact H|]. apply IH, Hstep, H. }
  intros requests. apply Hall. repeat split; constructor.
Qed.

End Ranges.

Section Isolation.
Import Db App Integrity.
Local Open Scope string_scope.
Local Open Scope list_scope.

(** What a query by key, an update and a delete leave of the rows
    that satisfy [p], when the rows they touch do not. *)
Lemma filter_update_frame {A : Type} (p : A -> bool) (key : A -> string)
  (k : string) (f : A -> A) (rows : list A) :
  (forall r, In r rows -> key r = k -> p r = false /\ p (f r) = false) ->
  filter p (update key k f rows) = filter p rows.
Proof.
  unfold update. induction rows as [|r rows IH]; intros H; cbn [map filter];
    [reflexivity|].
  rewrite IH by (intros r' Hr'; apply H; now right).
  destruct (String.eqb (key r) k) eqn:E; [|reflexivity].
  apply String.eqb_eq in E.
  destruct (H r (or_introl eq_refl) E) as [-> ->]. reflexivity.
Qed.

Lemma filter_delete_frame {A : Type} (p : A -> bool) (key : A -> string)
  (k : string) (rows : list A) :
  (forall r, In r rows -> key r = k -> p r = false) ->
  filter p (delete key k rows) = filter p rows.
Proof.
  unfold delete. induction rows as [|r rows IH]; intros H; cbn [filter];
    [reflexivity|].
  specialize (IH (fun r' Hr' => H r' (or_intror Hr'))).
  destruct (String.eqb (key r) k) eqn:E; cbn [negb filter].
  - apply String.eqb_eq in E. rewrite (H r (or_introl eq_refl) E). exact IH.
  - now rewrite IH.
Qed.

Lemma filter_updateMany_frame {A : Type} (p w : A -> bool) (f : A -> A)
  (rows : list A) :
  (forall r, In r rows -> w r = true -> p r = false /\ p (f r) = false) ->
  filter p (fst (updateMany w f rows)) = filter p rows.
Proof.
  unfold updateMany. cbn [fst].
  induction rows as [|r rows IH]; intros H; cbn [map filter]; [reflexivity|].
  rewrite IH by (intros r' Hr'; apply H; now right).
  destruct (w r) eqn:E; [|reflexivity].
  destruct (H r (or_introl eq_refl) E) as [-> ->]. reflexivity.
Qed.

(** What the guard of the routes on one row found. *)
Lemma owned_row_Some {A : Type} (key session_of : A -> string) db user id rows r :
  owned_row key session_of db user id rows = Some r ->
  In r rows /\ key r = id /\
  exists s, In s (gameSessions db) /\ GameSessionRow.id s = session_of r /\
            GameSessionRow.userId s = user.
Proof.
  unfold owned_row, findUnique. intros H.
  destruct (find _ rows) as [r0|] eqn:E; [|discriminate].
  destruct (find _ (gameSessions db)) as [s|] eqn:Es; [|discriminate].
  destruct (String.eqb (GameSessionRow.userId s) user) eqn:Eu; [|discriminate].
  injection H as <-.
  apply find_some in E, Es. destruct E as [Hin E], Es as [Hs Es].
  apply String.eqb_eq in E, Es, Eu. eauto 7.
Qed.

Lemma unique_key {A : Type} (key : A -> string) (rows : list A) (r r' : A) :
  NoDup (map key rows) -> In r rows -> In r' rows -> key r = key r' -> r = r'.
Proof.
  induction rows as [|x rows IH]; cbn [map In]; [tauto|].
  intros Hn [->|Hr] [->|Hr'] E; inversion_clear Hn as [|? ? Hx Hrest]; auto.
  - destruct Hx. rewrite E. now apply in_map.
  - destruct Hx. rewrite <- E. now apply in_map.
Qed.

(** The row a guarded route works on belongs to a session of the
    user: no row with its key belongs to a session that the user does
    not own. *)
Lemma owned_row_elsewhere {A : Type} (key session_of : A -> string)
  db user id rows r sid :
  NoDup (map key rows) ->
  owned_row key session_of db user id rows = Some r ->
  (forall s, In s (gameSessions db) -> GameSessionRow.id s = sid ->
             GameSessionRow.userId s <> user) ->
  forall r', In r' rows -> key r' = id ->
             String.eqb (session_of r') sid = false.
Proof.
  intros Hn H Hsid r' Hr' Hk.
  apply owned_row_Some in H. destruct H as (Hr & Hkey & s & Hs & Hid & Hu).
  assert (r' = r) as -> by (eapply unique_key; eauto; congruence).
  apply String.eqb_neq. intros E. apply (Hsid s Hs); congruence.
Qed.

Lemma map_filter_update_same {A B : Type} (g : A -> B) (p : A -> bool)
  (key : A -> string) (k : string) (f : A -> A) (rows : list A) :
  (forall r, p (f r) = p r /\ g (f r) = g r) ->
  map g (filter p (update key k f rows)) = map g (filter p rows).
Proof.
  intros H. unfold update.
  induction rows as [|r rows IH]; cbn [map filter]; [reflexivity|].
  destruct (String.eqb (key r) k).
  - destruct (H r) as [-> Hg]. destruct (p r); cbn [map]; now rewrite ?Hg, IH.
  - destruct (p r); cbn [map]; now rewrite IH.
Qed.

Section NotTheOwner.
Variables (db : Db.t) (user sid : string).
Hypothesis Hsid :
  forall s, In s (gameSessions db) -> GameSessionRow.id s = sid ->
            GameSessionRow.userId s <> user.

Lemma owned_elsewhere k t0 :
  find (owned user k) (gameSessions db) = Some t0 -> String.eqb k sid = false.
Proof.
  intros H. apply find_some in H. destruct H as [Hin H].
  apply andb_prop in H. destruct H as [Hk Hu].
  apply String.eqb_eq in Hk, Hu. apply String.eqb_neq. intros ->.
  now apply (Hsid t0 Hin).
Qed.

Lemma active_elsewhere t0 :
  find (active_of user) (gameSessions db) = Some t0 ->
  String.eqb (GameSessionRow.id t0) sid = false.
Proof.
  intros H. apply find_some in H. destruct H as [Hin H].
  apply andb_prop in H. destruct H as [_ Hu].
  apply String.eqb_eq in Hu. apply String.eqb_neq. intros E.
  now apply (Hsid t0 Hin).
Qed.

Lemma sessions_update_elsewhere k f :
  String.eqb k sid = false ->
  (forall r, GameSessionRow.id (f r) = GameSessionRow.id r) ->
  filter (fun s => String.eqb (GameSessionRow.id s) sid)
    (update GameSessionRow.id k f (gameSessions db))
  = filter (fun s => String.eqb (GameSessionRow.id s) sid) (gameSessions db).
Proof.
  intros Hk Hf. apply filter_update_frame. intros r _ E.
  now rewrite Hf, E.
Qed.

Lemma cascade_elsewhere {A : Type} (session_of : A -> string) k
  (rows : list A) :
  String.eqb k sid = false ->
  filter (fun r => String.eqb (session_of r) sid) (delete session_of k rows)
  = filter (fun r => String.eqb (session_of r) sid) rows.
Proof.
  intros Hk. apply filter_delete_frame. intros r _ E. now rewrite E.
Qed.

Lemma row_update_elsewhere {A : Type} (key session_of : A -> string) id f
  (rows : list A) r :
  NoDup (map key rows) ->
  owned_row key session_of db user id rows = Some r ->
  (forall x, session_of (f x) = session_of x) ->
  filter (fun x => String.eqb (session_of x) sid) (update key id f rows)
  = filter (fun x => String.eqb (session_of x) sid) rows.
Proof.
  intros Hn H Hf. apply filter_update_frame. intros r' Hr' E.
  rewrite Hf.
  now rewrite (owned_row_elsewhere key session_of db user id rows r sid Hn H Hsid r' Hr' E).
Qed.

Lemma row_delete_elsewhere {A : Type} (key session_of : A -> string) id
  (rows : list A) r :
  NoDup (map key rows) ->
  owned_row key session_of db user id rows = Some r ->
  filter (fun x => String.eqb (session_of x) sid) (delete key id rows)
  = filter (fun x => String.eqb (session_of x) sid) rows.
Proof.
  intros Hn H. apply filter_delete_frame. intros r' Hr' E.
  exact (owned_row_elsewhere key session_of db user id rows r sid Hn H Hsid r' Hr' E).
Qed.

Lemma sessions_updateMany_elsewhere f :
  (forall r, GameSessionRow.id (f r) = GameSessionRow.id r) ->
  filter (fun s => String.eqb (GameSessionRow.id s) sid)
    (fst (updateMany (active_of user) f (gameSessions db)))
  = filter (fun s => String.eqb (GameSessionRow.id s) sid) (gameSessions db).
Proof.
  intros Hf. apply filter_updateMany_frame. intros r Hr E.
  rewrite Hf. apply andb_prop in E. destruct E as [_ E].
  apply String.eqb_eq in E.
  assert (String.eqb (GameSessionRow.id r) sid = false); [|auto].
  apply String.eqb_neq. intros Hid. now apply (Hsid r Hr).
Qed.

Lemma claimed_elsewhere data tables :
  (exists s, In s (Dealers.gameSessions (DealerRoutes.dealers_tables db)) /\
             Dealers.sessionId s = Dealers.gameSessionId data /\
             Dealers.ownerId s = user) ->
  Dealers.dealerDowns tables
  = map (fun d => if Dealers.unpaid_of data d then Dealers.set_tipsPaid d else d)
      (dealerDowns db) ->
  filter (fun d => String.eqb (DealerDown.gameSessionId d) sid)
    (Dealers.dealerDowns tables)
  = filter (fun d => String.eqb (DealerDown.gameSessionId d) sid)
      (dealerDowns db).
Proof.
  intros (s & Hs & Hid & Hu) ->.
  cbn [DealerRoutes.dealers_tables Dealers.gameSessions] in Hs.
  apply in_map_iff in Hs. destruct Hs as (s0 & <- & Hs0).
  cbn [Dealers.sessionId Dealers.ownerId] in Hid, Hu.
  assert (Hk : String.eqb (Dealers.gameSessionId data) sid = false).
  { apply String.eqb_neq. intros E. apply (Hsid s0 Hs0); congruence. }
  change (map _ (dealerDowns db))
    with (fst (updateMany (Dealers.unpaid_of data) Dealers.set_tipsPaid
                 (dealerDowns db))).
  apply filter_updateMany_frame. intros d _ E.
  unfold Dealers.unpaid_of in E.
  apply andb_prop in E. destruct E as [E _].
  apply andb_prop in E. destruct E as [E _].
  apply String.eqb_eq in E. cbn [Dealers.set_tipsPaid DealerDown.gameSessionId].
  now rewrite E.
Qed.

Lemma members_remove_elsewhere memberUserId k :
  String.eqb k sid = false ->
  filter (fun m => String.eqb (GameSessionMember.gameSessionId m) sid)
    (filter (fun m => negb (ShareRoutes.is_member memberUserId k m))
       (members db))
  = filter (fun m => String.eqb (GameSessionMember.gameSessionId m) sid)
      (members db).
Proof.
  intros Hk. induction (members db) as [|m l IH]; cbn [filter]; [reflexivity|].
  destruct (ShareRoutes.is_member memberUserId k m) eqn:E; cbn [negb filter].
  - unfold ShareRoutes.is_member in E. apply andb_prop in E.
    destruct E as [_ E]. apply String.eqb_eq in E. now rewrite E, Hk.
  - now rewrite IH.
Qed.

Lemma downs_updateMany_elsewhere k (w : DealerDown.t -> bool) f :
  String.eqb k sid = false ->
  (forall d, w d = true -> DealerDown.gameSessionId d = k) ->
  (forall d, DealerDown.gameSessionId (f d) = DealerDown.gameSessionId d) ->
  filter (fun d => String.eqb (DealerDown.gameSessionId d) sid)
    (fst (updateMany w f (dealerDowns db)))
  = filter (fun d => String.eqb (DealerDown.gameSessionId d) sid)
      (dealerDowns db).
Proof.
  intros Hk Hw Hf. apply filter_updateMany_frame. intros d _ E.
  now rewrite Hf, (Hw d E).
Qed.

End NotTheOwner.

Lemma not_owner_route env db user request sid :
  unique_keys db ->
  newId env <> sid ->
  (forall s, In s (gameSessions db) -> GameSessionRow.id s = sid ->
             GameSessionRow.userId s <> user) ->
  let db' := snd (route env db user request) in
  map without_rake (sessions_of sid db') = map without_rake (sessions_of sid db) /\
  (exists added, rows_of sid (playerTransactions db')
                 = rows_of sid (playerTransactions db) ++ added) /\
  (exists added, downs_of sid (dealerDowns db')
                 = downs_of sid (dealerDowns db) ++ added) /\
  (exists added, rows_of sid (expenses db')
                 = rows_of sid (expenses db) ++ added) /\
  (exists added, members_of sid db' = members_of sid db ++ added).
Proof.
  intros (Hks & Hkt & Hkd & Hke) Hnew Hsid. cbn zeta.
  assert (Hsame : forall {A} (l : list A), exists added, l = l ++ added).
  { intros A l. exists []. now rewrite app_nil_r. }
  assert (Heq : forall {A} (l l' : list A), l = l' -> exists added, l = l' ++ added).
  { intros A l l' ->. apply Hsame. }
  apply String.eqb_neq in Hnew.
  destruct request; route_cases.
  all: unfold sessions_of, members_of, rows_of, downs_of;
    cbn [with_users with_gameSessions with_members
         with_playerTransactions with_dealerDowns with_expenses
         playerTransactions dealerDowns expenses gameSessions members
         GameRoutes.delete_session].
  all: repeat match goal with
         | |- _ /\ _ => split
         | |- exists added, ?l = ?l ++ added => apply Hsame
         | |- ?l = ?l => reflexivity
         end.
  all: try match goal with
         | E : updateMany _ _ _ = (?l, _) |- _ =>
             rewrite (updateMany_fst _ _ _ _ _ E); clear E
         end.
  all: try (eexists; rewrite filter_app, ?map_app; reflexivity).
  all: try match goal with
         | E : find (owned _ ?k) _ = Some _ |- _ =>
             pose proof (owned_elsewhere _ _ _ Hsid k _ E)
         | E : find (active_of _) _ = Some _ |- _ =>
             pose proof (active_elsewhere _ _ _ Hsid _ E)
         end.
  all: try apply Heq.
  all: try (apply map_filter_update_same; intros r; split; reflexivity).
  all: try match goal with
         | |- map ?g _ = map ?g _ => apply (f_equal (map g))
         end.
  all: try (rewrite filter_app; cbn [filter GameRoutes.create_session GameSessionRow.id];
            rewrite Hnew, app_nil_r).
  all: try reflexivity.
  all: try (apply sessions_update_elsewhere; [assumption | reflexivity]).
  all: try (apply cascade_elsewhere; assumption).
  all: try (eapply (row_update_elsewhere db user sid Hsid transaction_id
                      InSession.gameSessionId);
            [assumption | eassumption | reflexivity]).
  all: try (eapply (row_delete_elsewhere db user sid Hsid transaction_id
                      InSession.gameSessionId);
            [assumption | eassumption]).
  all: try (eapply (row_update_elsewhere db user sid Hsid expense_id
                      InSession.gameSessionId);
            [assumption | eassumption | reflexivity]).
  all: try (eapply (row_delete_elsewhere db user sid Hsid expense_id
                      InSession.gameSessionId);
            [assumption | eassumption]).
  all: try (eapply (row_update_elsewhere db user sid Hsid DealerDown.id
                      DealerDown.gameSessionId);
            [assumption | eassumption | reflexivity]).
  all: try (eapply (row_delete_elsewhere db user sid Hsid DealerDown.id
                      DealerDown.gameSessionId);
            [assumption | eassumption]).
  - now apply sessions_updateMany_elsewhere.
  - destruct (claimTipsByDealer_downs (DealerRoutes.dealers_tables db) user data)
      as [E | [Ho E]]; rewrite Heqp in E; cbn [snd] in E.
    + now rewrite E.
    + now apply (claimed_elsewhere db user sid Hsid data).
  - destruct (claimTipsByDealer_downs (DealerRoutes.dealers_tables db) user data)
      as [E | [Ho E]]; rewrite Heqp in E; cbn [snd] in E.
    + now rewrite E.
    + now apply (claimed_elsewhere db user sid Hsid data).
  - apply (downs_updateMany_elsewhere db sid gameSessionId); [assumption | | reflexivity].
    intros d0 E. unfold DealerRoutes.unclaimed_of in E.
    apply andb_prop in E. destruct E as [E _]. now apply String.eqb_eq in E.
  - now apply members_remove_elsewhere.
Qed.

(** X5.  A user who does not own a session can only add to it.
    Whatever such a user requests: the transactions, the dealer downs,
    the expenses and the members the session had are still there,
    unchanged and in their order, with at most new ones after them; and
    the row of the session is as it was but for its lump-sum rake.
    (Primary keys are unique, and the key of the row the request may
    create is not the key of the session.) *)
Theorem only_the_owner_changes_or_removes env db user request sid :
  unique_keys db ->
  newId env <> sid ->
  (forall s, In s (gameSessions db) -> GameSessionRow.id s = sid ->
             Some (GameSessionRow.userId s) <> user) ->
  let db' := snd (handle env db user request) in
  map without_rake (sessions_of sid db') = map without_rake (sessions_of sid db) /\
  (exists added, rows_of sid (playerTransactions db')
                 = rows_of sid (playerTransactions db) ++ added) /\
  (exists added, downs_of sid (dealerDowns db')
                 = downs_of sid (dealerDowns db) ++ added) /\
  (exists added, rows_of sid (expenses db')
                 = rows_of sid (expenses db) ++ added) /\
  (exists added, members_of sid db' = members_of sid db ++ added).
Proof.
  intros Hk Hnew Hsid. destruct user as [user|].
  - apply not_owner_route; try assumption.
    intros s Hs Hid E. apply (Hsid s Hs Hid). now rewrite E.
  - cbn. repeat split; try (exists []; now rewrite app_nil_r).
Qed.

Section NoAccess.
Variables (db : Db.t) (user sid : string).
Hypothesis Hnone : find (accessible db user sid) (gameSessions db) = None.

Lemma no_access_not_owner :
  forall s, In s (gameSessions db) -> GameSessionRow.id s = sid ->
            GameSessionRow.userId s <> user.
Proof.
  intros s Hs Hid Hu.
  pose proof (find_none _ _ Hnone s Hs) as E. unfold accessible in E.
  rewrite Hid, Hu, !String.eqb_refl in E. discriminate.
Qed.

Lemma accessible_elsewhere k t0 :
  find (accessible db user k) (gameSessions db) = Some t0 ->
  String.eqb k sid = false.
Proof.
  intros H. apply String.eqb_neq. intros ->. congruence.
Qed.

End NoAccess.

Lemma no_access_route env db user request sid :
  unique_keys db ->
  newId env <> sid ->
  find (accessible db user sid) (gameSessions db) = None ->
  let db' := snd (route env db user request) in
  sessions_of sid db' = sessions_of sid db /\
  rows_of sid (playerTransactions db') = rows_of sid (playerTransactions db) /\
  downs_of sid (dealerDowns db') = downs_of sid (dealerDowns db) /\
  rows_of sid (expenses db') = rows_of sid (expenses db).
Proof.
  intros (Hks & Hkt & Hkd & Hke) Hnew Hnone. cbn zeta.
  pose proof (no_access_not_owner db user sid Hnone) as Hsid.
  apply String.eqb_neq in Hnew.
  destruct request; route_cases.
  all: unfold sessions_of, rows_of, downs_of;
    cbn [with_users with_gameSessions with_members
         with_playerTransactions with_dealerDowns with_expenses
         playerTransactions dealerDowns expenses gameSessions members
         GameRoutes.delete_session].
  all: repeat match goal with
         | |- _ /\ _ => split
         | |- ?l = ?l => reflexivity
         end.
  all: try match goal with
         | E : updateMany _ _ _ = (?l, _) |- _ =>
             rewrite (updateMany_fst _ _ _ _ _ E); clear E
         end.
  all: try match goal with
         | E : find (owned _ ?k) _ = Some _ |- _ =>
             pose proof (owned_elsewhere _ _ _ Hsid k _ E)
         | E : find (active_of _) _ = Some _ |- _ =>
             pose proof (active_elsewhere _ _ _ Hsid _ E)
         | E : find (accessible _ _ ?k) _ = Some _ |- _ =>
             pose proof (accessible_elsewhere _ _ _ Hnone k _ E)
         end.
  all: try match goal with
         | |- map ?g _ = map ?g _ => apply (f_equal (map g))
         end.
  all: try (rewrite filter_app;
            cbn [filter GameRoutes.create_session GameSessionRow.id
                 InSession.gameSessionId DealerDown.gameSessionId];
            match goal with
            | E : String.eqb _ _ = false |- _ => rewrite ?Hnew, ?E, app_nil_r
            | _ => rewrite Hnew, app_nil_r
            end).
  all: try reflexivity.
  all: try (apply sessions_update_elsewhere; [assumption | reflexivity]).
  all: try (apply cascade_elsewhere; assumption).
  all: try (eapply (row_update_elsewhere db user sid Hsid transaction_id
                      InSession.gameSessionId);
            [assumption | eassumption | reflexivity]).
  all: try (eapply (row_delete_elsewhere db user sid Hsid transaction_id
                      InSession.gameSessionId);
            [assumption | eassumption]).
  all: try (eapply (row_update_elsewhere db user sid Hsid expense_id
                      InSession.gameSessionId);
            [assumption | eassumption | reflexivity]).
  all: try (eapply (row_delete_elsewhere db user sid Hsid expense_id
                      InSession.gameSessionId);
            [assumption | eassumption]).
  all: try (eapply (row_update_elsewhere db user sid Hsid DealerDown.id
                      DealerDown.gameSessionId);
            [assumption | eassumption | reflexivity]).
  all: try (eapply (row_delete_elsewhere db user sid Hsid DealerDown.id
                      DealerDown.gameSessionId);
            [assumption | eassumption]).
  - now apply sessions_updateMany_elsewhere.
  - destruct (claimTipsByDealer_downs (DealerRoutes.dealers_tables db) user data)
      as [E | [Ho E]]; rewrite Heqp in E; cbn [snd] in E.
    + now rewrite E.
    + now apply (claimed_elsewhere db user sid Hsid data).
  - destruct (claimTipsByDealer_downs (DealerRoutes.dealers_tables db) user data)
      as [E | [Ho E]]; rewrite Heqp in E; cbn [snd] in E.
    + now rewrite E.
    + now apply (claimed_elsewhere db user sid Hsid data).
  - apply (downs_updateMany_elsewhere db sid gameSessionId); [assumption | | reflexivity].
    intros d0 E. unfold DealerRoutes.unclaimed_of in E.
    apply andb_prop in E. destruct E as [E _]. now apply String.eqb_eq in E.
Qed.

(** X6.  A user without access to a session (neither its owner nor a
    member of it) cannot change it.  Whatever such a user requests, and
    also when the request carries no user at all: the row of the
    session, its transactions, its dealer downs and its expenses are
    what they were, so that the summary and the analyzer read the same
    session before and after.  (Primary keys are unique, and the key of
    the row the request may create is not the key of the session.) *)
Theorem no_access_no_change env db user request sid :
  unique_keys db ->
  newId env <> sid ->
  (forall u, user = Some u ->
             find (accessible db u sid) (gameSessions db) = None) ->
  let db' := snd (handle env db user request) in
  sessions_of sid db' = sessions_of sid db /\
  rows_of sid (playerTransactions db') = rows_of sid (playerTransactions db) /\
  downs_of sid (dealerDowns db') = downs_of sid (dealerDowns db) /\
  rows_of sid (expenses db') = rows_of sid (expenses db) /\
  (forall s, GameSessionRow.id s = sid -> include db' s = include db s).
Proof.
  intros Hk Hnew Hnone. cbn zeta.
  assert (H : sessions_of sid (snd (handle env db user request))
              = sessions_of sid db /\
              rows_of sid (playerTransactions (snd (handle env db user request)))
              = rows_of sid (playerTransactions db) /\
              downs_of sid (dealerDowns (snd (handle env db user request)))
              = downs_of sid (dealerDowns db) /\
              rows_of sid (expenses (snd (handle env db user request)))
              = rows_of sid (expenses db)).
  { destruct user as [user|]; [|now cbn].
    apply no_access_route; auto. }
  destruct H as (Hs & Ht & Hd & He). repeat split; try assumption.
  intros s <-. unfold include. now rewrite Ht, Hd, He.
Qed.

End Isolation.

(** ** The rake claim of the owner *)

Section Claims.
Import Db Integrity.
Local Open Scope string_scope.
Local Open Scope list_scope.
Local Open Scope Q_scope.

Lemma find_owned_Some db user sid :
  (exists s, In s (gameSessions db) /\ GameSessionRow.id s = sid /\
             GameSessionRow.userId s = user) ->
  (exists x, findUnique GameSessionRow.id sid (gameSessions db) = Some x) /\
  (exists y, find (owned user sid) (gameSessions db) = Some y).
Proof.
  intros (s & Hs & Hid & Hu). split.
  - apply (find_Some_of_In _ _ s Hs). now apply String.eqb_eq.
  - apply (find_Some_of_In _ _ s Hs). unfold owned.
    apply andb_true_intro. split; now apply String.eqb_eq.
Qed.

Lemma unclaimed_of_set_rakeClaimed sid d :
  DealerRoutes.unclaimed_of sid (DealerRoutes.set_rakeClaimed true d) = false.
Proof. unfold DealerRoutes.unclaimed_of. cbn. apply andb_false_r. Qed.

Lemma no_unclaimed_after_update sid rows :
  filter (DealerRoutes.unclaimed_of sid)
    (fst (updateMany (DealerRoutes.unclaimed_of sid)
            (DealerRoutes.set_rakeClaimed true) rows)) = [].
Proof.
  unfold updateMany. cbn [fst].
  induction rows as [|d rows IH]; cbn [map filter]; [reflexivity|].
  destruct (DealerRoutes.unclaimed_of sid d) eqn:E.
  - now rewrite unclaimed_of_set_rakeClaimed.
  - now rewrite E.
Qed.

Lemma claimAllRake_owner db user sid :
  (exists s, In s (gameSessions db) /\ GameSessionRow.id s = sid /\
             GameSessionRow.userId s = user) ->
  DealerRoutes.claimAllRake db user sid
  = let unclaimedDowns :=
      filter (DealerRoutes.unclaimed_of sid) (dealerDowns db) in
    if (length unclaimedDowns =? 0)%nat
    then (Json200 (DealerRoutes.mkClaimAllRake 0 0), db)
    else
      (Json200
         (DealerRoutes.mkClaimAllRake (length unclaimedDowns)
            (reduce (fun sum d => sum + DealerDown.rake d) 0 unclaimedDowns)),
       with_dealerDowns db
         (fst (updateMany (DealerRoutes.unclaimed_of sid)
                 (DealerRoutes.set_rakeClaimed true) (dealerDowns db)))).
Proof.
  intros H. destruct (find_owned_Some db user sid H) as [[x Hx] [y Hy]].
  unfold DealerRoutes.claimAllRake. rewrite Hx, Hy. reflexivity.
Qed.

(** X7.  POST /claim-all-rake.  For the owner of the session: the
    answer counts the dealer downs of the session whose rake is
    unclaimed and gives the sum of their rake; afterwards the rake of
    every down of the session is claimed, nothing else about any down
    has changed, and the same request made again claims nothing.  For
    anyone else, a member included, the answer is an error (404 when no
    session has the key, 403 otherwise) and nothing changes. *)
Theorem claimAllRake_spec (db : Db.t) (user sid : string) :
  let unclaimed := filter (DealerRoutes.unclaimed_of sid) (dealerDowns db) in
  let answer := DealerRoutes.claimAllRake db user sid in
  ((exists s, In s (gameSessions db) /\ GameSessionRow.id s = sid /\
              GameSessionRow.userId s = user) ->
   (exists body,
       fst answer = Json200 body /\
       DealerRoutes.updatedCount body = length unclaimed /\
       DealerRoutes.totalRakeClaimed body == total DealerDown.rake unclaimed) /\
   (forall d, In d (dealerDowns (snd answer)) ->
              DealerDown.gameSessionId d = sid ->
              DealerDown.rakeClaimed d = true) /\
   map (DealerRoutes.set_rakeClaimed true) (dealerDowns (snd answer))
   = map (DealerRoutes.set_rakeClaimed true) (dealerDowns db) /\
   DealerRoutes.claimAllRake (snd answer) user sid
   = (Json200 (DealerRoutes.mkClaimAllRake 0 0), snd answer)) /\
  ((forall s, In s (gameSessions db) -> GameSessionRow.id s = sid ->
              GameSessionRow.userId s <> user) ->
   snd answer = db /\
   (status_of (fst answer) = 404%nat \/ status_of (fst answer) = 403%nat) /\
   (status_of (fst answer) = 404%nat <->
    forall s, In s (gameSessions db) -> GameSessionRow.id s <> sid)).
Proof.
  cbn zeta. split.
  - intros Hown.
    assert (Hnone : forall db', gameSessions db' = gameSessions db ->
               filter (DealerRoutes.unclaimed_of sid) (dealerDowns db') = [] ->
               (forall d, In d (dealerDowns db') ->
                          DealerDown.gameSessionId d = sid ->
                          DealerDown.rakeClaimed d = true) /\
               DealerRoutes.claimAllRake db' user sid
               = (Json200 (DealerRoutes.mkClaimAllRake 0 0), db')).
    { intros db' Hs Hf. split.
      - intros d Hin Hg.
        destruct (DealerDown.rakeClaimed d) eqn:Hc; [reflexivity|].
        assert (Hd : In d (filter (DealerRoutes.unclaimed_of sid) (dealerDowns db'))).
        { apply filter_In. split; [assumption|].
          unfold DealerRoutes.unclaimed_of. now rewrite Hg, Hc, String.eqb_refl. }
        rewrite Hf in Hd. destruct Hd.
      - rewrite claimAllRake_owner by now rewrite Hs.
        cbn zeta. now rewrite Hf. }
    rewrite (claimAllRake_owner db user sid Hown). cbn zeta.
    destruct (filter (DealerRoutes.unclaimed_of sid) (dealerDowns db))
      as [|d0 rest] eqn:Hf.
    + cbn [length Nat.eqb fst snd]. split; [|split; [|split]].
      * exists (DealerRoutes.mkClaimAllRake 0 0). cbn. repeat split; reflexivity.
      * apply (Hnone db eq_refl Hf).
      * reflexivity.
      * apply (Hnone db eq_refl Hf).
    + cbn [length Nat.eqb fst snd]. rewrite <- Hf. split; [|split; [|split]].
      * eexists. split; [reflexivity|]. cbn [DealerRoutes.updatedCount
          DealerRoutes.totalRakeClaimed]. split; [reflexivity|].
        apply reduce_add_total.
      * apply Hnone; [reflexivity|]. apply no_unclaimed_after_update.
      * cbn [with_dealerDowns dealerDowns]. unfold updateMany. cbn [fst].
        rewrite map_map. apply map_ext. intros d.
        destruct (DealerRoutes.unclaimed_of sid d); reflexivity.
      * apply Hnone; [reflexivity|]. apply no_unclaimed_after_update.
  - intros Hnot. unfold DealerRoutes.claimAllRake.
    destruct (findUnique GameSessionRow.id sid (gameSessions db)) as [x|] eqn:Hx.
    + destruct (find (owned user sid) (gameSessions db)) as [y|] eqn:Hy.
      * apply find_some in Hy. destruct Hy as [Hin Hy].
        apply andb_prop in Hy. destruct Hy as [Hid Hu].
        apply String.eqb_eq in Hid, Hu. now destruct (Hnot y Hin Hid).
      * cbn. split; [reflexivity|]. split; [now right|].
        split; [discriminate|]. intros Hno.
        apply find_some in Hx. destruct Hx as [Hin Hx].
        apply String.eqb_eq in Hx. now destruct (Hno x Hin).
    + cbn. split; [reflexivity|]. split; [now left|].
      split; [|reflexivity]. intros _ s Hs Hid.
      pose proof (find_none _ _ Hx s Hs) as E. cbn beta in E.
      rewrite Hid, String.eqb_refl in E. discriminate.
Qed.


End Claims.

Section SampleRuns.
Import Db App Integrity Club.
Local Open Scope string_scope.
Local Open Scope list_scope.

Lemma club_unique_keys : unique_keys Club.tables.
Proof.
  unfold unique_keys. cbn.
  repeat split; repeat constructor; cbn; intuition discriminate.
Qed.

Lemma only_the_owner_changes_or_removes_witness :
  exists added,
    rows_of "g1"
      (playerTransactions
         (snd (handle clock Club.tables (Some "u2") (DeleteTransaction "t1"))))
    = rows_of "g1" (playerTransactions Club.tables) ++ added.
Proof.
  refine (proj1 (proj2 (only_the_owner_changes_or_removes clock Club.tables
                          (Some "u2") (DeleteTransaction "t1") "g1"
                          club_unique_keys _ _))).
  - discriminate.
  - intros s [<-|[<-|[<-|[]]]]; cbn; intros; discriminate.
Defined.

Lemma no_access_no_change_witness :
  downs_of "g1"
    (dealerDowns (snd (handle clock Club.tables (Some "u3") (ClaimAllRake "g1"))))
  = downs_of "g1" (dealerDowns Club.tables).
Proof.
  refine (proj1 (proj2 (proj2 (no_access_no_change clock Club.tables
                                 (Some "u3") (ClaimAllRake "g1") "g1"
                                 club_unique_keys _ _)))).
  - discriminate.
  - intros u [= <-]. reflexivity.
Defined.

Lemma claimAllRake_spec_witness :
  DealerRoutes.claimAllRake
    (snd (DealerRoutes.claimAllRake Club.tables "u1" "g1")) "u1" "g1"
  = (Json200 (DealerRoutes.mkClaimAllRake 0 0),
     snd (DealerRoutes.claimAllRake Club.tables "u1" "g1")).
Proof.
  refine (proj2 (proj2 (proj2 (proj1 (claimAllRake_spec Club.tables "u1" "g1")
                                 _)))).
  exists host_game. cbn. auto.
Defined.

End SampleRuns.

(** ** The game routes *)

Section Games.
Import Db Integrity GameRoutes.
Local Open Scope string_scope.
Local Open Scope list_scope.



Lemma filter_updateMany_none {A : Type} (p : A -> bool) (f : A -> A)
  (rows : list A) :
  (forall r, p (f r) = false) ->
  filter p (fst (updateMany p f rows)) = [].
Proof.
  intros H. unfold updateMany. cbn [fst]. apply filter_none.
  intros r Hr. apply in_map_iff in Hr. destruct Hr as (r0 & <- & _).
  destruct (p r0) eqn:E; [apply H | exact E].
Qed.

(** X11.  POST /new.  Afterwards the user owns exactly one active
    game, the new one, whose currency and language are those of the
    request ("USD" and "en" for an empty text); the games of other
    users are untouched; no game is counted as completed; and
    GET /active, at any time, answers with the new game and changes
    nothing. *)
Theorem startNewGame_leaves_one_active_game
  (db : Db.t) (user currency language : string) (now now' : Z)
  (newId newId' : string) :
  let answer := startNewGame db user currency language now newId in
  let s := create_session newId user now (string_or_default currency "USD")
             (string_or_default language "en") in
  fst answer = Json200 s /\
  filter (active_of user) (gameSessions (snd answer)) = [s] /\
  (forall other, other <> user ->
     filter (fun r => String.eqb (GameSessionRow.userId r) other)
       (gameSessions (snd answer))
     = filter (fun r => String.eqb (GameSessionRow.userId r) other)
         (gameSessions db)) /\
  users (snd answer) = users db /\
  fst (getActive (snd answer) user now' newId')
  = Json200 (s, match findUnique User.id user (users db) with
                | Some u => User.completedGames u
                | None => O
                end) /\
  snd (getActive (snd answer) user now' newId') = snd answer.
Proof.
  cbn zeta. unfold startNewGame.
  destruct (updateMany (active_of user) (set_ended now) (gameSessions db))
    as [rows n] eqn:E.
  apply updateMany_fst in E. cbn [fst snd with_gameSessions gameSessions users].
  assert (Hactive : filter (active_of user)
                      (rows ++ [create_session newId user now
                                  (string_or_default currency "USD")
                                  (string_or_default language "en")])
                    = [create_session newId user now
                         (string_or_default currency "USD")
                         (string_or_default language "en")]).
  { rewrite filter_app, E, filter_updateMany_none by reflexivity.
    cbn [filter app create_session active_of GameSessionRow.isActive
         GameSessionRow.userId andb].
    now rewrite String.eqb_refl. }
  split; [reflexivity|]. split; [exact Hactive|]. split; [|split; [reflexivity|]].
  - intros other Hother. rewrite filter_app.
    cbn [filter create_session GameSessionRow.userId].
    apply String.eqb_neq in Hother. rewrite String.eqb_sym in Hother.
    rewrite Hother, app_nil_r, E.
    apply filter_updateMany_frame. intros r _ Hr.
    unfold active_of in Hr. apply andb_prop in Hr. destruct Hr as [_ Hr].
    apply String.eqb_eq in Hr.
    cbn [set_ended GameSessionRow.userId]. now rewrite Hr.
  - unfold getActive. cbn [with_gameSessions gameSessions users].
    rewrite Hactive. cbn [latest fst snd]. split; reflexivity.
Qed.

Lemma findUnique_update {A : Type} (key : A -> string) (k : string)
  (f : A -> A) (rows : list A) :
  (forall r, key (f r) = key r) ->
  findUnique key k (update key k f rows)
  = option_map f (findUnique key k rows).
Proof.
  intros Hf. unfold findUnique, update.
  induction rows as [|r rows IH]; cbn [map find option_map]; [reflexivity|].
  destruct (String.eqb (key r) k) eqn:E.
  - now rewrite Hf, E.
  - now rewrite E.
Qed.

Lemma filter_update_own {A : Type} (key : A -> string) (k : string)
  (f : A -> A) (rows : list A) :
  (forall r, key (f r) = key r) ->
  filter (fun r => String.eqb (key r) k) (update key k f rows)
  = map f (filter (fun r => String.eqb (key r) k) rows).
Proof.
  intros Hf. unfold update.
  induction rows as [|r rows IH]; cbn [map filter]; [reflexivity|].
  destruct (String.eqb (key r) k) eqn:E.
  - rewrite Hf, E. cbn [map]. now rewrite IH.
  - now rewrite E, IH.
Qed.

Lemma In_update {A : Type} (key : A -> string) (k : string) (f : A -> A)
  (rows : list A) (r : A) :
  In r (update key k f rows) ->
  exists r0, In r0 rows /\
             r = if String.eqb (key r0) k then f r0 else r0.
Proof.
  unfold update. intros H. apply in_map_iff in H.
  destruct H as (r0 & <- & H0). eauto.
Qed.

Lemma endGame_owner db user sid now :
  owner_of db user sid ->
  exists existingSession u,
    find (owned user sid) (gameSessions db) = Some existingSession /\
    findUnique User.id user (users db) = Some u /\
    endGame db user sid now
    = (Json200 (set_ended now existingSession),
       with_users
         (with_gameSessions db
            (update GameSessionRow.id sid (set_ended now) (gameSessions db)))
         (update User.id user increment_completedGames (users db))).
Proof.
  intros [Hs [u Hu]].
  destruct (find_owned_Some db user sid Hs) as [_ [y Hy]].
  exists y, u. split; [exact Hy|]. split; [exact Hu|].
  unfold endGame. rewrite Hy. cbn [with_gameSessions users]. now rewrite Hu.
Qed.

Lemma endGame_keeps_owner db user sid now :
  owner_of db user sid -> owner_of (snd (endGame db user sid now)) user sid.
Proof.
  intros H. destruct (endGame_owner db user sid now H) as (y & u & Hy & Hu & ->).
  destruct H as [(s & Hs & Hid & Hown) _]. cbn [snd]. split.
  - exists (if String.eqb (GameSessionRow.id s) sid then set_ended now s else s).
    cbn [with_users with_gameSessions gameSessions]. split; [|split].
    + unfold update. apply in_map_iff. now exists s.
    + now destruct (String.eqb _ sid).
    + now destruct (String.eqb _ sid).
  - cbn [with_users users]. rewrite findUnique_update by reflexivity.
    rewrite Hu. cbn. eauto.
Qed.

(** X12.  POST /end by the owner of a game: the answer is the game,
    ended now; afterwards every row with the key of the game is
    inactive with that end, nothing else in the database has changed
    but the count of completed games of the owner, which is one more.
    The route does not ask whether the game is still active: ending it
    again succeeds as well and counts once more. *)
Theorem endGame_ends_and_counts (db : Db.t) (user sid : string) (now now' : Z) :
  owner_of db user sid ->
  let answer := endGame db user sid now in
  let db' := snd answer in
  (exists s, fst answer = Json200 s /\
             GameSessionRow.id s = sid /\
             GameSessionRow.isActive s = false /\
             GameSessionRow.endedAt s = Some now) /\
  (forall r, In r (gameSessions db') -> GameSessionRow.id r = sid ->
             GameSessionRow.isActive r = false /\
             GameSessionRow.endedAt r = Some now) /\
  sessions_of sid db' = map (set_ended now) (sessions_of sid db) /\
  (forall other, other <> sid -> sessions_of other db' = sessions_of other db) /\
  (members db', playerTransactions db', dealerDowns db', expenses db')
  = (members db, playerTransactions db, dealerDowns db, expenses db) /\
  completed db' user = S (completed db user) /\
  status_of (fst (endGame db' user sid now')) = 200%nat /\
  completed (snd (endGame db' user sid now')) user = S (S (completed db user)).
Proof.
  intros H. cbn zeta.
  assert (Hcount : forall db0 t, owner_of db0 user sid ->
             completed (snd (endGame db0 user sid t)) user
             = S (completed db0 user)).
  { intros db0 t H0.
    destruct (endGame_owner db0 user sid t H0) as (y & u & Hy & Hu & ->).
    unfold completed. cbn [snd with_users users].
    rewrite findUnique_update by reflexivity. now rewrite Hu. }
  pose proof (endGame_keeps_owner db user sid now H) as H'.
  split; [|split; [|split; [|split; [|split; [|split; [|split]]]]]].
  - destruct (endGame_owner db user sid now H) as (y & u & Hy & Hu & ->).
    eexists. split; [reflexivity|]. cbn. apply find_some in Hy.
    destruct Hy as [_ Hy]. apply andb_prop in Hy. destruct Hy as [Hy _].
    apply String.eqb_eq in Hy. auto.
  - destruct (endGame_owner db user sid now H) as (y & u & Hy & Hu & ->).
    cbn [snd with_users with_gameSessions gameSessions]. intros r Hr Hid.
    apply In_update in Hr. destruct Hr as (r0 & _ & ->).
    destruct (String.eqb (GameSessionRow.id r0) sid) eqn:E; [now cbn|].
    apply String.eqb_neq in E. contradiction.
  - destruct (endGame_owner db user sid now H) as (y & u & Hy & Hu & ->).
    cbn [snd with_users with_gameSessions gameSessions]. unfold sessions_of.
    cbn [with_users with_gameSessions gameSessions].
    now apply filter_update_own.
  - destruct (endGame_owner db user sid now H) as (y & u & Hy & Hu & ->).
    intros other Hother. unfold sessions_of.
    cbn [snd with_users with_gameSessions gameSessions].
    apply filter_update_frame. intros r _ E.
    cbn [set_ended GameSessionRow.id]. rewrite E.
    apply String.eqb_neq in Hother. rewrite String.eqb_sym in Hother. auto.
  - destruct (endGame_owner db user sid now H) as (y & u & Hy & Hu & ->).
    reflexivity.
  - now apply Hcount.
  - destruct (endGame_owner _ user sid now' H') as (y & u & Hy & Hu & ->).
    reflexivity.
  - rewrite Hcount by exact H'. f_equal. now apply Hcount.
Qed.

Lemma filter_delete_own {A : Type} (key : A -> string) (k : string)
  (rows : list A) :
  filter (fun r => String.eqb (key r) k) (delete key k rows) = [].
Proof.
  unfold delete. apply filter_none. intros r Hr.
  apply filter_In in Hr. destruct Hr as [_ Hr].
  now apply negb_true_iff in Hr.
Qed.

Lemma filter_delete_other {A : Type} (key : A -> string) (k other : string)
  (rows : list A) :
  other <> k ->
  filter (fun r => String.eqb (key r) other) (delete key k rows)
  = filter (fun r => String.eqb (key r) other) rows.
Proof.
  intros H. apply filter_delete_frame. intros r _ ->.
  apply String.eqb_neq. congruence.
Qed.

(** X13.  DELETE /api/game/:sessionId by the owner of the game removes
    the game with everything that belongs to it: afterwards no session
    row, member, transaction, dealer down or expense carries its key,
    and its summary answers 404 to everybody; what belongs to other
    games, and the users with their counts, are untouched. *)
Theorem deleteGame_removes_the_game_and_its_rows
  (db : Db.t) (user sid : string) :
  (exists s, In s (gameSessions db) /\ GameSessionRow.id s = sid /\
             GameSessionRow.userId s = user) ->
  let answer := deleteGame db user sid in
  let db' := snd answer in
  fst answer = Json200 tt /\
  (sessions_of sid db' = [] /\ members_of sid db' = [] /\
   rows_of sid (playerTransactions db') = [] /\
   downs_of sid (dealerDowns db') = [] /\
   rows_of sid (expenses db') = []) /\
  (forall other, other <> sid ->
     sessions_of other db' = sessions_of other db /\
     members_of other db' = members_of other db /\
     rows_of other (playerTransactions db') = rows_of other (playerTransactions db) /\
     downs_of other (dealerDowns db') = downs_of other (dealerDowns db) /\
     rows_of other (expenses db') = rows_of other (expenses db)) /\
  users db' = users db /\
  (forall anyone, getSummary db' anyone sid = JsonError 404 "Session not found").
Proof.
  intros H. cbn zeta.
  destruct (find_owned_Some db user sid H) as [_ [y Hy]].
  unfold deleteGame. rewrite Hy. cbn [fst snd].
  split; [reflexivity|].
  unfold sessions_of, members_of, rows_of, downs_of, delete_session.
  cbn [gameSessions members playerTransactions dealerDowns expenses users].
  split; [|split; [|split; [reflexivity|]]].
  - now rewrite !filter_delete_own.
  - intros other Hother. now rewrite !filter_delete_other by exact Hother.
  - intros anyone. unfold getSummary. cbn [gameSessions].
    destruct (find (accessible _ anyone sid) _) as [s|] eqn:E; [|reflexivity].
    apply find_some in E. destruct E as [Hin E].
    apply andb_prop in E. destruct E as [E _].
    assert (Hs : In s (filter (fun r => String.eqb (GameSessionRow.id r) sid)
                         (delete GameSessionRow.id sid (gameSessions db)))).
    { apply filter_In. now split. }
    rewrite filter_delete_own in Hs. destruct Hs.
Qed.

(** X14.  A game that has ended (no row with its key is active)
    refuses new dealer downs and updates of its lump-sum rake, from
    anybody, and is left unchanged by them; but a transaction or an
    expense for it is still recorded for whoever has access to it. *)
Theorem ended_game_refuses_downs_but_takes_transactions
  (db : Db.t) (sid : string) :
  (forall r, In r (gameSessions db) -> GameSessionRow.id r = sid ->
             GameSessionRow.isActive r = false) ->
  (forall user data newId,
      DealerRoutes.gameSessionId data = sid ->
      snd (DealerRoutes.addDown db user data newId) = db /\
      (status_of (fst (DealerRoutes.addDown db user data newId)) = 404%nat \/
       status_of (fst (DealerRoutes.addDown db user data newId)) = 400%nat)) /\
  (forall user data,
      DealerRoutes.r_gameSessionId data = sid ->
      snd (DealerRoutes.updateTotalRake db user data) = db /\
      status_of (fst (DealerRoutes.updateTotalRake db user data)) <> 200%nat) /\
  (forall user data newId,
      PlayerRoutes.gameSessionId data = sid ->
      find (accessible db user sid) (gameSessions db) <> None ->
      exists row,
        PlayerRoutes.addTransaction db user data newId
        = (Json200 row,
           with_playerTransactions db (playerTransactions db ++ [row]))) /\
  (forall user data newId,
      ExpenseRoutes.gameSessionId data = sid ->
      find (accessible db user sid) (gameSessions db) <> None ->
      exists row,
        ExpenseRoutes.addExpense db user data newId
        = (Json200 row, with_expenses db (expenses db ++ [row]))).
Proof.
  intros Hended.
  assert (Hfound : forall user s,
             find (accessible db user sid) (gameSessions db) = Some s ->
             GameSessionRow.isActive s = false).
  { intros user s E. apply find_some in E. destruct E as [Hin E].
    apply andb_prop in E. destruct E as [E _]. apply String.eqb_eq in E.
    now apply Hended. }
  split; [|split; [|split]].
  - intros user data newId <-. unfold DealerRoutes.addDown.
    destruct (find _ _) as [s|] eqn:E; [|cbn; auto].
    rewrite (Hfound user s E). cbn. auto.
  - intros user data <-. unfold DealerRoutes.updateTotalRake.
    destruct (findUnique _ _ _); [|cbn; split; [reflexivity | discriminate]].
    destruct (find _ _) as [s|] eqn:E; [|cbn; split; [reflexivity | discriminate]].
    rewrite (Hfound user s E). cbn. split; [reflexivity | discriminate].
  - intros user data newId <- Hacc. unfold PlayerRoutes.addTransaction.
    destruct (find _ _); [|contradiction]. eauto.
  - intros user data newId <- Hacc. unfold ExpenseRoutes.addExpense.
    destruct (find _ _); [|contradiction]. eauto.
Qed.

End Games.

(** ** Rows added to a session *)

Section Recording.
Import Db Integrity.
Local Open Scope string_scope.
Local Open Scope list_scope.
Local Open Scope Q_scope.

Lemma rows_of_snoc {A : Type} (sid sid' : string) (rows : list (InSession.t A))
  (r : A) :
  rows_of sid (rows ++ [InSession.mk sid' r])
  = rows_of sid rows ++ (if String.eqb sid' sid then [r] else []).
Proof.
  unfold rows_of. rewrite filter_app, map_app. cbn [filter InSession.gameSessionId].
  now destruct (String.eqb sid' sid).
Qed.


Lemma playerCount_one_more (a b : GameSession.t) (t : PlayerTransaction.t) :
  GameSession.playerTransactions b = GameSession.playerTransactions a ++ [t] ->
  Summary.playerCount b
  = if existsb (String.eqb (PlayerTransaction.playerName t))
         (Summary.uniquePlayers a)
    then Summary.playerCount a else S (Summary.playerCount a).
Proof.
  intros Htxs. unfold Summary.playerCount, Summary.uniquePlayers.
  rewrite Htxs, map_app, fold_left_app. cbn [map fold_left].
  unfold Summary.Set_add at 1.
  destruct (existsb _ _); [reflexivity|].
  rewrite length_app. cbn [length]. lia.
Qed.

End Recording.

(** ** The lump-sum rake and the marks on the rows *)

Section Marks.
Import Db Integrity.
Local Open Scope string_scope.
Local Open Scope list_scope.
Local Open Scope Q_scope.

(** X18.  PUT /total-rake, when it succeeds (the user is the owner or
    a member, and the game is active): every row of the game now
    carries the lump-sum rake of the request; the rake of the summary
    is that lump sum when it is positive, and the sum of the rake of
    the dealer downs when it is 0; the net profit is the rake minus the
    expenses; the till balance and the expected till are what they
    were. *)
Theorem lump_sum_rake_and_the_summary
  (db db' : Db.t) (user : string) (data : DealerRoutes.UpdateTotalRakeRequest)
  (body : GameSessionRow.t) (s : GameSessionRow.t) :
  DealerRoutes.updateTotalRake db user data = (Json200 body, db') ->
  In s (gameSessions db) ->
  GameSessionRow.id s = DealerRoutes.r_gameSessionId data ->
  let q := DealerRoutes.r_totalRake data in
  let s' := DealerRoutes.set_totalRake q s in
  (exists found,
      find (accessible db user (DealerRoutes.r_gameSessionId data))
        (gameSessions db) = Some found /\
      GameSessionRow.isActive found = true /\
      body = DealerRoutes.set_totalRake q found) /\
  In s' (gameSessions db') /\
  (forall r, In r (gameSessions db') ->
             GameSessionRow.id r = DealerRoutes.r_gameSessionId data ->
             GameSessionRow.totalRake r = q) /\
  Summary.totalRake (include db' s')
  == (if gt q 0 then q
      else total DealerDown.rake
             (downs_of (GameSessionRow.id s) (dealerDowns db))) /\
  Summary.netProfit (include db' s')
  == Summary.totalRake (include db' s') - Summary.totalExpenses (include db s) /\
  Summary.tillBalance (include db' s') == Summary.tillBalance (include db s) /\
  Analyzer.expectedTill (include db' s') == Analyzer.expectedTill (include db s).
Proof.
  intros H Hs Hid. cbn zeta. unfold DealerRoutes.updateTotalRake in H.
  destruct (findUnique _ _ _) as [x|]; [|discriminate].
  destruct (find _ _) as [found|]; [|discriminate].
  destruct (GameSessionRow.isActive found) eqn:Hactive; [|discriminate].
  cbn [negb] in H. injection H as <- <-.
  split; [eauto|]. split; [|split; [|split; [|split; [|split]]]].
  - cbn [with_gameSessions gameSessions]. unfold update.
    apply in_map_iff. exists s. split; [|exact Hs].
    now rewrite Hid, String.eqb_refl.
  - cbn [with_gameSessions gameSessions]. intros r Hr Hrid.
    unfold update in Hr. apply in_map_iff in Hr. destruct Hr as (r0 & <- & _).
    destruct (String.eqb (GameSessionRow.id r0) _) eqn:E; [reflexivity|].
    apply String.eqb_neq in E. contradiction.
  - unfold Summary.totalRake.
    cbn [include GameSession.totalRake GameSession.dealerDowns
         DealerRoutes.set_totalRake GameSessionRow.totalRake GameSessionRow.id
         with_gameSessions dealerDowns].
    destruct (gt (DealerRoutes.r_totalRake data) 0); [reflexivity|].
    apply reduce_add_total.
  - reflexivity.
  - reflexivity.
  - reflexivity.
Qed.



Lemma with_dealerDowns_same db : with_dealerDowns db (dealerDowns db) = db.
Proof. now destruct db. Qed.

Lemma with_dealerDowns_twice db rows rows' :
  with_dealerDowns (with_dealerDowns db rows) rows' = with_dealerDowns db rows'.
Proof. reflexivity. Qed.







Lemma with_playerTransactions_same db :
  with_playerTransactions db (playerTransactions db) = db.
Proof. now destruct db. Qed.

Lemma with_playerTransactions_twice db rows rows' :
  with_playerTransactions (with_playerTransactions db rows) rows'
  = with_playerTransactions db rows'.
Proof. reflexivity. Qed.


End Marks.

(** ** Sharing a game *)

Section Sharing.
Import Db Integrity ShareRoutes.
Local Open Scope string_scope.
Local Open Scope list_scope.

Lemma charAt_alphabet (i : Z) :
  (0 <= i < 32)%Z ->
  exists c, charAt alphabet i = String c "" /\ In c (chars alphabet).
Proof.
  intros Hi. unfold charAt.
  destruct (i <? 0)%Z eqn:E; [apply Z.ltb_lt in E; lia|].
  assert (Hn : (Z.to_nat i < 32)%nat) by lia.
  revert Hn. generalize (Z.to_nat i). intros n Hn.
  do 32 (destruct n as [|n]; [eexists; split; [reflexivity | cbn; tauto]|]).
  lia.
Qed.

Lemma floor_of_draw (x : Q) :
  (0 <= x)%Q -> (x < 1)%Q -> (0 <= Math_floor (x * inject_Z 32) < 32)%Z.
Proof.
  intros H0 H1. unfold Math_floor.
  assert (Hlo : (0 <= x * inject_Z 32)%Q).
  { change (inject_Z 32) with 32%Q. nra. }
  assert (Hhi : (x * inject_Z 32 < inject_Z 32)%Q).
  { change (inject_Z 32) with 32%Q. nra. }
  split.
  - rewrite <- (Qfloor_Z 0). now apply Qfloor_resp_le.
  - rewrite Zlt_Qlt. eapply Qle_lt_trans; [apply Qfloor_le | exact Hhi].
Qed.

Lemma chars_append (s1 s2 : string) : chars (s1 ++ s2)%string = chars s1 ++ chars s2.
Proof.
  unfold chars. induction s1 as [|c s1 IH]; cbn; [reflexivity|]. now rewrite IH.
Qed.

Lemma length_append (s1 s2 : string) :
  String.length (s1 ++ s2)%string = (String.length s1 + String.length s2)%nat.
Proof. induction s1 as [|c s1 IH]; cbn; [reflexivity|]. now rewrite IH. Qed.

Lemma generate_loop_shape (random : nat -> Q) :
  (forall i, (0 <= random i)%Q /\ (random i < 1)%Q) ->
  forall n next code,
    of_alphabet code ->
    of_alphabet (generate_loop random next n code) /\
    String.length (generate_loop random next n code)
    = (String.length code + n)%nat.
Proof.
  intros Hr. induction n as [|n IH]; intros next code Hc; cbn [generate_loop].
  - split; [exact Hc | lia].
  - destruct (Hr next) as [H0 H1].
    destruct (charAt_alphabet _ (floor_of_draw _ H0 H1)) as (c & Ec & Hin).
    change (Z.of_nat (String.length alphabet)) with 32%Z.
    rewrite Ec.
    destruct (IH (S next) (code ++ String c "")%string) as [Ha Hl].
    + unfold of_alphabet. rewrite chars_append. apply Forall_app.
      split; [exact Hc|]. constructor; [exact Hin | constructor].
    + split; [exact Ha|]. rewrite Hl, length_append. cbn. lia.
Qed.

Lemma toUpperCase_alphabet (code : string) :
  of_alphabet code -> toUpperCase code = code.
Proof.
  unfold of_alphabet, chars.
  induction code as [|c code IH]; cbn [list_ascii_of_string toUpperCase];
    [reflexivity|].
  intros H. inversion_clear H as [|? ? Hc Hrest]. rewrite (IH Hrest). f_equal.
  cbn in Hc.
  repeat (destruct Hc as [<-|Hc]; [reflexivity|]). destruct Hc.
Qed.

(** X21.  The share codes.  Whatever [Math.random] draws (numbers
    from 0 up to, not including, 1), a generated code has six
    characters, all of them from the 32 of the alphabet, and so none of
    the look-alikes 0, O, 1 and I; it passes the schema of /join, and
    the upper-casing of /join leaves it as it is. *)
Theorem generated_share_code_shape (random : nat -> Q) (next : nat) :
  (forall i, (0 <= random i)%Q /\ (random i < 1)%Q) ->
  let code := generateShareCode random next in
  String.length code = 6%nat /\
  Forall (fun c => In c (chars alphabet)) (chars code) /\
  Forall (fun c => ~ In c (chars "0O1I")) (chars code) /\
  valid_join code = true /\
  toUpperCase code = code.
Proof.
  intros Hr. cbn zeta. unfold generateShareCode.
  destruct (generate_loop_shape random Hr 6 next "") as [Ha Hl];
    [constructor|].
  cbn [String.length Nat.add] in Hl.
  split; [exact Hl|]. split; [exact Ha|]. split; [|split].
  - eapply Forall_impl; [|exact Ha]. intros c Hc Hbad. cbn in Hc, Hbad.
    repeat (destruct Hc as [<-|Hc];
            [repeat (destruct Hbad as [Hbad|Hbad]; [discriminate Hbad|]);
             destruct Hbad|]).
    destruct Hc.
  - unfold valid_join. now rewrite Hl.
  - now apply toUpperCase_alphabet.
Qed.

(** X22.  POST /join.  With a code that some game holds and that has
    not expired, a user who is neither a member nor the owner of that
    game becomes a member of it with the role of an editor, and nothing
    else changes; from then on the game is accessible to the user (its
    summary is answered), and a second join with the code is refused.
    The route refuses, and changes nothing: a code that no game holds
    (404), an expired code, a member, and the owner (400). *)
Theorem join_makes_a_member
  (db : Db.t) (user shareCode : string) (now : Z) :
  let answer := join db user shareCode now in
  (forall gs,
      find (has_code (toUpperCase shareCode)) (gameSessions db) = Some gs ->
      expired now gs = false ->
      has_member db user (GameSessionRow.id gs) = false ->
      GameSessionRow.userId gs <> user ->
      answer
      = (Json200 tt,
         with_members db
           (members db
            ++ [GameSessionMember.mk user (GameSessionRow.id gs) "editor"])) /\
      (exists figures,
          GameRoutes.getSummary (snd answer) user (GameSessionRow.id gs)
          = Json200 figures) /\
      join (snd answer) user shareCode now
      = (JsonError 400 "You are already a member of this game", snd answer)) /\
  (find (has_code (toUpperCase shareCode)) (gameSessions db) = None ->
   answer = (JsonError 404 "Invalid share code", db)) /\
  (forall gs,
      find (has_code (toUpperCase shareCode)) (gameSessions db) = Some gs ->
      expired now gs = true \/
      has_member db user (GameSessionRow.id gs) = true \/
      GameSessionRow.userId gs = user ->
      snd answer = db /\ status_of (fst answer) = 400%nat).
Proof.
  cbn zeta. split; [|split].
  - intros gs Hfound Hfresh Hnot Howner.
    set (db' := with_members db
                  (members db
                   ++ [GameSessionMember.mk user (GameSessionRow.id gs)
                         "editor"])).
    assert (Hanswer : join db user shareCode now = (Json200 tt, db')).
    { unfold join. rewrite Hfound, Hfresh, Hnot.
      apply String.eqb_neq in Howner. now rewrite Howner. }
    rewrite Hanswer. cbn [snd]. split; [reflexivity|].
    assert (Hm : has_member db' user (GameSessionRow.id gs) = true).
    { unfold has_member, db'. cbn [with_members members].
      rewrite existsb_app. cbn [existsb GameSessionMember.userId
                                 GameSessionMember.gameSessionId].
      rewrite !String.eqb_refl. cbn. apply orb_true_r. }
    split.
    + unfold GameRoutes.getSummary.
      destruct (find (accessible db' user (GameSessionRow.id gs))
                  (gameSessions db')) as [x|] eqn:E; [eauto|].
      apply find_some in Hfound. destruct Hfound as [Hin _].
      pose proof (find_none _ _ E gs Hin) as Hx. unfold accessible in Hx.
      rewrite Hm, String.eqb_refl, orb_true_r in Hx. discriminate.
    + unfold join. change (gameSessions db') with (gameSessions db).
      now rewrite Hfound, Hfresh, Hm.
  - intros Hnone. unfold join. now rewrite Hnone.
  - intros gs Hfound Hcase. unfold join. rewrite Hfound.
    destruct (expired now gs); [now cbn|].
    destruct (has_member db user (GameSessionRow.id gs)); [now cbn|].
    destruct Hcase as [Hc|[Hc|Hc]]; try discriminate.
    apply String.eqb_eq in Hc. rewrite Hc. now cbn.
Qed.

Lemma find_map_same {A : Type} (p : A -> bool) (f : A -> A) (l : list A) :
  (forall r, p (f r) = p r) ->
  find p (map f l) = option_map f (find p l).
Proof.
  intros H. induction l as [|r l IH]; cbn [map find option_map]; [reflexivity|].
  rewrite H. now destruct (p r).
Qed.

Lemma unique_code_shape (db : Db.t) (random : nat -> Q) :
  (forall i, (0 <= random i)%Q /\ (random i < 1)%Q) ->
  forall fuel next code,
    of_alphabet code -> of_alphabet (unique_code db random fuel next code).
Proof.
  intros Hr. induction fuel as [|fuel IH]; intros next code Hc;
    cbn [unique_code]; [exact Hc|].
  destruct (find _ _); [|exact Hc]. apply IH.
  unfold generateShareCode.
  apply (generate_loop_shape random Hr 6 next ""). constructor.
Qed.

(** X23.  POST /generate and DELETE /code, for a user with an active
    game.  When no game holds the first code drawn, that code is the
    answer; a code that is answered expires 24 hours from now and is
    held by the rows of the user's game and by no other row, so that
    /join leads to that game; when the route fails, nothing has
    changed.  After the owner revokes the code, /join with it answers
    404 to everybody. *)
Theorem share_code_leads_to_the_game_until_revoked
  (db : Db.t) (user : string) (now : Z) (random : nat -> Q)
  (gs : GameSessionRow.t) :
  (forall i, (0 <= random i)%Q /\ (random i < 1)%Q) ->
  find (active_of user) (gameSessions db) = Some gs ->
  let answer := generate db user now random in
  (find (has_code (generateShareCode random 0)) (gameSessions db) = None ->
   fst answer
   = Json200 (generateShareCode random 0, (now + 24 * 60 * 60 * 1000)%Z)) /\
  (fst answer = Failed -> snd answer = db) /\
  (forall code expiresAt,
      fst answer = Json200 (code, expiresAt) ->
      expiresAt = (now + 86400000)%Z /\
      (forall s, In s (gameSessions (snd answer)) ->
                 (has_code code s = true <->
                  GameSessionRow.id s = GameSessionRow.id gs)) /\
      (exists found,
          find (has_code (toUpperCase code)) (gameSessions (snd answer))
          = Some found /\
          GameSessionRow.id found = GameSessionRow.id gs /\
          GameSessionRow.shareCodeExpiresAt found = Some expiresAt) /\
      fst (revokeCode (snd answer) user) = Json200 tt /\
      (forall anyone later,
          join (snd (revokeCode (snd answer) user)) anyone code later
          = (JsonError 404 "Invalid share code",
             snd (revokeCode (snd answer) user)))).
Proof.
  intros Hr Hgs. cbn zeta. unfold generate. rewrite Hgs.
  set (code0 := unique_code db random 10 6 (generateShareCode random 0)).
  assert (Hshape : of_alphabet code0).
  { apply unique_code_shape; [exact Hr|]. unfold generateShareCode.
    apply (generate_loop_shape random Hr 6 0 ""). constructor. }
  split; [|split].
  - intros Hfree.
    assert (E : code0 = generateShareCode random 0).
    { unfold code0. cbn [unique_code]. now rewrite Hfree. }
    rewrite E.
    destruct (existsb _ _) eqn:Hex; [|reflexivity].
    apply existsb_exists in Hex. destruct Hex as (s & Hs & Hc).
    apply andb_prop in Hc. destruct Hc as [Hc _].
    now rewrite (find_none _ _ Hfree s Hs) in Hc.
  - destruct (existsb _ _); [reflexivity | discriminate].
  - intros code expiresAt. destruct (existsb _ _) eqn:Hex; [discriminate|].
    cbn [fst snd]. intros [= <- <-].
    set (f := set_share (Some code0) (Some (now + 24 * 60 * 60 * 1000)%Z)).
    set (rows' := update GameSessionRow.id (GameSessionRow.id gs) f
                    (gameSessions db)).
    assert (Hheld : forall s, In s rows' ->
                      (has_code code0 s = true <->
                       GameSessionRow.id s = GameSessionRow.id gs)).
    { intros s Hs. apply In_update in Hs. destruct Hs as (s0 & Hs0 & ->).
      destruct (String.eqb (GameSessionRow.id s0) (GameSessionRow.id gs)) eqn:E.
      - apply String.eqb_eq in E. unfold has_code, f. cbn.
        rewrite String.eqb_refl. tauto.
      -         assert (Hno : has_code code0 s0 = false).
        { destruct (has_code code0 s0) eqn:Hc; [|reflexivity].
          assert (Hx : existsb
                         (fun s => has_code code0 s
                                   && negb (String.eqb (GameSessionRow.id s)
                                              (GameSessionRow.id gs)))
                         (gameSessions db) = true).
          { apply existsb_exists. exists s0. split; [exact Hs0|].
            now rewrite Hc, E. }
          rewrite Hex in Hx. discriminate. }
        rewrite Hno. apply String.eqb_neq in E. split; [discriminate | tauto]. }
    assert (Hin : In (f gs) rows').
    { unfold rows', update. apply in_map_iff. exists gs.
      rewrite String.eqb_refl. split; [reflexivity|].
      apply find_some in Hgs. tauto. }
    assert (Hactive : find (active_of user) rows' = Some (f gs)).
    { unfold rows', update. rewrite find_map_same.
      - rewrite Hgs. cbn [option_map]. now rewrite String.eqb_refl.
      - intros r. now destruct (String.eqb _ _). }
    split; [reflexivity|]. split; [exact Hheld|]. split; [|split].
    + rewrite (toUpperCase_alphabet _ Hshape).
      cbn [with_gameSessions gameSessions]. fold f. fold rows'.
      destruct (find (has_code code0) rows') as [found|] eqn:E.
      * exists found. split; [reflexivity|].
        apply find_some in E. destruct E as [Hf Hc].
        pose proof (proj1 (Hheld found Hf) Hc) as Hidf.
        split; [exact Hidf|].
        apply In_update in Hf. destruct Hf as (s0 & Hs0 & ->).
        destruct (String.eqb (GameSessionRow.id s0) (GameSessionRow.id gs)) eqn:E0;
          [reflexivity|].
        apply String.eqb_neq in E0. contradiction.
      * pose proof (find_none _ _ E (f gs) Hin) as Hx.
        unfold has_code, f in Hx. cbn in Hx.
        rewrite String.eqb_refl in Hx. discriminate.
    + unfold revokeCode. cbn [with_gameSessions gameSessions]. fold f. fold rows'.
      now rewrite Hactive.
    + intros anyone later. unfold revokeCode.
      cbn [with_gameSessions gameSessions]. fold f. fold rows'.
      rewrite Hactive. cbn [snd with_gameSessions gameSessions].
      change (GameSessionRow.id (f gs)) with (GameSessionRow.id gs).
      unfold join. cbn [gameSessions].
      rewrite (toUpperCase_alphabet _ Hshape).
      destruct (find (has_code code0) _) as [found|] eqn:E; [|reflexivity].
      apply find_some in E. destruct E as [Hf Hc].
      apply In_update in Hf. destruct Hf as (s1 & Hs1 & ->).
      destruct (String.eqb (GameSessionRow.id s1) (GameSessionRow.id gs)) eqn:E1.
      * discriminate Hc.
      * apply Hheld in Hc; [|exact Hs1].
        apply String.eqb_neq in E1. contradiction.
Qed.

End Sharing.

(** ** An answer of the collaborator in the structure asked for *)

Section WellFormedAnswer.
Import Analyzer Wire.
Local Open Scope string_scope.
Local Open Scope list_scope.

Lemma mapM_map_Ok {A B : Type} (f : A -> Result B) (g : B -> A) (l : list B) :
  (forall x, In x l -> f (g x) = Ok x) -> mapM f (map g l) = Ok l.
Proof.
  induction l as [|x l IH]; intros H; cbn [map mapM]; [reflexivity|].
  rewrite (H x (or_introl eq_refl)). cbn [bind].
  rewrite IH by (intros y Hy; apply H; now right). reflexivity.
Qed.

Lemma string_or_text (s fallback : string) :
  s <> "" \/ fallback = "" -> string_or (Some (JString s)) fallback = Ok s.
Proof.
  intros H. unfold string_or, or_else, truthy.
  destruct s as [|c s]; [|reflexivity].
  destruct H as [H| ->]; [contradiction | reflexivity].
Qed.

Lemma normalizeCause_cause_json (c : TillAnalysisCause) :
  normalizeCause (cause_json c) = Ok c.
Proof.
  destruct c as [d l a ids]. unfold normalizeCause, cause_json.
  cbn [prop Analyzer.description Analyzer.likelihood Analyzer.amount
       Analyzer.transactionIds].
  cbn [lookup app String.eqb Ascii.eqb Bool.eqb bind].
  rewrite string_or_text by now right. cbn [bind].
  assert (Hl : normalizeLikelihood
                 (Some (JString (likelihood_text l))) = l) by now destruct l.
  destruct a as [q|], ids as [i|]; cbn; rewrite ?Hl; try reflexivity;
    destruct l; reflexivity.
Qed.

Lemma normalizeReview_review_json (r : TransactionToReview) :
  r_playerName r <> "" -> notes_or_null (r_notes r) ->
  normalizeReview (review_json r) = Ok r.
Proof.
  destruct r as [i p ty a pm n re]. cbn [r_playerName r_notes].
  intros Hp Hn. unfold normalizeReview, review_json.
  cbn [prop r_id r_playerName r_type r_amount r_paymentMethod r_notes r_reason].
  cbn [lookup String.eqb Ascii.eqb Bool.eqb bind].
  rewrite (string_or_text i "") by (now right). cbn [bind].
  rewrite (string_or_text p "Unknown") by (now left). cbn [bind].
  rewrite (string_or_text ty "") by (now right). cbn [bind].
  rewrite (string_or_text pm "") by (now right). cbn [bind].
  rewrite (string_or_text re "") by (now right). cbn [bind number_or_absent].
  assert (E : or_else (Some n) JNull = n).
  { destruct Hn as [-> | (c & s & ->)]; reflexivity. }
  now rewrite E.
Qed.

Lemma normalize_answer_json
  (d e a : Q) (summary : string) (causes : list TillAnalysisCause)
  (reviews : list TransactionToReview) (recommendations : list string) :
  summary <> "" ->
  Forall (fun r => r_playerName r <> "" /\ notes_or_null (r_notes r)) reviews ->
  normalize d e a (answer_json summary causes reviews recommendations)
  = Ok (mkResponse d e a summary causes reviews recommendations).
Proof.
  intros Hs Hr. unfold normalize, answer_json.
  cbn [prop lookup String.eqb Ascii.eqb Bool.eqb bind].
  unfold map_or_empty. cbn [or_else truthy].
  rewrite (mapM_map_Ok normalizeCause cause_json)
    by (intros c _; apply normalizeCause_cause_json).
  cbn [bind].
  rewrite (mapM_map_Ok normalizeReview review_json).
  - cbn [bind normalizeRecommendations].
    rewrite (mapM_map_Ok ToString JString) by reflexivity.
    cbn [bind]. rewrite string_or_text by (now left). reflexivity.
  - intros r Hin. rewrite Forall_forall in Hr. destruct (Hr r Hin).
    now apply normalizeReview_review_json.
Qed.

(** X24.  An answer of the collaborator in the structure the prompt
    asks for reaches the client unchanged.  With the key configured and
    a discrepancy of at least 1.00: when the collaborator answers with
    a summary that is not empty, causes, transactions to review that
    each name a player and have a text or null as notes, and
    recommendations, the analyzer answers with exactly that summary,
    those causes (likelihood, and amount and transaction ids when
    given), those transactions and those recommendations, next to the
    three figures it computed itself. *)
Theorem well_formed_answer_is_kept
  (openaiApiKey : option string) (session : GameSession.t)
  (actualTillAmount : Q)
  (collaborator : CollaboratorRequest -> CollaboratorReply)
  (summary : string) (causes : list TillAnalysisCause)
  (reviews : list TransactionToReview) (recommendations : list string) :
  configured openaiApiKey = true ->
  (1 <= Qabs (actualTillAmount - expectedTill session))%Q ->
  (forall request,
      collaborator request
      = Parsed (answer_json summary causes reviews recommendations)) ->
  summary <> "" ->
  Forall (fun r => r_playerName r <> "" /\ notes_or_null (r_notes r)) reviews ->
  exec collaborator (analyzeTill openaiApiKey (Some session) actualTillAmount)
  = (Json200
       (mkResponse (actualTillAmount - expectedTill session)
          (expectedTill session) actualTillAmount summary causes reviews
          recommendations),
     1%nat).
Proof.
  intros Hk Hm Hc Hs Hr.
  rewrite (analyzeTill_material _ _ _ _ Hk Hm), Hc.
  now rewrite normalize_answer_json.
Qed.

End WellFormedAnswer.

(** ** Bounds of the credit balance *)

Section CreditBounds.
Local Open Scope string_scope.
Local Open Scope list_scope.
Local Open Scope Q_scope.









End CreditBounds.

(** ** Removing a member *)

Section Removing.
Import Db ShareRoutes Integrity.
Local Open Scope string_scope.
Local Open Scope list_scope.

Lemma has_member_is_member db user sid :
  has_member db user sid = existsb (is_member user sid) (members db).
Proof. reflexivity. Qed.

Lemma existsb_filter_negb {A : Type} (p q : A -> bool) (l : list A) :
  existsb p (filter (fun x => negb (q x)) l)
  = existsb (fun x => p x && negb (q x)) l.
Proof.
  induction l as [|x l IH]; cbn [filter existsb]; [reflexivity|].
  destruct (q x); cbn [negb existsb]; rewrite IH.
  - now rewrite andb_false_r.
  - now rewrite andb_true_r.
Qed.

Lemma is_member_other u sid member k m :
  u <> member \/ sid <> k ->
  is_member u sid m && negb (is_member member k m) = is_member u sid m.
Proof.
  intros H. unfold is_member.
  destruct (String.eqb (GameSessionMember.userId m) u) eqn:Eu;
    [|reflexivity].
  destruct (String.eqb (GameSessionMember.gameSessionId m) sid) eqn:Es;
    [|reflexivity].
  apply String.eqb_eq in Eu, Es. cbn [andb].
  destruct (String.eqb (GameSessionMember.userId m) member) eqn:Em;
    [|reflexivity].
  destruct (String.eqb (GameSessionMember.gameSessionId m) k) eqn:Ek;
    [|reflexivity].
  apply String.eqb_eq in Em, Ek. destruct H as [H|H]; destruct H; congruence.
Qed.

(** X26.  The owner of an active game removes a member of it: the
    route answers 200, the member no longer reaches the game, the
    sessions and all other memberships stay.  For a user who is not a
    member of the game the route fails and changes nothing. *)
Theorem removeMember_ends_the_access (db : Db.t) (owner member : string)
  (g : GameSessionRow.t) :
  NoDup (map GameSessionRow.id (gameSessions db)) ->
  find (active_of owner) (gameSessions db) = Some g ->
  member <> owner ->
  (has_member db member (GameSessionRow.id g) = true ->
   exists db',
     removeMember db owner member = (Json200 tt, db') /\
     find (accessible db' member (GameSessionRow.id g)) (gameSessions db')
     = None /\
     gameSessions db' = gameSessions db /\
     (forall u sid, u <> member \/ sid <> GameSessionRow.id g ->
                    has_member db' u sid = has_member db u sid)) /\
  (has_member db member (GameSessionRow.id g) = false ->
   removeMember db owner member = (Failed, db)).
Proof.
  intros Hn Hg Hneq. unfold removeMember. rewrite Hg.
  rewrite <- has_member_is_member.
  apply find_some in Hg. destruct Hg as [Hin Hg].
  unfold active_of in Hg. apply andb_prop in Hg. destruct Hg as [_ Hu].
  apply String.eqb_eq in Hu.
  split; intros Hm; rewrite Hm; [|reflexivity].
  eexists. split; [reflexivity|]. cbn [gameSessions with_members members].
  assert (Hgone : forall k, k = GameSessionRow.id g ->
            has_member
              (with_members db
                 (filter (fun m => negb (is_member member (GameSessionRow.id g) m))
                    (members db))) member k = false).
  { intros k ->. rewrite has_member_is_member. cbn [members with_members].
    rewrite existsb_filter_negb.
    induction (members db) as [|m l IH]; cbn [existsb]; [reflexivity|].
    now rewrite IH, andb_negb_r. }
  split; [|split; [reflexivity|]].
  - destruct (find _ (gameSessions db)) as [s|] eqn:E; [|reflexivity].
    apply find_some in E. destruct E as [Hs E]. unfold accessible in E.
    apply andb_prop in E. destruct E as [Eid E].
    apply String.eqb_eq in Eid.
    rewrite (unique_key GameSessionRow.id _ s g Hn Hs Hin Eid) in E.
    rewrite (Hgone _ eq_refl), orb_false_r in E.
    apply String.eqb_eq in E. congruence.
  - intros u sid Hother. clear Hgone Hm. rewrite !has_member_is_member.
    cbn [members with_members]. rewrite existsb_filter_negb.
    induction (members db) as [|m l IH]; cbn [existsb]; [reflexivity|].
    now rewrite IH, is_member_other.
Qed.

End Removing.

(** ** Sample runs of the routes *)

Section SampleRoutes.
Import Db App Integrity Club.
Local Open Scope string_scope.
Local Open Scope list_scope.

Lemma endGame_ends_and_counts_witness :
  completed (snd (GameRoutes.endGame Club.tables "u1" "g1" 3000)) "u1" = 2%nat.
Proof.
  refine (proj1 (proj2 (proj2 (proj2 (proj2 (proj2
            (endGame_ends_and_counts Club.tables "u1" "g1" 3000 4000 _))))))).
  split.
  - exists host_game. cbn. auto.
  - now exists (User.mk "u1" 1).
Defined.

Lemma deleteGame_removes_the_game_and_its_rows_witness :
  GameRoutes.getSummary (snd (GameRoutes.deleteGame Club.tables "u1" "g1"))
    "u2" "g1"
  = JsonError 404 "Session not found".
Proof.
  refine (proj2 (proj2 (proj2 (proj2
            (deleteGame_removes_the_game_and_its_rows Club.tables "u1" "g1" _))))
            "u2").
  exists host_game. cbn. auto.
Defined.

Lemma ended_game_refuses_downs_but_takes_transactions_witness :
  snd (DealerRoutes.addDown Club.tables "u1"
         (DealerRoutes.mkAdd "Dee" 10 20 "g0") "n1") = Club.tables /\
  exists row,
    PlayerRoutes.addTransaction Club.tables "u1"
      (PlayerRoutes.mkAdd "Gus" BuyIn 100 Cash None "g0") "n1"
    = (Json200 row,
       with_playerTransactions Club.tables
         (playerTransactions Club.tables ++ [row])).
Proof.
  assert (H : forall r, In r (gameSessions Club.tables) ->
                        GameSessionRow.id r = "g0" ->
                        GameSessionRow.isActive r = false).
  { intros r [<-|[<-|[<-|[]]]]; cbn; intros; try discriminate; reflexivity. }
  pose proof (ended_game_refuses_downs_but_takes_transactions Club.tables "g0" H)
    as (Hdown & _ & Htransaction & _).
  split.
  - exact (proj1 (Hdown "u1" (DealerRoutes.mkAdd "Dee" 10 20 "g0") "n1" eq_refl)).
  - refine (Htransaction "u1" (PlayerRoutes.mkAdd "Gus" BuyIn 100 Cash None "g0")
              "n1" eq_refl _).
    discriminate.
Defined.

Lemma lump_sum_rake_and_the_summary_witness :
  match DealerRoutes.updateTotalRake Club.tables "u1"
          (DealerRoutes.mkTotalRake "g1" 75) with
  | (Json200 body, db') =>
      (Summary.totalRake
         (include db' (DealerRoutes.set_totalRake 75 host_game)) == 75)%Q
  | _ => False
  end.
Proof.
  destruct (DealerRoutes.updateTotalRake Club.tables "u1"
              (DealerRoutes.mkTotalRake "g1" 75))
    as [[body| |] db'] eqn:E; try (vm_compute in E; discriminate).
  refine (proj1 (proj2 (proj2 (proj2
            (lump_sum_rake_and_the_summary Club.tables db' "u1" _ body host_game
               E _ eq_refl))))).
  cbn. auto.
Defined.

Lemma generated_share_code_shape_witness :
  String.length (ShareRoutes.generateShareCode (fun _ => 0%Q) 0) = 6%nat.
Proof.
  refine (proj1 (generated_share_code_shape (fun _ => 0%Q) 0 _)).
  intros _. split; [apply Qle_refl | reflexivity].
Defined.

Lemma share_code_leads_to_the_game_until_revoked_witness :
  fst (ShareRoutes.generate Club.tables "u1" 2000 (fun _ => 0%Q))
  = Json200 (ShareRoutes.generateShareCode (fun _ => 0%Q) 0,
             (2000 + 24 * 60 * 60 * 1000)%Z).
Proof.
  refine (proj1 (share_code_leads_to_the_game_until_revoked Club.tables "u1"
                   2000 (fun _ => 0%Q) host_game _ eq_refl) eq_refl).
  intros _. split; [apply Qle_refl | reflexivity].
Defined.

Lemma well_formed_answer_is_kept_witness :
  Analyzer.exec careful_collaborator
    (Analyzer.analyzeTill (Some "key") (Some night) 100000)
  = (Analyzer.Json200
       (Analyzer.mkResponse (100000 - Analyzer.expectedTill night)
          (Analyzer.expectedTill night) 100000 "Count again" careful_causes
          careful_reviews ["Recount the till"]),
     1%nat).
Proof.
  refine (well_formed_answer_is_kept (Some "key") night 100000
            careful_collaborator "Count again" careful_causes careful_reviews
            ["Recount the till"] eq_refl _ (fun _ => eq_refl) _ _).
  - vm_compute. discriminate.
  - discriminate.
  - constructor; [|constructor]. split; [discriminate | now left].
Defined.


Lemma removeMember_ends_the_access_witness :
  ShareRoutes.removeMember Club.tables "u1" "u3" = (Failed, Club.tables).
Proof.
  refine (proj2 (removeMember_ends_the_access Club.tables "u1" "u3" host_game
                   _ eq_refl _) eq_refl).
  - exact (proj1 club_unique_keys).
  - discriminate.
Defined.

End SampleRoutes.

(** ** Recording a row and deleting it *)

Section RoundTrips.
Import Db Integrity.
Local Open Scope string_scope.
Local Open Scope list_scope.

Lemma findUnique_snoc_new {A : Type} (key : A -> string) (rows : list A)
  (r : A) :
  ~ In (key r) (map key rows) ->
  findUnique key (key r) (rows ++ [r]) = Some r.
Proof.
  intros Hnew. unfold findUnique.
  induction rows as [|x rows IH]; cbn [app find].
  - now rewrite String.eqb_refl.
  - destruct (String.eqb (key x) (key r)) eqn:E.
    + apply String.eqb_eq in E. destruct Hnew. left. exact E.
    + apply IH. intros H. apply Hnew. now right.
Qed.

Lemma delete_snoc_new {A : Type} (key : A -> string) (rows : list A) (r : A) :
  ~ In (key r) (map key rows) ->
  delete key (key r) (rows ++ [r]) = rows.
Proof.
  intros Hnew. unfold delete. rewrite filter_app. cbn [filter].
  rewrite String.eqb_refl. cbn [negb]. rewrite app_nil_r.
  induction rows as [|x rows IH]; cbn [filter]; [reflexivity|].
  destruct (String.eqb (key x) (key r)) eqn:E.
  - apply String.eqb_eq in E. destruct Hnew. left. exact E.
  - cbn [negb]. f_equal. apply IH. intros H. apply Hnew. now right.
Qed.

Lemma owned_row_snoc_new {A : Type} (key session_of : A -> string)
  (db db' : Db.t) (user : string) (rows : list A) (r : A)
  (s : GameSessionRow.t) :
  gameSessions db' = gameSessions db ->
  findUnique GameSessionRow.id (session_of r) (gameSessions db) = Some s ->
  ~ In (key r) (map key rows) ->
  owned_row key session_of db' user (key r) (rows ++ [r])
  = if String.eqb (GameSessionRow.userId s) user then Some r else None.
Proof.
  intros Hsessions Hs Hnew. unfold owned_row.
  now rewrite (findUnique_snoc_new key rows r Hnew), Hsessions, Hs.
Qed.

Lemma with_expenses_same db : with_expenses db (expenses db) = db.
Proof. now destruct db. Qed.

(** X27.  A transaction, a dealer down or an expense recorded under
    a key that its table does not hold yet is removed again by the delete
    route of the owner of the game, which gives the tables back as they
    were.  For the one who recorded the row as a member of the game
    the delete route answers 404 and the row stays. *)
Theorem delete_undoes_the_record
  (db : Db.t) (user sid newId : string) (s : GameSessionRow.t) :
  findUnique GameSessionRow.id sid (gameSessions db) = Some s ->
  let answer_of (owner : bool) (message : string) (db' : Db.t)
    : Response unit * Db.t :=
    if owner then (Json200 tt, db) else (JsonError 404 message, db') in
  let owner := String.eqb (GameSessionRow.userId s) user in
  (forall data row db',
      PlayerRoutes.gameSessionId data = sid ->
      ~ In newId (map transaction_id (playerTransactions db)) ->
      PlayerRoutes.addTransaction db user data newId = (Json200 row, db') ->
      PlayerRoutes.deleteTransaction db' user newId
      = answer_of owner "Transaction not found" db') /\
  (forall data row db',
      DealerRoutes.gameSessionId data = sid ->
      ~ In newId (map DealerDown.id (dealerDowns db)) ->
      DealerRoutes.addDown db user data newId = (Json200 row, db') ->
      DealerRoutes.deleteDown db' user newId
      = answer_of owner "Dealer down not found" db') /\
  (forall data row db',
      ExpenseRoutes.gameSessionId data = sid ->
      ~ In newId (map expense_id (expenses db)) ->
      ExpenseRoutes.addExpense db user data newId = (Json200 row, db') ->
      ExpenseRoutes.deleteExpense db' user newId
      = answer_of owner "Expense not found" db').
Proof.
  intros Hs. cbn zeta. split; [|split]; intros data row db' Hsid Hnew Hadd.
  - unfold PlayerRoutes.addTransaction in Hadd.
    destruct (find _ (gameSessions db)); [|discriminate].
    injection Hadd as <- <-. unfold PlayerRoutes.deleteTransaction.
    cbn [playerTransactions with_playerTransactions].
    set (r := InSession.mk _ _).
    change newId with (transaction_id r) at 1 2.
    rewrite owned_row_snoc_new with (db := db) (s := s);
      [|reflexivity|cbn; now rewrite Hsid|exact Hnew].
    destruct (String.eqb (GameSessionRow.userId s) user); [|reflexivity].
    change newId with (transaction_id r).
    rewrite (delete_snoc_new transaction_id _ r Hnew).
    now rewrite with_playerTransactions_twice, with_playerTransactions_same.
  - unfold DealerRoutes.addDown in Hadd.
    destruct (find _ (gameSessions db)) as [found|]; [|discriminate].
    destruct (negb (GameSessionRow.isActive found)); [discriminate|].
    injection Hadd as <- <-. unfold DealerRoutes.deleteDown.
    cbn [dealerDowns with_dealerDowns].
    set (r := DealerDown.mk _ _ _ _ _ _ _).
    change newId with (DealerDown.id r) at 1 2.
    rewrite owned_row_snoc_new with (db := db) (s := s);
      [|reflexivity|cbn; now rewrite Hsid|exact Hnew].
    destruct (String.eqb (GameSessionRow.userId s) user); [|reflexivity].
    change newId with (DealerDown.id r).
    rewrite (delete_snoc_new DealerDown.id _ r Hnew).
    now rewrite with_dealerDowns_twice, with_dealerDowns_same.
  - unfold ExpenseRoutes.addExpense in Hadd.
    destruct (find _ (gameSessions db)); [|discriminate].
    injection Hadd as <- <-. unfold ExpenseRoutes.deleteExpense.
    cbn [expenses with_expenses].
    set (r := InSession.mk _ _).
    change newId with (expense_id r) at 1 2.
    rewrite owned_row_snoc_new with (db := db) (s := s);
      [|reflexivity|cbn; now rewrite Hsid|exact Hnew].
    destruct (String.eqb (GameSessionRow.userId s) user); [|reflexivity].
    change newId with (expense_id r).
    rewrite (delete_snoc_new expense_id _ r Hnew).
    change (with_expenses (with_expenses db _) (expenses db))
      with (with_expenses db (expenses db)).
    apply f_equal, with_expenses_same.
Qed.

End RoundTrips.

Section SampleRoundTrip.
Import Db App Integrity Club.
Local Open Scope string_scope.
Local Open Scope list_scope.

Lemma delete_undoes_the_record_witness :
  match PlayerRoutes.addTransaction Club.tables "u1"
          (PlayerRoutes.mkAdd "Gus" BuyIn 100 Cash None "g1") "n1" with
  | (Json200 row, db') =>
      PlayerRoutes.deleteTransaction db' "u1" "n1" = (Json200 tt, Club.tables)
  | _ => False
  end.
Proof.
  destruct (PlayerRoutes.addTransaction Club.tables "u1"
              (PlayerRoutes.mkAdd "Gus" BuyIn 100 Cash None "g1") "n1")
    as [[row| |] db'] eqn:E; try (vm_compute in E; discriminate).
  refine (proj1 (delete_undoes_the_record Club.tables "u1" "g1" "n1" host_game
                   eq_refl)
            (PlayerRoutes.mkAdd "Gus" BuyIn 100 Cash None "g1") row db'
            eq_refl _ E).
  cbn. intuition discriminate.
Defined.

End SampleRoundTrip.
(** ** Recording what happens at the table, and the figures in doubles *)

Section Recording64.
Import Db Integrity Binary64.
Local Open Scope string_scope.
Local Open Scope list_scope.

(** The terms of a session with one more transaction. *)
Section OneMore64.
Variables (a b : GameSession.t) (t : PlayerTransaction.t).
Hypothesis Htxs :
  GameSession.playerTransactions b = GameSession.playerTransactions a ++ [t].

Lemma totalBuyIns_one_more64 :
  Summary64.totalBuyIns b
  = if Summary.is_buy_in t
    then add (Summary64.totalBuyIns a) (Summary64.amount t)
    else Summary64.totalBuyIns a.
Proof.
  unfold Summary64.totalBuyIns. now rewrite Htxs, reduce_filter_snoc.
Qed.

Lemma totalCashouts_one_more64 :
  Summary64.totalCashouts b
  = if Summary.is_cashout t
    then add (Summary64.totalCashouts a) (Summary64.amount t)
    else Summary64.totalCashouts a.
Proof.
  unfold Summary64.totalCashouts. now rewrite Htxs, reduce_filter_snoc.
Qed.

Lemma cashBuyIns_one_more64 :
  Summary64.cashBuyIns b
  = if Summary.is_buy_in t && Summary.pays_with Cash t
    then add (Summary64.cashBuyIns a) (Summary64.amount t)
    else Summary64.cashBuyIns a.
Proof.
  unfold Summary64.cashBuyIns. now rewrite Htxs, reduce_filter_snoc.
Qed.

Lemma cashCashouts_one_more64 :
  Summary64.cashCashouts b
  = if Summary.is_cashout t && Summary.pays_with Cash t
    then Summary64.cashCashoutsStep (Summary64.cashCashouts a) t
    else Summary64.cashCashouts a.
Proof.
  unfold Summary64.cashCashouts. now rewrite Htxs, reduce_filter_snoc.
Qed.

Lemma autoSettledCredit_one_more64 :
  Summary64.autoSettledCredit b
  = if Summary.mentions_credit_settlement t
    then Summary64.autoSettledCreditStep (Summary64.autoSettledCredit a) t
    else Summary64.autoSettledCredit a.
Proof.
  unfold Summary64.autoSettledCredit. now rewrite Htxs, reduce_filter_snoc.
Qed.

Lemma paidCreditBuyIns_one_more64 :
  Summary64.paidCreditBuyIns b
  = if Summary.is_buy_in t && Summary.pays_with Credit t
       && Bool.eqb (PlayerTransaction.isPaid t) true
    then add (Summary64.paidCreditBuyIns a) (Summary64.amount t)
    else Summary64.paidCreditBuyIns a.
Proof.
  unfold Summary64.paidCreditBuyIns. now rewrite Htxs, reduce_filter_snoc.
Qed.

Lemma playerCreditMap_one_more64 :
  Summary64.playerCreditMap b
  = Summary64.creditMapStep (Summary64.playerCreditMap a) t.
Proof.
  unfold Summary64.playerCreditMap. now rewrite Htxs, fold_left_app.
Qed.

End OneMore64.

(** X15.  What a recorded transaction does to the summary of its
    game, the row being read after those the game had.  Its amount is
    added to the buy-ins or to the cashouts, by its type.  The amount
    of a cash buy-in is added to the cash buy-ins of the till, the
    amount of a cash cashout without notes to its cash cashouts; a
    buy-in on credit is created as paid and is added to the paid
    credit buy-ins of the till; an electronic transaction without notes
    leaves the till as it is; in each case the other terms of the till
    are as before.  A transaction that is not on credit leaves the
    credit balance as it is.  The player count goes up by one exactly
    when no transaction of the game carried the player's name.  Tips,
    rake, expenses and net profit stay. *)
Theorem recorded_transaction_in_the_summary
  (db db' : Db.t) (user newId : string)
  (data : PlayerRoutes.AddPlayerTransactionRequest)
  (row : InSession.t PlayerTransaction.t) (s : GameSessionRow.t) :
  PlayerRoutes.addTransaction db user data newId = (Json200 row, db') ->
  GameSessionRow.id s = PlayerRoutes.gameSessionId data ->
  let before := include db s in
  let after := include db' s in
  let amount := of_Q (PlayerRoutes.amount data) in
  let cashBuyIns := Summary64.cashBuyIns before in
  let manuallyPaidCredit := Summary64.manuallyPaidCredit before in
  let cashCashouts := Summary64.cashCashouts before in
  let totalPaidTips := Summary64.totalPaidTips before in
  let totalExpenses := Summary64.totalExpenses before in
  (PlayerRoutes.type data = BuyIn ->
   Summary64.totalBuyIns after = add (Summary64.totalBuyIns before) amount /\
   Summary64.totalCashouts after = Summary64.totalCashouts before) /\
  (PlayerRoutes.type data = Cashout ->
   Summary64.totalCashouts after = add (Summary64.totalCashouts before) amount /\
   Summary64.totalBuyIns after = Summary64.totalBuyIns before) /\
  (PlayerRoutes.type data = BuyIn -> PlayerRoutes.paymentMethod data = Cash ->
   Summary64.tillBalance after
   = Summary64.till (add cashBuyIns amount) manuallyPaidCredit cashCashouts
       totalPaidTips totalExpenses) /\
  (PlayerRoutes.type data = Cashout -> PlayerRoutes.paymentMethod data = Cash ->
   PlayerRoutes.notes data = None ->
   Summary64.tillBalance after
   = Summary64.till cashBuyIns manuallyPaidCredit (add cashCashouts amount)
       totalPaidTips totalExpenses) /\
  (PlayerRoutes.type data = BuyIn -> PlayerRoutes.paymentMethod data = Credit ->
   Summary64.tillBalance after
   = Summary64.till cashBuyIns
       (Math_max zero
          (sub (add (Summary64.paidCreditBuyIns before) amount)
             (Summary64.autoSettledCredit before)))
       cashCashouts totalPaidTips totalExpenses) /\
  (PlayerRoutes.paymentMethod data = Electronic ->
   PlayerRoutes.type data = BuyIn \/ PlayerRoutes.notes data = None ->
   Summary64.tillBalance after = Summary64.tillBalance before) /\
  (PlayerRoutes.paymentMethod data <> Credit ->
   Summary64.creditBalance after = Summary64.creditBalance before) /\
  Summary64.playerCount after
  = (if existsb (String.eqb (PlayerRoutes.playerName data))
          (Summary.uniquePlayers before)
     then Summary64.playerCount before
     else S (Summary64.playerCount before)) /\
  Summary64.totalTips after = Summary64.totalTips before /\
  Summary64.totalRake after = Summary64.totalRake before /\
  Summary64.totalExpenses after = Summary64.totalExpenses before /\
  Summary64.netProfit after = Summary64.netProfit before.
Proof.
  intros H Hid. cbn zeta. unfold PlayerRoutes.addTransaction in H.
  destruct (find _ _) as [found|]; [|discriminate].
  injection H as <- <-.
  set (t := PlayerTransaction.mk newId (PlayerRoutes.playerName data)
              (PlayerRoutes.type data) (PlayerRoutes.amount data)
              (PlayerRoutes.paymentMethod data) (PlayerRoutes.notes data) true).
  set (a := include db s).
  set (b := include (with_playerTransactions db
                       (playerTransactions db
                        ++ [InSession.mk (PlayerRoutes.gameSessionId data) t])) s).
  assert (Htxs : GameSession.playerTransactions b
                 = GameSession.playerTransactions a ++ [t]).
  { unfold a, b. cbn [include GameSession.playerTransactions
                      with_playerTransactions playerTransactions].
    rewrite rows_of_snoc, Hid. now rewrite String.eqb_refl. }
  assert (Hbuy := totalBuyIns_one_more64 a b t Htxs).
  assert (Hcash := totalCashouts_one_more64 a b t Htxs).
  assert (Hcb := cashBuyIns_one_more64 a b t Htxs).
  assert (Hcc := cashCashouts_one_more64 a b t Htxs).
  assert (Hasc := autoSettledCredit_one_more64 a b t Htxs).
  assert (Hpcb := paidCreditBuyIns_one_more64 a b t Htxs).
  assert (Hmap := playerCreditMap_one_more64 a b t Htxs).
  unfold Summary.mentions_credit_settlement, Summary.is_buy_in,
    Summary.is_cashout, Summary.pays_with, Summary.notes_include,
    Summary64.cashCashoutsStep, Summary64.autoSettledCreditStep,
    Summary64.creditMapStep, Summary64.pays_with, Summary64.truthy_notes,
    Summary64.notes_match, Summary.pays_with, Summary.notes_match,
    Summary.truthy_notes, Summary64.amount
    in Hbuy, Hcash, Hcb, Hcc, Hasc, Hpcb, Hmap.
  cbn [t PlayerTransaction.type PlayerTransaction.amount
       PlayerTransaction.paymentMethod PlayerTransaction.notes
       PlayerTransaction.isPaid Bool.eqb] in Hbuy, Hcash, Hcb, Hcc, Hasc, Hpcb, Hmap.
  unfold Summary64.tillBalance, Summary64.manuallyPaidCredit.
  change (Summary64.totalPaidTips b) with (Summary64.totalPaidTips a).
  change (Summary64.totalExpenses b) with (Summary64.totalExpenses a).
  rewrite Hcb, Hcc, Hasc, Hpcb.
  split; [|split; [|split; [|split; [|split; [|split; [|split; [|split]]]]]]].
  - intros Ht. rewrite Ht in Hbuy, Hcash. now split.
  - intros Ht. rewrite Ht in Hbuy, Hcash. now split.
  - intros Ht Hm. rewrite Ht, Hm. reflexivity.
  - intros Ht Hm Hn. rewrite Ht, Hm, Hn. reflexivity.
  - intros Ht Hm. rewrite Ht, Hm. reflexivity.
  - intros Hm Hn. rewrite Hm. destruct Hn as [Ht|Hn].
    + rewrite Ht. reflexivity.
    + rewrite Hn. cbn. now rewrite !andb_false_r.
  - intros Hm. unfold Summary64.creditBalance. rewrite Hmap.
    destruct (PlayerRoutes.paymentMethod data); try reflexivity.
    now destruct Hm.
  - apply (playerCount_one_more a b t Htxs).
  - repeat split; reflexivity.
Qed.

(** X16.  A recorded expense is added to the expenses of its game
    after those it had, whether it was paid in cash or electronically,
    and the till balance, the expected till of the analyzer and the net
    profit are what the routes make of that total and of the other
    terms, which are as before; the rake is as before. *)
Theorem recorded_expense_in_the_figures
  (db db' : Db.t) (user newId : string) (data : ExpenseRoutes.AddExpenseRequest)
  (row : InSession.t Expense.t) (s : GameSessionRow.t) :
  ExpenseRoutes.addExpense db user data newId = (Json200 row, db') ->
  GameSessionRow.id s = ExpenseRoutes.gameSessionId data ->
  let before := include db s in
  let after := include db' s in
  let totalExpenses :=
    add (Summary64.totalExpenses before) (of_Q (ExpenseRoutes.amount data)) in
  Summary64.totalExpenses after = totalExpenses /\
  Analyzer64.totalExpenses after = totalExpenses /\
  Summary64.tillBalance after
  = Summary64.till (Summary64.cashBuyIns before)
      (Summary64.manuallyPaidCredit before) (Summary64.cashCashouts before)
      (Summary64.totalPaidTips before) totalExpenses /\
  Analyzer64.expectedTill after
  = Analyzer64.expected (Analyzer64.cashBuyIns before)
      (Analyzer64.manuallyPaidCredit before) (Analyzer64.cashCashouts before)
      (Analyzer64.totalPaidTips before) (Analyzer64.totalClaimedRake before)
      totalExpenses /\
  Summary64.totalRake after = Summary64.totalRake before /\
  Summary64.netProfit after = sub (Summary64.totalRake before) totalExpenses.
Proof.
  intros H Hid. cbn zeta. unfold ExpenseRoutes.addExpense in H.
  destruct (find _ _) as [found|]; [|discriminate].
  injection H as <- <-.
  set (e := Expense.mk newId (ExpenseRoutes.description data)
              (ExpenseRoutes.amount data) (ExpenseRoutes.category data)
              (ExpenseRoutes.paymentMethod data) false (ExpenseRoutes.notes data)).
  set (a := include db s).
  set (b := include (with_expenses db
                       (expenses db
                        ++ [InSession.mk (ExpenseRoutes.gameSessionId data) e])) s).
  assert (Hexp : GameSession.expenses b = GameSession.expenses a ++ [e]).
  { unfold a, b. cbn [include GameSession.expenses with_expenses expenses].
    rewrite rows_of_snoc, Hid. now rewrite String.eqb_refl. }
  assert (Htotal : Summary64.totalExpenses b
                   = add (Summary64.totalExpenses a)
                       (of_Q (ExpenseRoutes.amount data))).
  { unfold Summary64.totalExpenses. rewrite Hexp, reduce_snoc. reflexivity. }
  split; [exact Htotal|]. split; [exact Htotal|].
  split; [|split; [|split; [reflexivity|]]].
  - unfold Summary64.tillBalance. now rewrite Htotal.
  - unfold Analyzer64.expectedTill.
    change (Analyzer64.totalExpenses b) with (Summary64.totalExpenses b).
    now rewrite Htotal.
  - unfold Summary64.netProfit. now rewrite Htotal.
Qed.

(** X17.  A recorded dealer down (the game is active, or the route
    refuses) is added to the tips of its game after those it had, and
    leaves the till balance and the expected till as they were, its
    tips being unpaid and its rake unclaimed.  Its rake is added to the
    rake of the summary only when the game has no positive lump-sum
    rake, and the net profit is that rake minus the expenses. *)
Theorem recorded_down_in_the_figures
  (db db' : Db.t) (user newId : string) (data : DealerRoutes.AddDealerDownRequest)
  (row : DealerDown.t) (s : GameSessionRow.t) :
  DealerRoutes.addDown db user data newId = (Json200 row, db') ->
  GameSessionRow.id s = DealerRoutes.gameSessionId data ->
  let before := include db s in
  let after := include db' s in
  (exists found, find (accessible db user (DealerRoutes.gameSessionId data))
                   (gameSessions db) = Some found /\
                 GameSessionRow.isActive found = true) /\
  Summary64.totalTips after
  = add (Summary64.totalTips before) (of_Q (DealerRoutes.tips data)) /\
  Summary64.tillBalance after = Summary64.tillBalance before /\
  Analyzer64.expectedTill after = Analyzer64.expectedTill before /\
  Summary64.totalRake after
  = (if gt (of_Q (GameSessionRow.totalRake s)) zero
     then Summary64.totalRake before
     else add (Summary64.totalRake before) (of_Q (DealerRoutes.rake data))) /\
  Summary64.netProfit after
  = sub (Summary64.totalRake after) (Summary64.totalExpenses before).
Proof.
  intros H Hid. cbn zeta. unfold DealerRoutes.addDown in H.
  destruct (find _ _) as [found|]; [|discriminate].
  destruct (GameSessionRow.isActive found) eqn:Hactive; [|discriminate].
  cbn [negb] in H. injection H as <- <-.
  set (d := DealerDown.mk newId (DealerRoutes.dealerName data)
              (DealerRoutes.tips data) (DealerRoutes.rake data) false false
              (DealerRoutes.gameSessionId data)).
  set (a := include db s).
  set (b := include (with_dealerDowns db (dealerDowns db ++ [d])) s).
  assert (Hdowns : GameSession.dealerDowns b = GameSession.dealerDowns a ++ [d]).
  { unfold a, b. cbn [include GameSession.dealerDowns with_dealerDowns dealerDowns].
    unfold downs_of. rewrite filter_app. cbn [filter d DealerDown.gameSessionId].
    now rewrite Hid, String.eqb_refl. }
  assert (Hpaid : Summary64.totalPaidTips b = Summary64.totalPaidTips a).
  { unfold Summary64.totalPaidTips. rewrite Hdowns, reduce_filter_snoc. reflexivity. }
  assert (Hclaimed : Analyzer64.totalClaimedRake b
                     = Analyzer64.totalClaimedRake a).
  { unfold Analyzer64.totalClaimedRake. rewrite Hdowns, reduce_filter_snoc.
    reflexivity. }
  split; [eauto|]. split; [|split; [|split; [|split; [|reflexivity]]]].
  - unfold Summary64.totalTips. rewrite Hdowns, reduce_snoc. reflexivity.
  - unfold Summary64.tillBalance. now rewrite Hpaid.
  - unfold Analyzer64.expectedTill.
    change (Analyzer64.totalPaidTips b) with (Summary64.totalPaidTips b).
    now rewrite Hpaid, Hclaimed.
  - unfold Summary64.totalRake, Summary64.session_totalRake.
    change (GameSession.totalRake b) with (GameSessionRow.totalRake s).
    change (GameSession.totalRake a) with (GameSessionRow.totalRake s).
    destruct (gt (of_Q (GameSessionRow.totalRake s)) zero); [reflexivity|].
    rewrite Hdowns, reduce_snoc. reflexivity.
Qed.

End Recording64.

(** ** The claims and the marks, and the figures in doubles *)

Section Marks64.
Import Db Integrity Binary64.
Local Open Scope string_scope.
Local Open Scope list_scope.


















End Marks64.

(** ** GET /active *)

Section Active.
Import Db Integrity GameRoutes.
Local Open Scope string_scope.
Local Open Scope list_scope.





End Active.

(** ** The sums of the summary and the order of the rows *)

Section RowOrder.
Import Binary64 Tenths.

(** X2.  The query of the summary gives no order to the rows, and the
    sums depend on it: the same three cash buy-ins read in two orders
    give two totals of buy-ins and two till balances.  The player count
    is the same in every order. *)
Theorem sums_depend_on_the_row_order :
  (exists s s' : GameSession.t,
      GameSession.totalRake s = GameSession.totalRake s' /\
      Permutation (GameSession.playerTransactions s)
        (GameSession.playerTransactions s') /\
      GameSession.dealerDowns s = GameSession.dealerDowns s' /\
      GameSession.expenses s = GameSession.expenses s' /\
      Summary64.totalBuyIns s <> Summary64.totalBuyIns s' /\
      Summary64.tillBalance s <> Summary64.tillBalance s') /\
  (forall s s' : GameSession.t,
      Permutation (GameSession.playerTransactions s)
        (GameSession.playerTransactions s') ->
      Summary64.playerCount s = Summary64.playerCount s').
Proof.
  split; [|exact playerCount_perm].
  exists three_buy_ins, three_buy_ins_reversed.
  split; [reflexivity|]. split; [apply Permutation_rev|].
  split; [reflexivity|]. split; [reflexivity|].
  split; vm_compute; discriminate.
Qed.

End RowOrder.

(** ** Sample runs, with the figures in doubles *)

Section SampleFigures.
Import Db App Integrity Club Binary64.
Local Open Scope string_scope.
Local Open Scope list_scope.

Lemma recorded_transaction_in_the_summary_witness :
  match PlayerRoutes.addTransaction Club.tables "u2"
          (PlayerRoutes.mkAdd "Gus" BuyIn 100 Credit None "g1") "n1" with
  | (Json200 row, db') =>
      Summary64.totalBuyIns (include db' host_game)
      = add (Summary64.totalBuyIns (include Club.tables host_game)) (of_Q 100)
  | _ => False
  end.
Proof.
  destruct (PlayerRoutes.addTransaction Club.tables "u2"
              (PlayerRoutes.mkAdd "Gus" BuyIn 100 Credit None "g1") "n1")
    as [[row| |] db'] eqn:E; try (vm_compute in E; discriminate).
  exact (proj1 (proj1 (recorded_transaction_in_the_summary Club.tables
                         db' "u2" "n1" _ row host_game E eq_refl)
                  eq_refl)).
Defined.

Lemma recorded_expense_in_the_figures_witness :
  match ExpenseRoutes.addExpense Club.tables "u1"
          (ExpenseRoutes.mkAdd "ice" 20 Drinks PaidElectronic None "g1") "n1" with
  | (Json200 row, db') =>
      Summary64.totalExpenses (include db' host_game)
      = add (Summary64.totalExpenses (include Club.tables host_game)) (of_Q 20)
  | _ => False
  end.
Proof.
  destruct (ExpenseRoutes.addExpense Club.tables "u1"
              (ExpenseRoutes.mkAdd "ice" 20 Drinks PaidElectronic None "g1") "n1")
    as [[row| |] db'] eqn:E; try (vm_compute in E; discriminate).
  exact (proj1 (recorded_expense_in_the_figures Club.tables db' "u1"
                  "n1" _ row host_game E eq_refl)).
Defined.

Lemma recorded_down_in_the_figures_witness :
  match DealerRoutes.addDown Club.tables "u1"
          (DealerRoutes.mkAdd "Flo" 10 20 "g1") "n1" with
  | (Json200 row, db') =>
      Summary64.tillBalance (include db' host_game)
      = Summary64.tillBalance (include Club.tables host_game)
  | _ => False
  end.
Proof.
  destruct (DealerRoutes.addDown Club.tables "u1"
              (DealerRoutes.mkAdd "Flo" 10 20 "g1") "n1")
    as [[row| |] db'] eqn:E; try (vm_compute in E; discriminate).
  exact (proj1 (proj2 (proj2 (recorded_down_in_the_figures Club.tables db' "u1"
                                "n1" _ row host_game E eq_refl)))).
Defined.





End SampleFigures.
